(** * corner16-now-playing: the adaptive polling, caching and retry logic

    A shallow embedding of the widget (src/components/SpotifyNowPlaying.jsx)
    and of the serverless now-playing handlers (src/api/spotify/*.js, *.ts and
    the two handlers of src/unnamed/part_015), with the properties the
    specification states about them.

    Conventions.
    - JavaScript values that cross a JSON boundary are [value]s, their
      numbers integers; truthiness, [||], [?.] and property reads follow the
      language.
    - A JavaScript exception is the [Throw] case of [result].
    - [Date.now()] and every whole millisecond quantity is a [Z]; a Number
      that need not be whole is the rational a double holds, and an
      arithmetic operation on doubles is the exact operation followed by
      [Double.round]; [Math.random()] is a rational in the unit interval.
    - A JavaScript [Map] is a [gmap].
    - A string is written by its bytes: a setting of the environment by the
      UTF-8 bytes Node decodes, a header value by one byte for each of its
      characters. *)

From Stdlib Require Import ZArith ZifyBool QArith Qround Qpower Qabs Lqa Ascii
  DecimalString.
From stdpp Require Import gmap strings list.
From Equations Require Import Equations.

Local Open Scope string_scope.
Local Open Scope Z_scope.

(** ** Numbers: IEEE 754 binary64 *)

Module Double.

(** The integer nearest to [q], the even one of two that are equally near. *)
Definition rne (q : Q) : Z :=
  let f := Qfloor q in
  match (q - inject_Z f ?= 1 # 2)%Q with
  | Lt => f
  | Gt => f + 1
  | Eq => if Z.even f then f else f + 1
  end.

(** The integer part of the binary logarithm of [q > 0]. *)
Definition ilog2 (q : Q) : Z :=
  let k := Z.log2 (Qnum q) - Z.log2 (Zpos (Qden q)) in
  if Qle_bool (2 ^ k) q then k else k - 1.

(** The exponent of the unit in the last place of the doubles around [q]:
    53 significant bits, and no exponent below that of the subnormals. *)
Definition exponent (q : Q) : Z := Z.max (ilog2 (Qabs q) - 52) (-1074).

(** The double nearest to [q] (round to nearest, ties to even), as a
    rational. The result is meant for [|q| < 2^1024], where no overflow to an
    infinity takes place; [ofZ] tests for it. *)
Definition round (q : Q) : Q :=
  if Qeq_bool q 0 then 0%Q
  else (inject_Z (rne (q / 2 ^ exponent q)) * 2 ^ exponent q)%Q.

(** The Number that stands for the integer [n]: the nearest double, which
    is again an integer; [None] when that is an infinity. *)
Definition ofZ (n : Z) : option Z :=
  let r := round (inject_Z n) in
  if Qle_bool (2 ^ 1024) (Qabs r) then None else Some (Qfloor r).

End Double.

(** ** JavaScript values *)

Module Js.

#[warning="-register-all"]
Inductive value : Type :=
| VUndef
| VNull
| VBool (b : bool)
| VNum (n : Z)
| VStr (s : string)
| VArr (items : list value)
| VObj (fields : list (string * value)).

Record error : Type := Error { name : string; message : string }.

Inductive result (A : Type) : Type :=
| Ok (a : A)
| Throw (e : error).
Arguments Ok {A} a.
Arguments Throw {A} e.

Definition bind {A B : Type} (m : result A) (k : A -> result B) : result B :=
  match m with
  | Ok a => k a
  | Throw e => Throw e
  end.

(** [!!v] *)
Definition truthy (v : value) : bool :=
  match v with
  | VUndef | VNull => false
  | VBool b => b
  | VNum n => negb (n =? 0)
  | VStr s => negb (String.eqb s "")
  | VArr _ | VObj _ => true
  end.

(** [a || b] *)
Definition or (a b : value) : value := if truthy a then a else b.

Fixpoint assoc (k : string) (fields : list (string * value)) : value :=
  match fields with
  | [] => VUndef
  | (k', v) :: rest => if String.eqb k k' then v else assoc k rest
  end.

(** [v.k], for the property names the modelled code reads (none of them is
    inherited from a prototype, so a primitive or an array answers
    [undefined]); reading a property of [null] or [undefined] throws. *)
Definition prop (v : value) (k : string) : result value :=
  match v with
  | VUndef =>
      Throw (Error "TypeError"
               ("Cannot read properties of undefined (reading '" +:+ k +:+ "')"))
  | VNull =>
      Throw (Error "TypeError"
               ("Cannot read properties of null (reading '" +:+ k +:+ "')"))
  | VObj fields => Ok (assoc k fields)
  | _ => Ok VUndef
  end.

(** [v?.k] *)
Definition optprop (v : value) (k : string) : value :=
  match v with
  | VObj fields => assoc k fields
  | _ => VUndef
  end.

(** [`${n}`] for an integer. *)
Definition showZ (n : Z) : string := NilZero.string_of_int (Z.to_int n).

(** [`${v}`] *)
Fixpoint toStr (v : value) : string :=
  match v with
  | VUndef => "undefined"
  | VNull => "null"
  | VBool b => if b then "true" else "false"
  | VNum n => showZ n
  | VStr s => s
  | VArr items =>
      let elt x := match x with VUndef | VNull => "" | _ => toStr x end in
      (fix join (l : list value) : string :=
         match l with
         | [] => ""
         | [x] => elt x
         | x :: rest => elt x +:+ "," +:+ join rest
         end) items
  | VObj _ => "[object Object]"
  end.

(** [v === s] for a string literal [s] *)
Definition is_str (v : value) (s : string) : bool :=
  match v with
  | VStr s' => String.eqb s' s
  | _ => false
  end.

(** [parseInt(s)], called without a radix, for a string whose characters
    are one byte each, as those of a header value are: white space is
    skipped, then a sign, then a [0x] or [0X] prefix, which selects the
    digits of base 16; the longest run of digits is read, and the integer it
    writes is turned into the nearest Number. [None] stands for [NaN] and
    for an infinity, both of which [JSON.stringify] writes as [null]. (Past
    20 significant decimal digits the language lets an implementation
    approximate; the nearest Number is what the exact reading gives.) *)
Definition isStrWhiteSpace (c : ascii) : bool :=
  let n := Z.of_nat (nat_of_ascii c) in
  (n =? 32) || ((9 <=? n) && (n <=? 13)) || (n =? 160).

Fixpoint skipWhiteSpace (s : string) : string :=
  match s with
  | String c rest => if isStrWhiteSpace c then skipWhiteSpace rest else s
  | EmptyString => s
  end.

Definition digit (c : ascii) : option Z :=
  let n := Z.of_nat (nat_of_ascii c) in
  if (48 <=? n) && (n <=? 57) then Some (n - 48) else None.

Definition hexDigit (c : ascii) : option Z :=
  let n := Z.of_nat (nat_of_ascii c) in
  if (48 <=? n) && (n <=? 57) then Some (n - 48)
  else if (65 <=? n) && (n <=? 70) then Some (n - 55)
  else if (97 <=? n) && (n <=? 102) then Some (n - 87)
  else None.

(** The integer the longest run of digits at the start of [s] writes in
    base [radix], after [acc]; [None] when there is no digit. *)
Fixpoint digits (radix : Z) (digitOf : ascii → option Z) (acc : option Z)
    (s : string) : option Z :=
  match s with
  | EmptyString => acc
  | String c rest =>
      match digitOf c with
      | Some d => digits radix digitOf (Some (radix * default 0 acc + d)) rest
      | None => acc
      end
  end.

Definition parseInt (s : string) : option Z :=
  let s1 := skipWhiteSpace s in
  let '(negative, s2) :=
    match s1 with
    | String "-" rest => (true, rest)
    | String "+" rest => (false, rest)
    | _ => (false, s1)
    end in
  let mathInt :=
    match s2 with
    | String "0" (String "x" rest) | String "0" (String "X" rest) =>
        digits 16 hexDigit None rest
    | _ => digits 10 digit None s2
    end in
  n ← mathInt; r ← Double.ofZ n; Some (if negative : bool then - r else r).

(** [s.includes(sub)] *)
Fixpoint includes (sub s : string) : bool :=
  String.prefix sub s ||
  match s with
  | EmptyString => false
  | String _ rest => includes sub rest
  end.

End Js.

Import Js.

(** [x ← m; k] sequences two steps of which the first may throw. *)
#[global] Instance result_bind : MBind result := fun A B k m => Js.bind m k.
#[global] Instance result_ret : MRet result := fun A a => Ok a.

(** ** What [fetch] hands back *)

Module Http.

(** A response as the code reads it: [status], the [Retry-After] header
    ([headers.get] answers [null] when it is absent) and what [json()] gives. *)
Record Response : Type := {
  status : Z;
  retryAfter : option string;
  json : result value;
}.

(** [response.ok] *)
Definition ok (r : Response) : bool :=
  (200 <=? status r) && (status r <=? 299).

(** The settled promise of one [fetch] call: it rejects (a transport
    failure) or resolves with a response. *)
Inductive FetchOutcome : Type :=
| Rejects (e : error)
| Resolves (r : Response).

Definition awaitFetch (o : FetchOutcome) : result Response :=
  match o with
  | Rejects e => Throw e
  | Resolves r => Ok r
  end.

(** [response.headers.get("Retry-After") || dflt] *)
Definition retryAfterOr (r : Response) (dflt : string) : string :=
  match retryAfter r with
  | Some h => if String.eqb h "" then dflt else h
  | None => dflt
  end.

End Http.

Import Http.

(** ** String helpers of the utilities *)

Module Text.

(** A setting is the UTF-8 text the environment holds, byte by byte; Node
    decodes it, so [trim] and [.length] are those of the decoded string. *)

Definition code (c : ascii) : Z := Z.of_nat (nat_of_ascii c).

(** The white space and line terminators [trim()] removes, by their UTF-8
    bytes: U+0009 to U+000D and U+0020; *)
Definition isSpace (c : ascii) : bool :=
  let n := code c in
  (n =? 32) || ((9 <=? n) && (n <=? 13)).

(** U+00A0; *)
Definition isSpace2 (a b : ascii) : bool :=
  (code a =? 194) && (code b =? 160).

(** U+1680, U+2000 to U+200A, U+2028, U+2029, U+202F, U+205F, U+3000 and
    U+FEFF. *)
Definition isSpace3 (a b c : ascii) : bool :=
  let x := code a in
  let y := code b in
  let z := code c in
  ((x =? 225) && (y =? 154) && (z =? 128))
  || ((x =? 226) && (y =? 128)
      && (((128 <=? z) && (z <=? 138)) || (z =? 168) || (z =? 169)
          || (z =? 175)))
  || ((x =? 226) && (y =? 129) && (z =? 159))
  || ((x =? 227) && (y =? 128) && (z =? 128))
  || ((x =? 239) && (y =? 187) && (z =? 191)).

(** The white space at the start of [s] removed; with [backwards], [s] is
    read as a string written last byte first. No other byte sequence decodes
    to one of these characters, and a byte that starts one of them is never
    part of the character before, so this is [trimStart] (and, backwards,
    [trimEnd]) of the decoded string also where [s] is not well-formed. *)
Fixpoint strip (backwards : bool) (s : string) : string :=
  match s with
  | String a rest =>
      if isSpace a then strip backwards rest
      else
        match rest with
        | String b rest' =>
            if (if backwards then isSpace2 b a else isSpace2 a b)
            then strip backwards rest'
            else
              match rest' with
              | String c rest'' =>
                  if (if backwards then isSpace3 c b a else isSpace3 a b c)
                  then strip backwards rest''
                  else s
              | EmptyString => s
              end
        | EmptyString => s
        end
  | EmptyString => s
  end.

Definition trimStart (s : string) : string := strip false s.

(** [s.trim()] *)
Definition trim (s : string) : string :=
  String.rev (strip true (String.rev (trimStart s))).

(** What the UTF-8 decoder has read of a character that takes several
    bytes: the bytes still to come, the range the next one must lie in, and
    the UTF-16 code units the character takes. *)
Record Partial : Type := {
  needed : nat;
  lower : Z;
  upper : Z;
  units : nat;
}.

(** A byte read with no character under way: the code units it gives at
    once (one for an ASCII byte, one, for U+FFFD, for a byte that can start
    nothing) and the character it starts. *)
Definition lead (b : Z) : nat * option Partial :=
  if b <=? 127 then (1%nat, None)
  else if (194 <=? b) && (b <=? 223) then
    (0%nat, Some {| needed := 1; lower := 128; upper := 191; units := 1 |})
  else if b =? 224 then
    (0%nat, Some {| needed := 2; lower := 160; upper := 191; units := 1 |})
  else if b =? 237 then
    (0%nat, Some {| needed := 2; lower := 128; upper := 159; units := 1 |})
  else if (225 <=? b) && (b <=? 239) then
    (0%nat, Some {| needed := 2; lower := 128; upper := 191; units := 1 |})
  else if b =? 240 then
    (0%nat, Some {| needed := 3; lower := 144; upper := 191; units := 2 |})
  else if b =? 244 then
    (0%nat, Some {| needed := 3; lower := 128; upper := 143; units := 2 |})
  else if (241 <=? b) && (b <=? 243) then
    (0%nat, Some {| needed := 3; lower := 128; upper := 191; units := 2 |})
  else (1%nat, None).

(** The code units of the string the decoder makes of the bytes [s], from
    the state [st]: a byte that cannot continue the character under way ends
    it as U+FFFD and is read afresh, as is the end of the input. *)
Fixpoint length16From (st : option Partial) (s : string) : nat :=
  match s with
  | EmptyString => match st with Some _ => 1%nat | None => 0%nat end
  | String c rest =>
      let b := code c in
      match st with
      | Some p =>
          if (lower p <=? b) && (b <=? upper p) then
            match needed p with
            | 0%nat | 1%nat => (units p + length16From None rest)%nat
            | S n =>
                length16From
                  (Some {| needed := n; lower := 128; upper := 191;
                           units := units p |})
                  rest
            end
          else
            let '(n, st') := lead b in
            (1 + n + length16From st' rest)%nat
      | None =>
          let '(n, st') := lead b in (n + length16From st' rest)%nat
      end
  end.

(** [s.length] *)
Definition length16 (s : string) : nat := length16From None s.

(** [s.split(sep)] for a one-character separator *)
Fixpoint split (sep : ascii) (s : string) : list string :=
  match s with
  | EmptyString => [""]
  | String c rest =>
      if Ascii.eqb c sep then "" :: split sep rest
      else
        match split sep rest with
        | part :: parts => String c part :: parts
        | [] => [String c ""]
        end
  end.

Fixpoint all (p : ascii → bool) (s : string) : bool :=
  match s with
  | EmptyString => true
  | String c rest => p c && all p rest
  end.

Definition isDigit (c : ascii) : bool :=
  let n := code c in (48 <=? n) && (n <=? 57).

Definition isAlnum (c : ascii) : bool :=
  let n := code c in
  ((48 <=? n) && (n <=? 57)) || ((65 <=? n) && (n <=? 90))
  || ((97 <=? n) && (n <=? 122)).

(** [/^[a-zA-Z0-9]{32}$/.test(s)]: a letter or digit is one byte, and no
    other byte decodes to one. *)
Definition isAlnum32 (s : string) : bool :=
  (String.length s =? 32)%nat && all isAlnum s.

(** What is left of [s] after the prefix [p], if [s] starts with it. *)
Fixpoint stripPrefix (p s : string) : option string :=
  match p, s with
  | EmptyString, _ => Some s
  | String a p', String b s' =>
      if Ascii.eqb a b then stripPrefix p' s' else None
  | String _ _, EmptyString => None
  end.

(** [/^https?:\/\/<host>:\d+$/] as a test on [origin] *)
Definition isLocalOrigin (host origin : string) : bool :=
  let afterScheme :=
    match stripPrefix "http://" origin with
    | Some rest => Some rest
    | None => stripPrefix "https://" origin
    end in
  match afterScheme ≫= stripPrefix (host +:+ ":") with
  | Some port => negb (String.eqb port "") && all isDigit port
  | None => false
  end.

End Text.

(** ** The widget: src/components/SpotifyNowPlaying.jsx *)

Module Widget.

(** *** The state cache: [globalCache], [CACHE_TTL], [getCachedData],
    [setCachedData] *)

Definition CACHE_TTL_PLAYING : Z := 5 * 1000.
Definition CACHE_TTL_PAUSED : Z := 60 * 1000.
Definition CACHE_TTL_ERROR : Z := 30 * 1000.

Record CacheEntry : Type := { data : value; timestamp : Z }.

(** [`${url}-${isPlaying}`]; the flag is [isPlayingRef.current], that is
    [jsonData.is_playing || false]. *)
Definition cacheKey (url : string) (isPlaying : value) : string :=
  url +:+ "-" +:+ toStr isPlaying.

(** [now] is the value of [Date.now()] at the call; the result pairs the
    returned value ([null] on a miss) with the cache after the call. *)
Definition getCachedData (url : string) (isPlaying : value) (now : Z)
    (globalCache : gmap string CacheEntry) : value * gmap string CacheEntry :=
  let key := cacheKey url isPlaying in
  match globalCache !! key with
  | None => (VNull, globalCache)
  | Some cached =>
      let ttl :=
        if truthy isPlaying then CACHE_TTL_PLAYING else CACHE_TTL_PAUSED in
      if now - timestamp cached >? ttl
      then (VNull, delete key globalCache)
      else (data cached, globalCache)
  end.

Definition setCachedData (url : string) (isPlaying : value) (d : value) (now : Z)
    (globalCache : gmap string CacheEntry) : gmap string CacheEntry :=
  <[cacheKey url isPlaying := {| data := d; timestamp := now |}]> globalCache.

(** *** Backoff and polling cadence: [getRetryDelay], [getPollingInterval] *)

(** The part of the delay that does not depend on [Math.random()]:
    [Math.min(baseDelay * Math.pow(2, attempt), maxDelay)], for [attempt >= 0]
    (the widget passes [retryCountRef.current], which is 0, 1 or 2). *)
Definition backoff (attempt : Z) : Z :=
  let baseDelay := 1000 in
  let maxDelay := 30000 in
  Z.min (baseDelay * 2 ^ attempt) maxDelay.

(** [rnd] is the value [Math.random()] returned, a double in [0, 1). The
    product and the sum are operations on doubles, each rounded; [delay] is
    exact, being [1000 * 2^attempt] or [30000]. *)
Definition getRetryDelay (attempt : Z) (rnd : Q) : Q :=
  Double.round (inject_Z (backoff attempt) + Double.round (rnd * 1000))%Q.

Definition getPollingInterval (isPlaying : value) (hasError : bool) : Z :=
  if hasError then 30000
  else if truthy isPlaying then 5000 else 60000.

(** *** The component: [fetchData], [scheduleNextPoll] and the render *)

(** The state one component instance reads and writes: its React state
    ([track], [loading], [error]), its refs, the module-level cache, and the
    delay of the retry timer armed by the last [fetchData] (if any). *)
Record State : Type := {
  track : value;
  loading : bool;
  error : value;
  retryCountRef : Z;
  isPlayingRef : value;
  globalCache : gmap string CacheEntry;
  retryTimer : option Q;
}.

Definition initialState : State :=
  {| track := VNull; loading := true; error := VNull; retryCountRef := 0;
     isPlayingRef := VBool false; globalCache := ∅; retryTimer := None |}.

(** The checks on the response inside the [try] block, up to the parsed
    body. *)
Definition readResponse (net : FetchOutcome) : result value :=
  response ← awaitFetch net;
  if negb (ok response) then
    if status response =? 401 then
      Throw (Error "Error"
        "Spotify authentication failed - please check your API credentials")
    else if status response =? 500 then
      Throw (Error "Error"
        "Spotify API temporarily unavailable - please try again later")
    else if status response =? 429 then
      let retryAfter := retryAfterOr response "60" in
      Throw (Error "Error"
        ("Spotify rate limit exceeded - retry after " +:+ retryAfter +:+ "s"))
    else
      Throw (Error "Error"
        ("Unable to connect to Spotify (" +:+ showZ (status response) +:+ ")"))
  else json response.

(** The [catch] block: record the message and, while fewer than three
    retries were made, arm the retry timer with [getRetryDelay]. *)
Definition fetchData_catch (err : Js.error) (rnd : Q) (st : State) : State :=
  {| track := track st; loading := loading st;
     error := VStr (message err);
     retryCountRef := retryCountRef st;
     isPlayingRef := isPlayingRef st;
     globalCache := globalCache st;
     retryTimer :=
       if retryCountRef st <? 3
       then Some (getRetryDelay (retryCountRef st) rnd)
       else None |}.

(** One run of [fetchData(isRetry)]. [now1] is [Date.now()] at the cache
    read, [net] the outcome of the (deduplicated) fetch, consulted only when
    the cache does not answer, [now2] is [Date.now()] at the cache write and
    [rnd] the [Math.random()] of the [catch] block. *)
Definition fetchData (apiUrl : string) (isRetry : bool) (now1 : Z)
    (net : FetchOutcome) (now2 : Z) (rnd : Q) (st : State) : State :=
  let '(cachedData, cache1) :=
    getCachedData apiUrl (isPlayingRef st) now1 (globalCache st) in
  let settled :=
    if truthy cachedData && negb isRetry then
      {| track := cachedData; loading := loading st; error := VNull;
         retryCountRef := 0; isPlayingRef := isPlayingRef st;
         globalCache := cache1; retryTimer := None |}
    else
      let st1 :=
        {| track := track st; loading := loading st; error := error st;
           retryCountRef := retryCountRef st;
           isPlayingRef := isPlayingRef st;
           globalCache := cache1; retryTimer := None |} in
      match (jsonData ← readResponse net;
             flag ← prop jsonData "is_playing";
             mret (jsonData, Js.or flag (VBool false))) with
      | Ok (jsonData, playing) =>
          {| track := jsonData; loading := loading st; error := VNull;
             retryCountRef := 0; isPlayingRef := playing;
             globalCache := setCachedData apiUrl playing jsonData now2 cache1;
             retryTimer := None |}
      | Throw err => fetchData_catch err rnd st1
      end in
  (* finally *)
  {| track := track settled; loading := false; error := error settled;
     retryCountRef := retryCountRef settled;
     isPlayingRef := isPlayingRef settled;
     globalCache := globalCache settled;
     retryTimer := retryTimer settled |}.

(** The interval [scheduleNextPoll] hands to [setTimeout]. *)
Definition scheduleNextPoll (st : State) : Z :=
  let isPlaying := isPlayingRef st in
  let hasError := truthy (error st) in
  getPollingInterval isPlaying hasError.

(** [isPodcast]; inside the parentheses [track] is truthy, so its property
    reads cannot throw. *)
Definition isPodcast (track : value) : bool :=
  truthy track &&
  (is_str (optprop track "currently_playing_type") "episode"
   || is_str (optprop (optprop track "item") "type") "episode"
   || (truthy (optprop track "item")
       && negb (truthy (optprop (optprop track "item") "artists")))).

(** What the component renders; of the track view only the title and album
    lines are kept. *)
Inductive View : Type :=
| LoadingView
| ErrorView (msg : value)
| NotPlayingView
| TrackView (trackName albumName : value).

Definition render (st : State) : View :=
  if loading st then LoadingView
  else if truthy (error st) then ErrorView (error st)
  else if negb (truthy (optprop (track st) "is_playing")) || isPodcast (track st)
  then NotPlayingView
  else
    TrackView
      (Js.or (optprop (optprop (track st) "item") "name") (VStr "Unknown Track"))
      (Js.or (optprop (optprop (optprop (track st) "item") "album") "name")
             (VStr "Unknown Album")).

End Widget.

(** ** Request deduplication: [pendingRequests], [deduplicatedFetch] *)

Module Coalescer.

(** One [requestPromise], that is [fetch(url, options).finally(...)]:
    allocating it is one call of [fetch]. [outcome] is [None] while the
    promise is pending. *)
Record Request : Type := { key : string; outcome : option FetchOutcome }.

(** The promise one call of the [async] function [deduplicatedFetch] hands to
    its caller; it is resolved with the [requestPromise] it [awaits]. *)
Record Caller : Type := { awaits : nat; resolved : option FetchOutcome }.

Inductive Event : Type :=
| EvFetch (cacheKey : string) (r : nat)
| EvDelete (cacheKey : string)
| EvSettle (r : nat) (o : FetchOutcome)
| EvResolve (caller : nat) (o : FetchOutcome).

(** The module-level map, the promises allocated so far (a promise is named
    by its position) and the trace of what happened, oldest first. *)
Record Runtime : Type := {
  pendingRequests : gmap string nat;
  requests : list Request;
  callers : list Caller;
  events : list Event;
}.

Definition emptyRuntime : Runtime :=
  {| pendingRequests := ∅; requests := []; callers := []; events := [] |}.

(** The number of times [fetch] was called. *)
Definition fetchCount (rt : Runtime) : nat := length (requests rt).

(** One call [deduplicatedFetch(url, options)], with [cacheKey] the string
    built from its arguments; the body runs to its [return] without
    suspending. The result names the promise the caller receives. *)
Definition deduplicatedFetch (cacheKey : string) (rt : Runtime) : nat * Runtime :=
  match pendingRequests rt !! cacheKey with
  | Some r =>
      (length (callers rt),
       {| pendingRequests := pendingRequests rt;
          requests := requests rt;
          callers :=
            callers rt ++
            [{| awaits := r;
                resolved := req ← requests rt !! r; outcome req |}];
          events := events rt |})
  | None =>
      let r := length (requests rt) in
      (length (callers rt),
       {| pendingRequests := <[cacheKey := r]> (pendingRequests rt);
          requests := requests rt ++ [{| key := cacheKey; outcome := None |}];
          callers := callers rt ++ [{| awaits := r; resolved := None |}];
          events := events rt ++ [EvFetch cacheKey r] |})
  end.

(** The callers (by name) waiting on request [r]. *)
Definition waiters (r : nat) (rt : Runtime) : list nat :=
  filter (λ c, (c' ← callers rt !! c; mret (awaits c' =? r)%nat) = Some true)
         (seq 0 (length (callers rt))).

(** The fetch behind request [r] settles with [o]: the [finally] callback
    runs ([pendingRequests.delete(cacheKey)]), then the [requestPromise]
    settles with the same outcome, then the promises resolved with it. *)
Definition settle (r : nat) (o : FetchOutcome) (rt : Runtime) : Runtime :=
  match requests rt !! r with
  | Some {| key := cacheKey; outcome := None |} =>
      {| pendingRequests := delete cacheKey (pendingRequests rt);
         requests := <[r := {| key := cacheKey; outcome := Some o |}]> (requests rt);
         callers :=
           (λ c, if (awaits c =? r)%nat
                 then {| awaits := r; resolved := Some o |} else c)
           <$> callers rt;
         events :=
           events rt ++
           EvDelete cacheKey :: EvSettle r o ::
           ((λ c, EvResolve c o) <$> waiters r rt) |}
  | _ => rt
  end.

(** [n] calls in a row with the same key. *)
Fixpoint calls (cacheKey : string) (n : nat) (rt : Runtime) : list nat * Runtime :=
  match n with
  | O => ([], rt)
  | S m =>
      let '(c, rt1) := deduplicatedFetch cacheKey rt in
      let '(cs, rt2) := calls cacheKey m rt1 in
      (c :: cs, rt2)
  end.

(** The request the key names once a call was made: the registered one, or
    the one the first call creates. *)
Definition inflight (cacheKey : string) (rt : Runtime) : nat :=
  default (length (requests rt)) (pendingRequests rt !! cacheKey).

(** What holds of every runtime the two operations can produce: a registered
    key names a pending request made for that key. *)
Definition wf (rt : Runtime) : Prop :=
  ∀ k r, pendingRequests rt !! k = Some r →
         requests rt !! r = Some {| key := k; outcome := None |}.

End Coalescer.

(** ** The serverless handlers *)

Module Server.

(** What a handler sends: [res.status(code).json(body)], or
    [res.status(code).end()] when [body] is [None], with the headers set by
    then. *)
Record Reply : Type := {
  code : Z;
  headers : list (string * string);
  body : option value;
}.

(** [res.setHeader(k, v)]: a later value for a name replaces the earlier. *)
Fixpoint setHeader (k v : string) (hs : list (string * string)) :
    list (string * string) :=
  match hs with
  | [] => [(k, v)]
  | (k', v') :: rest =>
      if String.eqb k k' then (k, v) :: rest else (k', v') :: setHeader k v rest
  end.

Fixpoint getHeader (k : string) (hs : list (string * string)) : option string :=
  match hs with
  | [] => None
  | (k', v) :: rest => if String.eqb k k' then Some v else getHeader k rest
  end.

(** [JSON.stringify] as far as it changes a value: a property whose value
    is [undefined] is left out, an [undefined] array element becomes [null]. *)
Fixpoint serialize (v : value) : value :=
  match v with
  | VArr items =>
      VArr ((λ x, match x with VUndef => VNull | _ => serialize x end) <$> items)
  | VObj fields =>
      VObj ((fix go (l : list (string * value)) : list (string * value) :=
               match l with
               | [] => []
               | (k, VUndef) :: rest => go rest
               | (k, x) :: rest => (k, serialize x) :: go rest
               end) fields)
  | _ => v
  end.

Definition sendJson (c : Z) (hs : list (string * string)) (b : value) : Reply :=
  {| code := c; headers := hs; body := Some (serialize b) |}.

Definition sendEnd (c : Z) (hs : list (string * string)) : Reply :=
  {| code := c; headers := hs; body := None |}.

(** The three settings read from [process.env] ([None] when unset). *)
Record Env : Type := {
  SPOTIFY_CLIENT_ID : option string;
  SPOTIFY_CLIENT_SECRET : option string;
  SPOTIFY_REFRESH_TOKEN : option string;
}.

(** [!!x] for a setting *)
Definition isSet (x : option string) : bool :=
  match x with
  | Some s => negb (String.eqb s "")
  | None => false
  end.

(** [{ is_playing: false }] *)
Definition notPlaying : value := VObj [("is_playing", VBool false)].

(** [{ error: summary, is_playing: false }] *)
Definition failure (summary : string) : value :=
  VObj [("error", VStr summary); ("is_playing", VBool false)].

Definition methodNotAllowed : value :=
  VObj [("error", VStr "Method not allowed")].

(** The headers the handlers that answer every origin set first. *)
Definition openCors (allowHeaders : string) : list (string * string) :=
  setHeader "Access-Control-Allow-Headers" allowHeaders
    (setHeader "Access-Control-Allow-Methods" "GET, OPTIONS"
       (setHeader "Access-Control-Allow-Origin" "*" [])).

Definition hardened (hs : list (string * string)) : list (string * string) :=
  setHeader "X-XSS-Protection" "1; mode=block"
    (setHeader "X-Frame-Options" "DENY"
       (setHeader "X-Content-Type-Options" "nosniff" hs)).

(** [artists?.map((artist) => artist.name)] *)
Definition optArtistNames (artists : value) : result value :=
  match artists with
  | VUndef | VNull => Ok VUndef
  | VArr items =>
      names ← mapM (λ artist, prop artist "name") items; mret (VArr names)
  | _ => Throw (Error "TypeError" "track.artists?.map is not a function")
  end.

(** The five fields of [item] every handler that guards its reads builds. *)
Definition itemFields (track : value) : result (list (string * value)) :=
  name ← prop track "name";
  artists ← prop track "artists";
  names ← optArtistNames artists;
  duration_ms ← prop track "duration_ms";
  album ← prop track "album";
  external_urls ← prop track "external_urls";
  mret [("name", Js.or name (VStr "Unknown Track"));
        ("artists", Js.or names (VArr [VStr "Unknown Artist"]));
        ("duration_ms", Js.or duration_ms (VNum 0));
        ("album",
         VObj [("name", Js.or (optprop album "name") (VStr "Unknown Album"));
               ("images", Js.or (optprop album "images") (VArr []))]);
        ("external_urls", Js.or external_urls (VObj []))].

(** The catch block shared by the production and the validated handler. *)
Definition catchNetwork (hs : list (string * string)) (e : Js.error) : Reply :=
  if String.eqb (name e) "TypeError" && includes "fetch" (message e)
  then sendJson 500 hs (failure "Network error connecting to Spotify")
  else sendJson 500 hs (failure "Failed to fetch now playing").

(** The steps of the production and the validated handler from the parsed
    playback body on. *)
Definition shapePlayback (hs : list (string * string)) (apiData : value) :
    result Reply :=
  is_playing ← prop apiData "is_playing";
  if negb (truthy is_playing) then
    mret (sendJson 200 (setHeader "Cache-Control" "s-maxage=60, stale-while-revalidate" hs)
               notPlaying)
  else
    track ← prop apiData "item";
    if negb (truthy track) then
      mret (sendJson 200 (setHeader "Cache-Control" "s-maxage=60, stale-while-revalidate" hs)
                 notPlaying)
    else
      type ← prop track "type";
      if negb (is_str type "track") then
        mret (sendJson 200 (setHeader "Cache-Control" "s-maxage=60, stale-while-revalidate" hs)
                   notPlaying)
      else
        progress_ms ← prop apiData "progress_ms";
        currently_playing_type ← prop apiData "currently_playing_type";
        fields ← itemFields track;
        id ← prop track "id";
        let nowPlaying :=
          VObj [("is_playing", VBool true);
                ("progress_ms", Js.or progress_ms (VNum 0));
                ("currently_playing_type",
                 Js.or currently_playing_type (VStr "track"));
                ("item",
                 VObj (fields ++ [("id", Js.or id VNull);
                                  ("type", Js.or type (VStr "track"))]))] in
        mret (sendJson 200 (setHeader "Cache-Control" "s-maxage=5, stale-while-revalidate" hs)
                   nowPlaying).

(** *** The production handler (first file of src/unnamed/part_015) *)

(** [tokenFetch] and [apiFetch] are the outcomes of the two [fetch] calls;
    the second is consulted only when the handler gets that far. *)
Definition productionHandler (method : string) (env : Env)
    (tokenFetch apiFetch : FetchOutcome) : Reply :=
  let hs := hardened (openCors "Content-Type, Authorization") in
  if String.eqb method "OPTIONS" then sendEnd 200 hs
  else if negb (String.eqb method "GET") then sendJson 405 hs methodNotAllowed
  else
    match
      (if negb (isSet (SPOTIFY_CLIENT_ID env))
          || negb (isSet (SPOTIFY_CLIENT_SECRET env))
          || negb (isSet (SPOTIFY_REFRESH_TOKEN env))
       then mret (sendJson 500 hs (failure "Server configuration error"))
       else
         tokenResponse ← awaitFetch tokenFetch;
         if negb (ok tokenResponse) then
           mret (sendJson 500 hs (failure "Authentication failed"))
         else
           tokenData ← Http.json tokenResponse;
           access_token ← prop tokenData "access_token";
           if negb (truthy access_token) then
             mret (sendJson 500 hs (failure "Authentication failed"))
           else
             apiResponse ← awaitFetch apiFetch;
             if status apiResponse =? 204 then
               mret (sendJson 200
                       (setHeader "Cache-Control"
                          "s-maxage=60, stale-while-revalidate" hs)
                       notPlaying)
             else if (400 <=? status apiResponse) && (status apiResponse <? 500)
             then mret (sendJson 500 hs (failure "Spotify API error"))
             else if 500 <=? status apiResponse then
               mret (sendJson 500 hs
                       (failure "Spotify API temporarily unavailable"))
             else if negb (ok apiResponse) then
               mret (sendJson 500 hs (failure "Spotify API error"))
             else
               apiData ← Http.json apiResponse;
               shapePlayback hs apiData)
    with
    | Ok reply => reply
    | Throw e => catchNetwork hs e
    end.

(** *** The validated handler (src/api/spotify/now-playing-validated.js) *)

(** [nowPlayingHandler], the function [withEnvValidation] calls once the
    settings passed validation and were attached to the request;
    [production] is [process.env.NODE_ENV === 'production']. The settings
    themselves only reach the token request. *)
Definition nowPlayingHandler (production : bool) (method : string)
    (validatedEnv : Env) (tokenFetch apiFetch : FetchOutcome) : Reply :=
  let hs := hardened (openCors "Content-Type, Authorization") in
  if String.eqb method "OPTIONS" then sendEnd 200 hs
  else if negb (String.eqb method "GET") then sendJson 405 hs methodNotAllowed
  else
    match
      (tokenResponse ← awaitFetch tokenFetch;
       if negb (ok tokenResponse) then
         if (status tokenResponse =? 400) || (status tokenResponse =? 401) then
           mret (sendJson 500 hs
                   (VObj [("error", VStr "Authentication failed");
                          ("message",
                           VStr "Failed to refresh access token. The refresh token may be expired.");
                          ("hint",
                           if production then VUndef
                           else VStr "Run 'npm run spotify-auth' to generate a new refresh token");
                          ("is_playing", VBool false)]))
         else mret (sendJson 500 hs (failure "Authentication failed"))
       else
         tokenData ← Http.json tokenResponse;
         access_token ← prop tokenData "access_token";
         if negb (truthy access_token) then
           mret (sendJson 500 hs (failure "Authentication failed"))
         else
           apiResponse ← awaitFetch apiFetch;
           if status apiResponse =? 204 then
             mret (sendJson 200
                     (setHeader "Cache-Control"
                        "s-maxage=60, stale-while-revalidate" hs)
                     notPlaying)
           else if status apiResponse =? 401 then
             mret (sendJson 500 hs (failure "Authentication error"))
           else if status apiResponse =? 429 then
             let retryAfter := retryAfterOr apiResponse "60" in
             mret (sendJson 429 (setHeader "Retry-After" retryAfter hs)
                     (VObj [("error", VStr "Rate limited");
                            ("retryAfter",
                             from_option VNum VNull (parseInt retryAfter));
                            ("is_playing", VBool false)]))
           else if (400 <=? status apiResponse) && (status apiResponse <? 500)
           then mret (sendJson 500 hs (failure "Spotify API error"))
           else if 500 <=? status apiResponse then
             mret (sendJson 500 hs
                     (failure "Spotify API temporarily unavailable"))
           else if negb (ok apiResponse) then
             mret (sendJson 500 hs (failure "Spotify API error"))
           else
             apiData ← Http.json apiResponse;
             shapePlayback hs apiData)
    with
    | Ok reply => reply
    | Throw e => catchNetwork hs e
    end.

(** The rethrow of the [catch] blocks in the [getAccessToken] and
    [getNowPlaying] functions below. *)
Definition rethrow (e : Js.error) : Js.error :=
  if String.eqb (name e) "TypeError" && includes "fetch" (message e)
  then Error "Error" "Unable to connect to Spotify - network error"
  else e.

Definition caught {A : Type} (m : result A) : result A :=
  match m with
  | Ok a => Ok a
  | Throw e => Throw (rethrow e)
  end.

(** *** The simplified TypeScript handler
    (src/api/spotify/now-playing-simple.ts) *)

Module Simple.

Definition getAccessToken (tokenFetch : FetchOutcome) : result value :=
  response ← awaitFetch tokenFetch;
  if negb (ok response) then
    if status response =? 400 then
      Throw (Error "Error"
        "Invalid refresh token - please re-authorize your Spotify account")
    else if status response =? 401 then
      Throw (Error "Error"
        "Invalid client credentials - check your Spotify app configuration")
    else
      Throw (Error "Error"
        ("Token refresh failed with status " +:+ showZ (status response)))
  else
    data ← Http.json response;
    prop data "access_token".

Definition getNowPlaying (tokenFetch apiFetch : FetchOutcome) : result value :=
  caught
    (access_token ← getAccessToken tokenFetch;
     response ← awaitFetch apiFetch;
     if status response =? 204 then mret notPlaying
     else if (400 <=? status response) && (status response <? 500) then
       if status response =? 401 then
         Throw (Error "Error"
           "Spotify access token expired - authentication issue")
       else if status response =? 403 then
         Throw (Error "Error"
           "Insufficient Spotify permissions - check app scopes")
       else if status response =? 429 then
         Throw (Error "Error" "Spotify rate limit exceeded - retry later")
       else
         Throw (Error "Error"
           ("Spotify API client error: " +:+ showZ (status response)))
     else if 500 <=? status response then
       Throw (Error "Error" "Spotify API temporarily unavailable")
     else if negb (ok response) then
       Throw (Error "Error"
         ("Unexpected Spotify API error: " +:+ showZ (status response)))
     else
       data ← Http.json response;
       is_playing ← prop data "is_playing";
       if negb (truthy is_playing) then mret notPlaying
       else
         item ← prop data "item";
         if negb (truthy item) then mret notPlaying
         else
           type ← prop item "type";
           if is_str type "track" then
             progress_ms ← prop data "progress_ms";
             fields ← itemFields item;
             mret (VObj [("is_playing", VBool true);
                         ("progress_ms", Js.or progress_ms (VNum 0));
                         ("item", VObj fields)])
           else mret notPlaying).

Definition handler (method : string) (tokenFetch apiFetch : FetchOutcome) :
    Reply :=
  let hs := hardened (openCors "Content-Type, Authorization") in
  if String.eqb method "OPTIONS" then sendEnd 200 hs
  else if negb (String.eqb method "GET") then sendJson 405 hs methodNotAllowed
  else
    match getNowPlaying tokenFetch apiFetch with
    | Ok nowPlaying =>
        sendJson 200
          (setHeader "Cache-Control" "s-maxage=10, stale-while-revalidate" hs)
          nowPlaying
    | Throw _ => sendJson 500 hs (failure "Failed to fetch now playing")
    end.

End Simple.

(** *** The first handler (src/api/spotify/now-playing.js) *)

Module Legacy.

Definition getAccessToken (tokenFetch : FetchOutcome) : result value :=
  response ← awaitFetch tokenFetch;
  if negb (ok response) then
    Throw (Error "Error"
      ("Token refresh failed: " +:+ showZ (status response)))
  else Http.json response.

(** [artists.map(artist => artist.name)], with no guard *)
Definition artistNames (artists : value) : result value :=
  match artists with
  | VUndef =>
      Throw (Error "TypeError"
               "Cannot read properties of undefined (reading 'map')")
  | VNull =>
      Throw (Error "TypeError" "Cannot read properties of null (reading 'map')")
  | VArr items =>
      names ← mapM (λ artist, prop artist "name") items; mret (VArr names)
  | _ => Throw (Error "TypeError" "data.item.artists.map is not a function")
  end.

Definition getNowPlaying (tokenFetch apiFetch : FetchOutcome) : result value :=
  tokenData ← getAccessToken tokenFetch;
  access_token ← prop tokenData "access_token";
  response ← awaitFetch apiFetch;
  if (status response =? 204) || (status response >? 400) then mret notPlaying
  else if negb (ok response) then
    Throw (Error "Error" ("Spotify API error: " +:+ showZ (status response)))
  else
    data ← Http.json response;
    is_playing ← prop data "is_playing";
    if negb (truthy is_playing) then mret notPlaying
    else
      progress_ms ← prop data "progress_ms";
      item ← prop data "item";
      name ← prop item "name";
      artists ← prop item "artists";
      names ← artistNames artists;
      duration_ms ← prop item "duration_ms";
      album ← prop item "album";
      albumName ← prop album "name";
      images ← prop album "images";
      external_urls ← prop item "external_urls";
      mret (VObj [("is_playing", VBool true);
                  ("progress_ms", progress_ms);
                  ("item",
                   VObj [("name", name);
                         ("artists", names);
                         ("duration_ms", duration_ms);
                         ("album", VObj [("name", albumName); ("images", images)]);
                         ("external_urls", external_urls)])]).

(** [x?.length] for a setting *)
Definition lengthOf (x : option string) : value :=
  match x with
  | Some s => VNum (Z.of_nat (Text.length16 s))
  | None => VUndef
  end.

Definition handler (env : Env) (method : string)
    (tokenFetch apiFetch : FetchOutcome) : Reply :=
  let hs := openCors "Content-Type" in
  if String.eqb method "OPTIONS" then sendEnd 200 hs
  else if negb (String.eqb method "GET") then sendJson 405 hs methodNotAllowed
  else
    match getNowPlaying tokenFetch apiFetch with
    | Ok nowPlaying =>
        sendJson 200
          (setHeader "Cache-Control" "s-maxage=10, stale-while-revalidate" hs)
          nowPlaying
    | Throw e =>
        sendJson 500 hs
          (VObj [("error", VStr "Failed to fetch now playing");
                 ("is_playing", VBool false);
                 ("debug",
                  VObj [("message", VStr (message e));
                        ("has_client_id", VBool (isSet (SPOTIFY_CLIENT_ID env)));
                        ("has_client_secret",
                         VBool (isSet (SPOTIFY_CLIENT_SECRET env)));
                        ("has_refresh_token",
                         VBool (isSet (SPOTIFY_REFRESH_TOKEN env)));
                        ("client_id_length", lengthOf (SPOTIFY_CLIENT_ID env));
                        ("client_secret_length",
                         lengthOf (SPOTIFY_CLIENT_SECRET env));
                        ("refresh_token_length",
                         lengthOf (SPOTIFY_REFRESH_TOKEN env))])])
    end.

End Legacy.

(** *** The retrying handler (second file of src/unnamed/part_015) *)

Module Retrying.

(** The two upstream endpoints: what the n-th [fetch] of each settles to. *)
Record Upstream : Type := {
  tokenEndpoint : nat → FetchOutcome;
  playbackEndpoint : nat → FetchOutcome;
}.

(** What one run has done so far: the [fetch] calls made to each endpoint
    and the delays slept ([setTimeout] arguments, oldest first). *)
Record Trace : Type := {
  tokenCalls : nat;
  playbackCalls : nat;
  sleeps : list Z;
}.

Definition start : Trace :=
  {| tokenCalls := 0; playbackCalls := 0; sleeps := [] |}.

Definition tokenCalled (t : Trace) : Trace :=
  {| tokenCalls := S (tokenCalls t); playbackCalls := playbackCalls t;
     sleeps := sleeps t |}.

Definition playbackCalled (t : Trace) : Trace :=
  {| tokenCalls := tokenCalls t; playbackCalls := S (playbackCalls t);
     sleeps := sleeps t |}.

Definition slept (ms : Z) (t : Trace) : Trace :=
  {| tokenCalls := tokenCalls t; playbackCalls := playbackCalls t;
     sleeps := sleeps t ++ [ms] |}.

Definition maxRetries : Z := 2.

Equations? getAccessToken (up : Upstream) (retryCount : Z) (t : Trace) :
    result value * Trace by wf (Z.to_nat (maxRetries - retryCount)) lt :=
getAccessToken up retryCount t :=
  let t1 := tokenCalled t in
  match tokenEndpoint up (tokenCalls t) with
  | Rejects e => (Throw (rethrow e), t1)
  | Resolves response =>
      if negb (ok response) then
        if status response =? 400 then
          (Throw (Error "Error"
             "Invalid refresh token - please re-authorize your Spotify account"),
           t1)
        else if status response =? 401 then
          (Throw (Error "Error"
             "Invalid client credentials - check your Spotify app configuration"),
           t1)
        else if 500 <=? status response then
          match Z_lt_dec retryCount maxRetries with
          | left _ =>
              getAccessToken up (retryCount + 1)
                (slept (1000 * 2 ^ retryCount) t1)
          | right _ =>
              (Throw (Error "Error"
                 ("Token refresh failed with status " +:+
                  showZ (status response))),
               t1)
          end
        else
          (Throw (Error "Error"
             ("Token refresh failed with status " +:+ showZ (status response))),
           t1)
      else (Http.json response, t1)
  end.
Proof. unfold maxRetries in *. lia. Qed.

(** The body of [getNowPlaying] from the parsed playback response on. *)
Definition shape (data : value) : result value :=
  is_playing ← prop data "is_playing";
  if negb (truthy is_playing) then mret notPlaying
  else
    item ← prop data "item";
    if negb (truthy item) then mret notPlaying
    else
      progress_ms ← prop data "progress_ms";
      fields ← itemFields item;
      mret (VObj [("is_playing", VBool true);
                  ("progress_ms", Js.or progress_ms (VNum 0));
                  ("item", VObj fields)]).

Equations? getNowPlaying (up : Upstream) (retryCount : Z) (t : Trace) :
    result value * Trace by wf (Z.to_nat (maxRetries - retryCount)) lt :=
getNowPlaying up retryCount t :=
  let '(token, t1) := getAccessToken up 0 t in
  match (tokenData ← token; prop tokenData "access_token") with
  | Throw e => (Throw (rethrow e), t1)
  | Ok access_token =>
      let t2 := playbackCalled t1 in
      match playbackEndpoint up (playbackCalls t1) with
      | Rejects e => (Throw (rethrow e), t2)
      | Resolves response =>
          if status response =? 204 then (Ok notPlaying, t2)
          else if (400 <=? status response) && (status response <? 500) then
            if status response =? 401 then
              (Throw (Error "Error"
                 "Spotify access token expired - authentication issue"), t2)
            else if status response =? 403 then
              (Throw (Error "Error"
                 "Insufficient Spotify permissions - check app scopes"), t2)
            else if status response =? 429 then
              let retryAfter := retryAfterOr response "1" in
              (Throw (Error "Error"
                 ("Spotify rate limit exceeded - retry after " +:+
                  retryAfter +:+ "s")), t2)
            else
              (Throw (Error "Error"
                 ("Spotify API client error: " +:+ showZ (status response))),
               t2)
          else if 500 <=? status response then
            match Z_lt_dec retryCount maxRetries with
            | left _ =>
                getNowPlaying up (retryCount + 1)
                  (slept (1000 * 2 ^ retryCount) t2)
            | right _ =>
                (Throw (Error "Error" "Spotify API temporarily unavailable"),
                 t2)
            end
          else if negb (ok response) then
            (Throw (Error "Error"
               ("Unexpected Spotify API error: " +:+ showZ (status response))),
             t2)
          else (caught (data ← Http.json response; shape data), t2)
      end
  end.
Proof. unfold maxRetries in *. lia. Qed.

(** [handler], for a request the CORS middleware let through, which left
    the headers [hs] on the response. *)
Definition handler (hs : list (string * string)) (method : string)
    (up : Upstream) : Reply :=
  if negb (String.eqb method "GET") then sendJson 405 hs methodNotAllowed
  else
    match fst (getNowPlaying up 0 start) with
    | Ok nowPlaying =>
        sendJson 200
          (setHeader "Cache-Control" "s-maxage=10, stale-while-revalidate" hs)
          nowPlaying
    | Throw _ => sendJson 500 hs (failure "Failed to fetch now playing")
    end.

End Retrying.

End Server.

(** ** The validation script (src/unnamed/part_011) *)

Module Validation.

(** [getCacheHeaders], the cache-header logic the script defines and checks
    (its test 6). *)
Definition getCacheHeaders (isPlaying : value) : list (string * string) :=
  let cacheMaxAge := if truthy isPlaying then 5 else 60 in
  [("Cache-Control",
    "s-maxage=" +:+ showZ cacheMaxAge +:+
    ", stale-while-revalidate=" +:+ showZ (cacheMaxAge * 2));
   ("X-Playing-State", if truthy isPlaying then "playing" else "paused")].

End Validation.

(** ** From a handler's reply to the widget's [fetch] *)

(** What the widget's [fetch] resolves to when the endpoint sent [reply]
    and the page is of the endpoint's own origin, where every header can be
    read: its status, its [Retry-After] header and its body, which [json()]
    parses back (a reply without a body does not parse). *)
Definition delivered (reply : Server.Reply) : FetchOutcome :=
  Resolves
    {| status := Server.code reply;
       retryAfter := Server.getHeader "Retry-After" (Server.headers reply);
       json :=
         match Server.body reply with
         | Some b => Ok b
         | None => Throw (Error "SyntaxError" "Unexpected end of JSON input")
         end |}.

(** *** The same [fetch] from a page of another origin *)

Module Cross.

Import Server.

(** Where the page that runs the widget comes from, seen from the endpoint;
    [origin] is the page's serialized origin. *)
Inductive Page : Type :=
| SameOrigin
| CrossOrigin (origin : string).

Definition lowerChar (c : ascii) : ascii :=
  let n := nat_of_ascii c in
  if (65 <=? n)%nat && (n <=? 90)%nat then ascii_of_nat (n + 32) else c.

Fixpoint lower (s : string) : string :=
  match s with
  | String c rest => String (lowerChar c) (lower rest)
  | EmptyString => s
  end.

(** Spaces and tabs around a list entry of a header value *)
Fixpoint dropOws (s : string) : string :=
  match s with
  | String c rest =>
      if (nat_of_ascii c =? 32)%nat || (nat_of_ascii c =? 9)%nat
      then dropOws rest else s
  | EmptyString => s
  end.

Definition trimOws (s : string) : string :=
  String.rev (dropOws (String.rev (dropOws s))).

(** Whether the comma-separated list [v] of header names holds [k], in any
    case of the letters, or the wildcard, which counts for a request sent
    without credentials, as the widget's is. *)
Definition lists (v k : string) : bool :=
  existsb (λ entry, String.eqb entry "*" || String.eqb (lower entry) (lower k))
          (trimOws <$> Text.split "," v).

(** The response headers every script may read *)
Definition safelisted (k : string) : bool :=
  existsb (String.eqb (lower k))
          ["cache-control"; "content-language"; "content-length";
           "content-type"; "expires"; "last-modified"; "pragma"].

(** [response.headers.get(k)] for a script of [page] *)
Definition readable (page : Page) (k : string) (hs : list (string * string)) :
    option string :=
  match page with
  | SameOrigin => getHeader k hs
  | CrossOrigin _ =>
      if safelisted k
         || match getHeader "Access-Control-Expose-Headers" hs with
            | Some v => lists v k
            | None => false
            end
      then getHeader k hs
      else None
  end.

(** The check of [Access-Control-Allow-Origin], for a request without
    credentials *)
Definition corsCheck (origin : string) (hs : list (string * string)) : bool :=
  match getHeader "Access-Control-Allow-Origin" hs with
  | Some v => String.eqb v "*" || String.eqb v origin
  | None => false
  end.

(** The rejection of a [fetch] the browser blocks (the message is the
    browser's own). *)
Definition blocked : FetchOutcome := Rejects (Error "TypeError" "Failed to fetch").

(** The widget's [fetch(apiUrl, { method: "GET", headers: { "Content-Type":
    "application/json" } })] from [page]. From another origin the request
    header makes the browser ask first, with an OPTIONS request, which the
    endpoint answers with [preflight]: that answer must pass the origin check,
    have an ok status and list [Content-Type] among the allowed headers; then
    the answer [reply] to the GET must pass the origin check, and of its
    headers only the readable ones reach the script. *)
Definition received (page : Page) (preflight reply : Reply) : FetchOutcome :=
  match page with
  | SameOrigin => delivered reply
  | CrossOrigin origin =>
      if corsCheck origin (headers preflight)
         && (200 <=? code preflight) && (code preflight <=? 299)
         && match getHeader "Access-Control-Allow-Headers" (headers preflight)
            with
            | Some v => lists v "Content-Type"
            | None => false
            end
         && corsCheck origin (headers reply)
      then
        Resolves
          {| status := code reply;
             retryAfter := readable page "Retry-After" (headers reply);
             json :=
               match body reply with
               | Some b => Ok b
               | None =>
                   Throw (Error "SyntaxError" "Unexpected end of JSON input")
               end |}
      else blocked
  end.

End Cross.

(** ** The failure taxonomy of the specification *)

Module Spec.

Inductive Classification : Type :=
| AuthError
| PermissionError
| RateLimited
| UpstreamUnavailable
| NetworkError
| Unexpected.

Inductive CallType : Type :=
| CredentialRefresh
| PlaybackFetch.

(** The Failure Classifier, following the words of section 4.2 of the
    specification, applied to what one upstream call settled to; [None] when
    the call did not fail. The code has no such function: the branches of
    [getAccessToken] and [getNowPlaying] are compared with this one below. *)
Definition classify (call : CallType) (o : FetchOutcome) :
    option Classification :=
  match o with
  | Rejects _ => Some NetworkError
  | Resolves response =>
      if ok response then None
      else if status response =? 429 then Some RateLimited
      else if 500 <=? status response then Some UpstreamUnavailable
      else
        match call with
        | CredentialRefresh =>
            if status response =? 400 then Some AuthError
            else if status response =? 401 then Some PermissionError
            else Some Unexpected
        | PlaybackFetch =>
            if status response =? 401 then Some AuthError
            else if status response =? 403 then Some PermissionError
            else Some Unexpected
        end
  end.

(** The retryable classifications of section 4.3. *)
Definition retryable (c : Classification) : bool :=
  match c with
  | RateLimited | UpstreamUnavailable | NetworkError => true
  | AuthError | PermissionError | Unexpected => false
  end.

End Spec.

(** ** The CORS utility (utils/cors.js, third file of src/unnamed/part_008) *)

Module Cors.

Import Text Server.

(** The two settings the utility reads from [process.env]. *)
Record Config : Type := {
  ALLOWED_ORIGINS_env : option string;
  NODE_ENV : option string;
}.

Definition development (cfg : Config) : bool :=
  match NODE_ENV cfg with Some v => String.eqb v "development" | None => false end.

Definition production (cfg : Config) : bool :=
  match NODE_ENV cfg with Some v => String.eqb v "production" | None => false end.

(** [process.env.ALLOWED_ORIGINS?.split(',').map(origin => origin.trim()) || []] *)
Definition ALLOWED_ORIGINS (cfg : Config) : list string :=
  match ALLOWED_ORIGINS_env cfg with
  | Some v => trim <$> split "," v
  | None => []
  end.

Definition DEFAULT_DEV_ORIGINS : list string :=
  ["http://localhost:3000"; "http://localhost:3001";
   "http://127.0.0.1:3000"; "http://127.0.0.1:3001"].

Definition getAllowedOrigins (cfg : Config) : list string :=
  if development cfg then ALLOWED_ORIGINS cfg ++ DEFAULT_DEV_ORIGINS
  else ALLOWED_ORIGINS cfg.

(** [origin] is [req.headers.origin], [None] when the header is absent. *)
Definition isOriginAllowed (cfg : Config) (origin : option string) : bool :=
  match origin with
  | None => false
  | Some o =>
      if String.eqb o "" then false
      else if existsb (String.eqb o) (getAllowedOrigins cfg) then true
      else if development cfg && isLocalOrigin "localhost" o then true
      else if development cfg && isLocalOrigin "127.0.0.1" o then true
      else false
  end.

(** [setCorsHeaders]: the headers after the call and whether the origin is
    let in. Node's [setHeader] throws when handed [undefined], which happens
    in development for a request without an Origin header. *)
Definition setCorsHeaders (cfg : Config) (origin : option string)
    (hs : list (string * string)) : result (bool * list (string * string)) :=
  let hs1 :=
    setHeader "Access-Control-Max-Age" "86400"
      (setHeader "Access-Control-Allow-Headers" "Content-Type, Authorization"
         (setHeader "Access-Control-Allow-Methods" "GET, OPTIONS" hs)) in
  if isOriginAllowed cfg origin then
    mret (true,
          setHeader "Access-Control-Allow-Credentials" "true"
            (setHeader "Access-Control-Allow-Origin" (default "" origin) hs1))
  else if development cfg then
    match origin with
    | Some o => mret (true, setHeader "Access-Control-Allow-Origin" o hs1)
    | None =>
        let q := String (ascii_of_nat 34) "" in
        Throw (Error "TypeError"
          ("Invalid value " +:+ q +:+ "undefined" +:+ q +:+ " for header " +:+
           q +:+ "Access-Control-Allow-Origin" +:+ q))
    end
  else mret (false, hs1).

(** The response object as the middleware and the handler after it use it:
    the headers set so far and the replies sent, oldest first. *)
Record Res : Type := {
  resHeaders : list (string * string);
  sent : list Reply;
}.

Definition newRes : Res := {| resHeaders := []; sent := [] |}.

Definition withHeaders (hs : list (string * string)) (res : Res) : Res :=
  {| resHeaders := hs; sent := sent res |}.

(** What Node throws when a header is set on a response that was sent
    (ERR_HTTP_HEADERS_SENT). *)
Definition headersSent : Js.error :=
  Error "Error" "Cannot set headers after they are sent to the client".

(** [res.status(c).json(b)] and [res.status(c).end()] on that object: the
    first reply is sent; after it, [json] sets a header and so throws, and
    [end] does nothing. *)
Definition send (reply : Reply) (res : Res) : result Res :=
  match sent res, body reply with
  | [], _ => mret {| resHeaders := resHeaders res; sent := [reply] |}
  | _ :: _, Some _ => Throw headersSent
  | _ :: _, None => mret res
  end.

Definition corsViolation : value :=
  VObj [("error", VStr "CORS policy violation");
        ("message", VStr "Origin not allowed")].

(** [handleCorsPreflight]: whether the request was handled, and the response
    object after the call. *)
Definition handleCorsPreflight (cfg : Config) (method : string)
    (origin : option string) (res : Res) : result (bool * Res) :=
  if String.eqb method "OPTIONS" then
    '(isAllowed, hs) ← setCorsHeaders cfg origin (resHeaders res);
    let res1 := withHeaders hs res in
    res2 ← (if isAllowed : bool then send (sendEnd 200 hs) res1
            else send (sendJson 403 hs corsViolation) res1);
    mret (true, res2)
  else mret (false, res).

(** [corsMiddleware(req, res)], called without [next]. *)
Definition corsMiddleware (cfg : Config) (method : string)
    (origin : option string) (res : Res) : result Res :=
  '(handled, res1) ← handleCorsPreflight cfg method origin res;
  if handled : bool then mret res1
  else
    '(isAllowed, hs) ← setCorsHeaders cfg origin (resHeaders res1);
    let res2 := withHeaders hs res1 in
    if production cfg && negb isAllowed
    then send (sendJson 403 hs corsViolation) res2
    else mret res2.

(** The exported [handler] of the second file of src/unnamed/part_015:
    the middleware on the fresh response object, then the method test and
    [getNowPlaying] whatever the middleware did. The result is how the call
    ends, with the response object or with what it throws, and the upstream
    calls made. Where the middleware has sent a reply, the handler's own
    [res.setHeader] and [res.status(c).json(b)] throw: its reply is
    [Retrying.handler]'s only on a response not yet sent. *)
Definition handler (cfg : Config) (method : string) (origin : option string)
    (up : Retrying.Upstream) : result Res * Retrying.Trace :=
  match corsMiddleware cfg method origin newRes with
  | Throw e => (Throw e, Retrying.start)
  | Ok res =>
      (send (Retrying.handler (resHeaders res) method up) res,
       if String.eqb method "GET"
       then snd (Retrying.getNowPlaying up 0 Retrying.start)
       else Retrying.start)
  end.

End Cors.

(** ** Validation of the settings (utils/validateEnvironment.js, second
    file of src/unnamed/part_009, and utils/envMiddleware.js, second file of
    src/unnamed/part_008) *)

Module EnvValidation.

Import Text Server.

(** One entry of the [required] table, as pushed on [missing]. *)
Record Required : Type := {
  key : string;
  description : string;
  example : string;
  instructions : string;
}.

Definition required : list Required :=
  [{| key := "SPOTIFY_CLIENT_ID";
      description := "Spotify application client ID";
      example := "your_spotify_client_id_here";
      instructions :=
        "Get from https://developer.spotify.com/dashboard/applications" |};
   {| key := "SPOTIFY_CLIENT_SECRET";
      description := "Spotify application client secret";
      example := "your_spotify_client_secret_here";
      instructions :=
        "Get from your app settings at https://developer.spotify.com/dashboard" |};
   {| key := "SPOTIFY_REFRESH_TOKEN";
      description := "Long-lived refresh token for Spotify API";
      example := "your_spotify_refresh_token_here";
      instructions := "Generate using: npm run spotify-auth" |}].

(** The [details] of a [ConfigurationError]; the console text
    [details.errorMessage] built by [createDetailedErrorMessage] is not
    kept, no reply contains it. *)
Inductive Details : Type :=
| MissingDetails (missing : list Required)
| FormatDetails (message received : string) (expected : option string)
                (instructions : string).

Record ConfigurationError : Type := {
  cmessage : string;
  details : Details;
}.

Inductive checked (A : Type) : Type :=
| Valid (a : A)
| Invalid (e : ConfigurationError).
Arguments Valid {A} a.
Arguments Invalid {A} e.

(** [!value || value.trim() === ''] for [value = process.env[key]] *)
Definition isMissing (env : gmap string string) (k : string) : bool :=
  match env !! k with
  | None => true
  | Some v => String.eqb v "" || String.eqb (trim v) ""
  end.

Definition validateSpotifyCredentialFormat (id secret refresh : string) :
    option ConfigurationError :=
  if negb (isAlnum32 id) then
    Some {| cmessage := "Invalid SPOTIFY_CLIENT_ID format";
            details :=
              FormatDetails
                "Spotify Client ID should be a 32-character alphanumeric string"
                (showZ (Z.of_nat (length16 id)) +:+ " characters")
                None
                "Check your Spotify app dashboard for the correct Client ID" |}
  else if negb (isAlnum32 secret) then
    Some {| cmessage := "Invalid SPOTIFY_CLIENT_SECRET format";
            details :=
              FormatDetails
                "Spotify Client Secret should be a 32-character alphanumeric string"
                (showZ (Z.of_nat (length16 secret)) +:+ " characters")
                None
                "Check your Spotify app dashboard for the correct Client Secret" |}
  else if (length16 refresh <? 100)%nat then
    Some {| cmessage := "Invalid SPOTIFY_REFRESH_TOKEN format";
            details :=
              FormatDetails
                "Spotify Refresh Token appears to be too short"
                (showZ (Z.of_nat (length16 refresh)) +:+ " characters")
                (Some "At least 100 characters")
                "Re-run the authentication process: npm run spotify-auth" |}
  else None.

(** [validateSpotifyEnvironment()], reading [process.env] as [env]. *)
Definition validateSpotifyEnvironment (env : gmap string string) : checked Env :=
  let missing := filter (λ v, isMissing env (key v) = true) required in
  match missing with
  | _ :: _ =>
      Invalid {| cmessage := "Missing required environment variables";
                 details := MissingDetails missing |}
  | [] =>
      let id := default "" (env !! "SPOTIFY_CLIENT_ID") in
      let secret := default "" (env !! "SPOTIFY_CLIENT_SECRET") in
      let refresh := default "" (env !! "SPOTIFY_REFRESH_TOKEN") in
      match validateSpotifyCredentialFormat id secret refresh with
      | Some e => Invalid e
      | None =>
          Valid {| SPOTIFY_CLIENT_ID := Some id;
                   SPOTIFY_CLIENT_SECRET := Some secret;
                   SPOTIFY_REFRESH_TOKEN := Some refresh |}
      end
  end.

(** The result object of [validateEnvironment]; [performValidation] spreads
    it into the object it caches and attaches to the request. *)
Record Results : Type := {
  spotify : Env;
  warnings : list string;
  optional : list (string * string);
}.

Definition optionalVars : list (string * string) :=
  [("NODE_ENV", "development"); ("VERCEL_ENV", "development");
   ("API_CACHE_DURATION", "60")].

(** [!!process.env[key]] *)
Definition isGiven (env : gmap string string) (k : string) : bool :=
  match env !! k with
  | Some v => negb (String.eqb v "")
  | None => false
  end.

(** [validateEnvironment()]; the only errors [validateSpotifyEnvironment]
    throws are [ConfigurationError]s, which pass through its [catch]. *)
Definition validateEnvironment (env : gmap string string) : checked Results :=
  match validateSpotifyEnvironment env with
  | Invalid e => Invalid e
  | Valid validated =>
      Valid
        {| spotify := validated;
           warnings :=
             (λ '(k, dflt),
                "Optional variable " +:+ k +:+ " not set. Using default: " +:+ dflt)
             <$> filter (λ '(k, _), isGiven env k = false) optionalVars;
           optional :=
             (λ '(k, dflt),
                (k, if isGiven env k then default "" (env !! k) else dflt))
             <$> optionalVars |}
  end.

(** The two module-level variables of the middleware. *)
Record Cache : Type := {
  validatedEnv : option Results;
  validationError : option ConfigurationError;
}.

Definition emptyCache : Cache :=
  {| validatedEnv := None; validationError := None |}.

(** [performValidation()]: what it returns ([None] is [null]) and the two
    variables after the call. *)
Definition performValidation (env : gmap string string) (c : Cache) :
    option Results * Cache :=
  match validatedEnv c, validationError c with
  | None, None =>
      match validateEnvironment env with
      | Valid results =>
          (Some results,
           {| validatedEnv := Some results;
              validationError := validationError c |})
      | Invalid e =>
          (None,
           {| validatedEnv := validatedEnv c; validationError := Some e |})
      end
  | _, _ => (validatedEnv c, c)
  end.

Definition variableJson (v : Required) : value :=
  VObj [("key", VStr (key v)); ("description", VStr (description v));
        ("example", VStr (example v)); ("instructions", VStr (instructions v))].

(** [validationError.details?.missing] *)
Definition missingJson (e : ConfigurationError) : value :=
  match details e with
  | MissingDetails missing => VArr (variableJson <$> missing)
  | FormatDetails _ _ _ _ => VUndef
  end.

Definition isProduction (env : gmap string string) (k : string) : bool :=
  match env !! k with Some v => String.eqb v "production" | None => false end.

(** [withEnvValidation(handler)] applied to a request; [handler] is given
    the object attached as [req.validatedEnv], [timestamp] is
    [new Date().toISOString()]. *)
Definition withEnvValidation (handler : Results → Reply)
    (env : gmap string string) (timestamp : string) (c : Cache) :
    Reply * Cache :=
  let '(validated, c') := performValidation env c in
  match validated with
  | Some v => (handler v, c')
  | None =>
      let isDevelopment :=
        negb (isProduction env "NODE_ENV")
        && negb (isProduction env "VERCEL_ENV") in
      match validationError c' with
      | Some e =>
          if isDevelopment then
            (sendJson 500 []
               (VObj [("error", VStr "Configuration Error");
                      ("message", VStr (cmessage e));
                      ("details",
                       VObj [("missing", missingJson e);
                             ("hint",
                              VStr "Check the console for detailed setup instructions")]);
                      ("timestamp", VStr timestamp)]),
             c')
          else
            (sendJson 500 []
               (VObj [("error", VStr "Server configuration error");
                      ("message",
                       VStr "The server is not properly configured.");
                      ("timestamp", VStr timestamp)]),
             c')
      | None =>
          (sendJson 500 []
             (VObj [("error", VStr "Server configuration error");
                    ("message", VStr "The server is not properly configured.");
                    ("timestamp", VStr timestamp)]),
           c')
      end
  end.

(** The export of src/api/spotify/now-playing-validated.js:
    [withEnvValidation(nowPlayingHandler)]. *)
Definition validatedHandler (env : gmap string string) (timestamp : string)
    (method : string) (tokenFetch apiFetch : FetchOutcome) (c : Cache) :
    Reply * Cache :=
  withEnvValidation
    (λ v, nowPlayingHandler (isProduction env "NODE_ENV") method (spotify v)
            tokenFetch apiFetch)
    env timestamp c.

End EnvValidation.

(** ** The widget's retry timer and the runs of the event loop *)

Module Timers.

Import Widget.

(** The callback of the retry timer armed in the [catch] block of
    [fetchData]: it counts the retry and runs [fetchData(true)]. *)
Definition retryFire (apiUrl : string) (now1 : Z) (net : FetchOutcome)
    (now2 : Z) (rnd : Q) (st : State) : State :=
  fetchData apiUrl true now1 net now2 rnd
    {| track := track st; loading := loading st; error := error st;
       retryCountRef := retryCountRef st + 1;
       isPlayingRef := isPlayingRef st;
       globalCache := globalCache st;
       retryTimer := retryTimer st |}.

(** What one run is supplied with by its environment. *)
Record Run : Type := {
  now1 : Z;
  net : FetchOutcome;
  now2 : Z;
  rnd : Q;
}.

(** The retries that follow one another: as long as the last run armed the
    retry timer, the timer fires after its delay and the next run of [runs]
    takes place. The result is the state at the end and the delays waited. *)
Fixpoint chain (apiUrl : string) (runs : list Run) (st : State) :
    State * list Q :=
  match runs with
  | [] => (st, [])
  | r :: rest =>
      match retryTimer st with
      | None => (st, [])
      | Some delay =>
          let '(st', delays) :=
            chain apiUrl rest
              (retryFire apiUrl (now1 r) (net r) (now2 r) (rnd r) st) in
          (st', delay :: delays)
      end
  end.

(** The values [Math.random()] can return. *)
Definition in_unit (r : Q) : Prop := (0 <= r)%Q ∧ (r < 1)%Q.

(** The time waited over a sequence of delays. *)
Definition total (delays : list Q) : Q := foldr Qplus 0%Q delays.

End Timers.

(** ** Interleavings of calls and settlements *)

Module Interleaving.

Import Coalescer.

Inductive Op : Type :=
| Call (cacheKey : string)
| Settle (r : nat) (o : FetchOutcome).

Definition apply (op : Op) (rt : Runtime) : Runtime :=
  match op with
  | Call cacheKey => snd (deduplicatedFetch cacheKey rt)
  | Settle r o => settle r o rt
  end.

(** The operations of [ops] in order, from [rt]. *)
Definition run (ops : list Op) (rt : Runtime) : Runtime :=
  foldl (λ rt op, apply op rt) rt ops.

(** Request [r] was made for [k] and has not settled. *)
Definition pending (r : nat) (k : string) (rt : Runtime) : Prop :=
  requests rt !! r = Some {| key := k; outcome := None |}.

(** What every interleaving keeps: the registered keys name exactly the
    pending requests, and a caller holds the outcome of the request it
    awaits. *)
Definition invariant (rt : Runtime) : Prop :=
  wf rt ∧
  (∀ r k, pending r k rt → pendingRequests rt !! k = Some r) ∧
  (∀ c cl, callers rt !! c = Some cl →
           ∃ req, requests rt !! awaits cl = Some req ∧
                  resolved cl = outcome req).

End Interleaving.

(** * Properties *)

Import Widget.

(** ** The state cache *)

Section Cache.

Context (url : string) (d : value) (written : Z)
        (cache : gmap string CacheEntry).

Lemma getCachedData_written (isPlaying : value) (now : Z) :
  getCachedData url isPlaying now (setCachedData url isPlaying d written cache) =
  let c := setCachedData url isPlaying d written cache in
  if now - written >?
     (if truthy isPlaying then CACHE_TTL_PLAYING else CACHE_TTL_PAUSED)
  then (VNull, delete (cacheKey url isPlaying) c)
  else (d, c).
Proof.
  unfold getCachedData, setCachedData.
  rewrite lookup_insert_eq. reflexivity.
Qed.

(** C2, as amended: an entry written with isPlaying=true is returned,
    unchanged and with the cache untouched, while now - writeTimestamp is at
    most 5000 ms, and is a miss ([null]) that deletes the entry once
    now - writeTimestamp exceeds 5000 ms; the same for isPlaying=false at
    60000 ms. *)
Theorem getCachedData_ttl (now : Z) :
  let playing := setCachedData url (VBool true) d written cache in
  let paused := setCachedData url (VBool false) d written cache in
  (now - written <= 5000 →
   getCachedData url (VBool true) now playing = (d, playing)) ∧
  (now - written > 5000 →
   getCachedData url (VBool true) now playing =
   (VNull, delete (cacheKey url (VBool true)) playing)) ∧
  (now - written <= 60000 →
   getCachedData url (VBool false) now paused = (d, paused)) ∧
  (now - written > 60000 →
   getCachedData url (VBool false) now paused =
   (VNull, delete (cacheKey url (VBool false)) paused)).
Proof.
  intros playing paused. subst playing paused.
  rewrite !getCachedData_written. cbn [truthy].
  unfold CACHE_TTL_PLAYING, CACHE_TTL_PAUSED.
  repeat split; intros Hage.
  - destruct (Z.gtb_spec (now - written) (5 * 1000)); [lia | reflexivity].
  - destruct (Z.gtb_spec (now - written) (5 * 1000)); [reflexivity | lia].
  - destruct (Z.gtb_spec (now - written) (60 * 1000)); [lia | reflexivity].
  - destruct (Z.gtb_spec (now - written) (60 * 1000)); [reflexivity | lia].
Qed.

End Cache.

(** The entry deleted on expiry is gone for the next reader. *)
Lemma getCachedData_evicts (url : string) (d : value) (written now : Z)
    (cache : gmap string CacheEntry) :
  now - written > 5000 →
  snd (getCachedData url (VBool true) now
         (setCachedData url (VBool true) d written cache))
    !! cacheKey url (VBool true) = None.
Proof.
  intros Hage. rewrite getCachedData_written. cbn [truthy].
  unfold CACHE_TTL_PLAYING.
  destruct (Z.gtb_spec (now - written) (5 * 1000)); [| lia].
  cbn [snd]. apply lookup_delete_eq.
Qed.

Lemma getCachedData_ttl_witness :
  let d := VObj [("is_playing", VBool true)] in
  let playing := setCachedData "u" (VBool true) d 100 ∅ in
  getCachedData "u" (VBool true) 5100 playing = (d, playing) ∧
  getCachedData "u" (VBool true) 5101 playing =
  (VNull, delete (cacheKey "u" (VBool true)) playing).
Proof.
  split.
  - apply (getCachedData_ttl "u" _ 100 ∅ 5100). lia.
  - apply (getCachedData_ttl "u" _ 100 ∅ 5101). lia.
Defined.

(** C2, as stated, at its boundary: exactly 5000 ms after the write the
    entry is still returned, not evicted. *)
Lemma getCachedData_fresh_at_ttl :
  let d := VObj [("is_playing", VBool true)] in
  ¬ (5000 - 0 >= 5000 →
     fst (getCachedData "u" (VBool true) 5000
            (setCachedData "u" (VBool true) d 0 ∅)) = VNull).
Proof.
  intros d Hclaim. specialize (Hclaim ltac:(lia)).
  rewrite getCachedData_written in Hclaim. discriminate Hclaim.
Qed.

(** ** Backoff *)

Lemma backoff_eq (attempt : Z) :
  backoff attempt = Z.min (1000 * 2 ^ attempt) 30000.
Proof. reflexivity. Qed.


Lemma backoff_bounds (attempt : Z) : 0 <= attempt → 1000 <= backoff attempt <= 30000.
Proof.
  intros Hn. rewrite backoff_eq.
  assert (1 <= 2 ^ attempt) by (apply (Z.pow_le_mono_r 2 0 attempt); lia).
  lia.
Qed.

(** A run of [fetchData] that gets no answer from the cache and whose
    response is refused ends in the [catch] block. *)
Lemma fetchData_failed (apiUrl : string) (isRetry : bool) (now1 now2 : Z)
    (net : FetchOutcome) (rnd : Q) (st : State) (err : Js.error) :
  truthy (fst (getCachedData apiUrl (isPlayingRef st) now1 (globalCache st)))
    && negb isRetry = false →
  readResponse net = Throw err →
  let st' := fetchData apiUrl isRetry now1 net now2 rnd st in
  error st' = VStr (message err) ∧
  isPlayingRef st' = isPlayingRef st ∧
  loading st' = false ∧
  retryTimer st' =
    if retryCountRef st <? 3 then Some (getRetryDelay (retryCountRef st) rnd)
    else None.
Proof.
  intros Hmiss Hthrow. unfold fetchData.
  destruct (getCachedData _ _ _ _) as [cachedData cache1].
  cbn [fst] in Hmiss. rewrite Hmiss, Hthrow. cbn. auto.
Qed.

(** ** Polling cadence *)

Lemma getPollingInterval_range (isPlaying : value) (hasError : bool) :
  getPollingInterval isPlaying hasError ∈ [5000; 60000; 30000].
Proof.
  unfold getPollingInterval.
  destruct hasError, (truthy isPlaying); set_solver.
Qed.

(** A run of [fetchData] that gets no answer from the cache and whose
    response is accepted records the flag of the body and clears the error. *)
Lemma fetchData_succeeded (apiUrl : string) (isRetry : bool) (now1 now2 : Z)
    (net : FetchOutcome) (rnd : Q) (st : State) (jsonData flag : value) :
  truthy (fst (getCachedData apiUrl (isPlayingRef st) now1 (globalCache st)))
    && negb isRetry = false →
  readResponse net = Ok jsonData →
  prop jsonData "is_playing" = Ok flag →
  let st' := fetchData apiUrl isRetry now1 net now2 rnd st in
  track st' = jsonData ∧
  error st' = VNull ∧
  isPlayingRef st' = Js.or flag (VBool false) ∧
  loading st' = false ∧
  retryCountRef st' = 0.
Proof.
  intros Hmiss Hok Hflag. unfold fetchData.
  destruct (getCachedData _ _ _ _) as [cachedData cache1].
  cbn [fst] in Hmiss. rewrite Hmiss, Hok. cbn. rewrite Hflag. cbn. auto.
Qed.

Lemma truthy_or_false (flag : value) :
  truthy (Js.or flag (VBool false)) = truthy flag.
Proof. unfold Js.or. destruct (truthy flag) eqn:E; [exact E | reflexivity]. Qed.

(** C7: the interval is 5000 ms for a result that is playing and has no
    error, 60000 ms for one that is not playing and has no error, 30000 ms
    after a failure, and nothing else; [scheduleNextPoll] passes the flag of
    the last accepted body and whether an error message is recorded. *)
Theorem getPollingInterval_exact (isPlaying : value) (hasError : bool) :
  (truthy isPlaying = true → getPollingInterval isPlaying false = 5000) ∧
  (truthy isPlaying = false → getPollingInterval isPlaying false = 60000) ∧
  getPollingInterval isPlaying true = 30000 ∧
  getPollingInterval isPlaying hasError ∈ [5000; 60000; 30000] ∧
  (∀ apiUrl isRetry now1 now2 net rnd st,
     truthy (fst (getCachedData apiUrl (isPlayingRef st) now1 (globalCache st)))
       && negb isRetry = false →
     let st' := fetchData apiUrl isRetry now1 net now2 rnd st in
     (∀ jsonData,
        readResponse net = Ok jsonData →
        prop jsonData "is_playing" = Ok isPlaying →
        scheduleNextPoll st' = if truthy isPlaying then 5000 else 60000) ∧
     (∀ err,
        readResponse net = Throw err → message err ≠ "" →
        scheduleNextPoll st' = 30000) ∧
     scheduleNextPoll st' ∈ [5000; 60000; 30000]).
Proof.
  split; [| split; [| split; [| split]]].
  - intros Hp. unfold getPollingInterval. rewrite Hp. reflexivity.
  - intros Hp. unfold getPollingInterval. rewrite Hp. reflexivity.
  - reflexivity.
  - apply getPollingInterval_range.
  - intros apiUrl isRetry now1 now2 net rnd st Hmiss st'. subst st'.
    split; [| split].
    + intros jsonData Hok Hflag.
      destruct (fetchData_succeeded apiUrl isRetry now1 now2 net rnd st
                  jsonData isPlaying Hmiss Hok Hflag)
        as (_ & Herr & Hplaying & _).
      cbv zeta in Herr, Hplaying.
      unfold scheduleNextPoll. rewrite Herr, Hplaying.
      cbn [truthy]. unfold getPollingInterval.
      rewrite truthy_or_false. reflexivity.
    + intros err Hthrow Hmsg.
      destruct (fetchData_failed apiUrl isRetry now1 now2 net rnd st err
                  Hmiss Hthrow) as (Herr & _).
      cbv zeta in Herr.
      unfold scheduleNextPoll. rewrite Herr.
      cbn [truthy].
      destruct (String.eqb_spec (message err) ""); [contradiction |].
      reflexivity.
    + apply getPollingInterval_range.
Qed.

Lemma getPollingInterval_exact_witness :
  getPollingInterval (VBool true) false = 5000 ∧
  getPollingInterval (VBool false) false = 60000 ∧
  getPollingInterval (VBool false) true = 30000.
Proof.
  split; [| split].
  - apply (getPollingInterval_exact (VBool true) false). reflexivity.
  - apply (getPollingInterval_exact (VBool false) false). reflexivity.
  - apply (getPollingInterval_exact (VBool false) false).
Defined.

(** ** Request deduplication *)

Section Coalescing.

Import Coalescer.
Local Open Scope nat_scope.

Lemma wf_emptyRuntime : wf emptyRuntime.
Proof. intros k r Hk. cbn in Hk. rewrite lookup_empty in Hk. discriminate. Qed.

Lemma deduplicatedFetch_wf (k : string) (rt : Runtime) :
  wf rt → wf (snd (deduplicatedFetch k rt)).
Proof.
  intros Hwf k' r'. unfold deduplicatedFetch.
  destruct (pendingRequests rt !! k) as [r |] eqn:Hk; cbn.
  - apply Hwf.
  - intros Hk'. destruct (decide (k = k')) as [<- | Hne].
    + rewrite lookup_insert_eq in Hk'. injection Hk' as <-.
      apply list_lookup_middle. reflexivity.
    + rewrite lookup_insert_ne in Hk' by exact Hne.
      rewrite lookup_app_l; [apply Hwf; exact Hk' |].
      apply lookup_lt_is_Some. rewrite (Hwf _ _ Hk'). eauto.
Qed.

Lemma settle_wf (r : nat) (o : FetchOutcome) (rt : Runtime) :
  wf rt → wf (settle r o rt).
Proof.
  intros Hwf. unfold settle.
  destruct (requests rt !! r) as [[k [o' |]] |] eqn:Hr; try exact Hwf.
  intros k' r' Hk'. cbn in *.
  destruct (decide (k = k')) as [<- | Hne].
  - rewrite lookup_delete_eq in Hk'. discriminate.
  - rewrite lookup_delete_ne in Hk' by exact Hne.
    pose proof (Hwf _ _ Hk') as Hr'.
    rewrite list_lookup_insert_ne; [exact Hr' |].
    intros ->. rewrite Hr in Hr'. congruence.
Qed.

(** Calls that find the key registered start no fetch: each only adds a
    caller waiting on the registered request. *)
Lemma calls_registered (k : string) (r n : nat) (rt : Runtime) :
  pendingRequests rt !! k = Some r →
  requests rt !! r = Some {| key := k; outcome := None |} →
  calls k n rt =
  (seq (length (callers rt)) n,
   {| pendingRequests := pendingRequests rt;
      requests := requests rt;
      callers := callers rt ++ replicate n {| awaits := r; resolved := None |};
      events := events rt |}).
Proof.
  revert rt. induction n as [| n IH]; intros rt Hk Hr.
  - cbn. rewrite app_nil_r. destruct rt; reflexivity.
  - cbn [calls]. unfold deduplicatedFetch. rewrite Hk, Hr. cbn [mbind option_bind outcome].
    rewrite IH by assumption. cbn [pendingRequests requests callers events].
    rewrite length_app, Nat.add_1_r, <- app_assoc. reflexivity.
Qed.

Lemma calls_spec (k : string) (n : nat) (rt : Runtime) :
  wf rt → 1 ≤ n →
  let r := inflight k rt in
  let fresh :=
    match pendingRequests rt !! k with Some _ => [] | None => [r] end in
  calls k n rt =
  (seq (length (callers rt)) n,
   {| pendingRequests := <[k := r]> (pendingRequests rt);
      requests :=
        requests rt ++ ((λ _, {| key := k; outcome := None |}) <$> fresh);
      callers := callers rt ++ replicate n {| awaits := r; resolved := None |};
      events := events rt ++ (EvFetch k <$> fresh) |}).
Proof.
  intros Hwf Hn. unfold inflight.
  destruct (pendingRequests rt !! k) as [r |] eqn:Hk; cbn [default].
  - rewrite (calls_registered k r) by auto.
    cbn. rewrite !app_nil_r, insert_id by exact Hk. reflexivity.
  - destruct n as [| n]; [lia |].
    cbn [calls]. unfold deduplicatedFetch. rewrite Hk.
    rewrite (calls_registered k (length (requests rt))); cbn.
    + rewrite length_app, Nat.add_1_r, <- app_assoc. reflexivity.
    + apply lookup_insert_eq.
    + apply list_lookup_middle. reflexivity.
Qed.

Lemma settle_pending (k : string) (r : nat) (o : FetchOutcome) (rt : Runtime) :
  requests rt !! r = Some {| key := k; outcome := None |} →
  settle r o rt =
  {| pendingRequests := delete k (pendingRequests rt);
     requests := <[r := {| key := k; outcome := Some o |}]> (requests rt);
     callers :=
       (λ c, if awaits c =? r
             then {| awaits := r; resolved := Some o |} else c)
       <$> callers rt;
     events :=
       events rt ++
       EvDelete k :: EvSettle r o :: ((λ c, EvResolve c o) <$> waiters r rt) |}.
Proof. intros Hr. unfold settle. rewrite Hr. reflexivity. Qed.

Lemma waiters_elem (r c : nat) (rt : Runtime) (res : option FetchOutcome) :
  callers rt !! c = Some {| awaits := r; resolved := res |} → c ∈ waiters r rt.
Proof.
  intros Hc. unfold waiters. apply list_elem_of_filter. split.
  - rewrite Hc. cbn. rewrite Nat.eqb_refl. reflexivity.
  - apply elem_of_seq. split; [lia |].
    cbn. apply lookup_lt_is_Some. eauto.
Qed.

(** C1: n >= 1 calls of [deduplicatedFetch] with one key, made while a
    registration for the key exists or is created by the first of them,
    call [fetch] exactly once in all (not at all when the registration was
    there, once when the first call creates it); every caller waits on that
    one request and is resolved with its outcome, fulfilled or rejected;
    the settlement first deletes the registration, then settles the request,
    then resolves the callers, so the next call with the key starts a fresh
    fetch. *)
Theorem deduplicatedFetch_coalesces (k : string) (n : nat) (rt : Runtime) :
  wf rt → 1 ≤ n →
  let cs := fst (calls k n rt) in
  let rt' := snd (calls k n rt) in
  let r := inflight k rt in
  length cs = n ∧
  fetchCount rt' =
    fetchCount rt +
    match pendingRequests rt !! k with Some _ => 0 | None => 1 end ∧
  pendingRequests rt' !! k = Some r ∧
  requests rt' !! r = Some {| key := k; outcome := None |} ∧
  (∀ c, c ∈ cs →
        callers rt' !! c = Some {| awaits := r; resolved := None |}) ∧
  ∀ o : FetchOutcome,
    let rt'' := settle r o rt' in
    (∀ c, c ∈ cs →
          callers rt'' !! c = Some {| awaits := r; resolved := Some o |}) ∧
    pendingRequests rt'' !! k = None ∧
    (∃ resolutions,
       events rt'' =
         (events rt' ++ EvDelete k :: EvSettle r o :: resolutions)%list ∧
       ∀ c, c ∈ cs → EvResolve c o ∈ resolutions) ∧
    fetchCount (snd (deduplicatedFetch k rt'')) = S (fetchCount rt'').
Proof.
  intros Hwf Hn cs rt' r.
  pose proof (calls_spec k n rt Hwf Hn) as Hcalls. cbv zeta in Hcalls.
  fold r in Hcalls.
  assert (requests rt' !! r = Some {| key := k; outcome := None |}) as Hr.
  { subst rt'. rewrite Hcalls. cbn. subst r. unfold inflight.
    destruct (pendingRequests rt !! k) as [r0 |] eqn:Hk; cbn.
    - rewrite app_nil_r. apply Hwf. exact Hk.
    - apply list_lookup_middle. reflexivity. }
  assert (∀ c, c ∈ cs →
               callers rt' !! c = Some {| awaits := r; resolved := None |})
    as Hcs.
  { intros c Hc. subst cs rt'. rewrite Hcalls in Hc |- *. cbn in Hc |- *.
    apply elem_of_seq in Hc.
    rewrite lookup_app_r by lia.
    apply lookup_replicate_2. lia. }
  split; [| split; [| split; [| split; [| split]]]].
  - subst cs. rewrite Hcalls. cbn. apply length_seq.
  - subst rt'. rewrite Hcalls. unfold fetchCount. cbn.
    rewrite length_app, length_fmap.
    destruct (pendingRequests rt !! k); reflexivity.
  - subst rt'. rewrite Hcalls. cbn. apply lookup_insert_eq.
  - exact Hr.
  - exact Hcs.
  - intros o rt''. subst rt''. rewrite (settle_pending k r o rt' Hr).
    cbn [callers pendingRequests events requests].
    split; [| split; [| split]].
    + intros c Hc. rewrite list_lookup_fmap, (Hcs c Hc). cbn.
      rewrite Nat.eqb_refl. reflexivity.
    + apply lookup_delete_eq.
    + eexists. split; [reflexivity |].
      intros c Hc. apply (list_elem_of_fmap_2 (λ c, EvResolve c o)).
      apply (waiters_elem r c rt' None). apply Hcs. exact Hc.
    + unfold deduplicatedFetch.
      cbn [pendingRequests]. rewrite lookup_delete_eq.
      unfold fetchCount. cbn. rewrite length_app. cbn. lia.
Qed.

Lemma deduplicatedFetch_coalesces_witness :
  wf emptyRuntime ∧ 1 ≤ 3 ∧
  let rt' := snd (calls "url-{}" 3 emptyRuntime) in
  fst (calls "url-{}" 3 emptyRuntime) = [0; 1; 2] ∧
  fetchCount rt' = 1 ∧
  ∀ o, pendingRequests (settle 0 o rt') !! "url-{}" = None.
Proof.
  split; [exact wf_emptyRuntime |]. split; [lia |].
  pose proof (deduplicatedFetch_coalesces "url-{}" 3 emptyRuntime
                wf_emptyRuntime ltac:(lia)) as H.
  cbv zeta in H. destruct H as (_ & Hcount & _ & _ & _ & Hsettle).
  split; [reflexivity |]. split; [exact Hcount |].
  intros o. apply (Hsettle o).
Defined.

End Coalescing.

(** ** Bounded retry in the retrying handler *)

Section Retry.

Import Server Server.Retrying Spec.

Context (up : Upstream).

(** Unfold one call and split on what the endpoint answered and on the tests
    the code makes on it. *)
Ltac token_attempt retryCount t :=
  rewrite (getAccessToken_equation_1 up retryCount t); cbv zeta;
  destruct (tokenEndpoint up (tokenCalls t)) as [? | response]; cbn;
  [| destruct (ok response) eqn:?; cbn;
     [| destruct (status response =? 400) eqn:?;
        [| destruct (status response =? 401) eqn:?;
           [| destruct (500 <=? status response) eqn:?;
              [destruct (Z_lt_dec retryCount maxRetries) |]]]]].

Lemma getAccessToken_calls (retryCount : Z) (t : Trace) :
  let t' := snd (getAccessToken up retryCount t) in
  playbackCalls t' = playbackCalls t ∧
  (tokenCalls t < tokenCalls t')%nat ∧
  (tokenCalls t' ≤ tokenCalls t + S (Z.to_nat (maxRetries - retryCount)))%nat.
Proof.
  remember (Z.to_nat (maxRetries - retryCount)) as m eqn:Hm.
  revert retryCount t Hm.
  induction m as [m IH] using lt_wf_ind. intros retryCount t Hm.
  token_attempt retryCount t; try (cbn; repeat split; lia).
  specialize (IH (Z.to_nat (maxRetries - (retryCount + 1))) ltac:(lia)
                 (retryCount + 1)
                 (slept (1000 * 2 ^ retryCount) (tokenCalled t)) eq_refl).
  cbn in IH. destruct IH as (Hp & Hlo & Hhi).
  repeat split; lia.
Qed.

Lemma getAccessToken_retried (retryCount : Z) (t : Trace) :
  tokenCalls (snd (getAccessToken up retryCount t)) ≠ S (tokenCalls t) →
  ∃ response,
    tokenEndpoint up (tokenCalls t) = Resolves response ∧
    ok response = false ∧ 500 <= status response ∧ retryCount < maxRetries.
Proof.
  rewrite (getAccessToken_equation_1 up retryCount t). cbv zeta.
  destruct (tokenEndpoint up (tokenCalls t)) as [? | response]; cbn;
    [congruence |].
  destruct (ok response) eqn:Hok; cbn; [congruence |].
  destruct (status response =? 400); [cbn; congruence |].
  destruct (status response =? 401); [cbn; congruence |].
  destruct (500 <=? status response) eqn:Hs; [| cbn; congruence].
  destruct (Z_lt_dec retryCount maxRetries); [| cbn; congruence].
  intros _. exists response. repeat split; first [lia | assumption].
Qed.

Lemma getAccessToken_terminal (retryCount : Z) (t : Trace) (c : Classification) :
  classify CredentialRefresh (tokenEndpoint up (tokenCalls t)) = Some c →
  retryable c = false →
  snd (getAccessToken up retryCount t) = tokenCalled t ∧
  ∃ e, fst (getAccessToken up retryCount t) = Throw e.
Proof.
  rewrite (getAccessToken_equation_1 up retryCount t). cbv zeta.
  unfold classify.
  destruct (tokenEndpoint up (tokenCalls t)) as [? | response]; cbn.
  { intros [= <-]. discriminate. }
  destruct (ok response) eqn:Hok; cbn; [discriminate |].
  destruct (status response =? 429) eqn:H429; [intros [= <-]; discriminate |].
  destruct (500 <=? status response) eqn:H500; [intros [= <-]; discriminate |].
  intros _ _.
  destruct (status response =? 400); [cbn; eauto |].
  destruct (status response =? 401); cbn; eauto.
Qed.

Lemma getNowPlaying_calls (retryCount : Z) (t : Trace) :
  let t' := snd (getNowPlaying up retryCount t) in
  (playbackCalls t ≤ playbackCalls t')%nat ∧
  (playbackCalls t' ≤ playbackCalls t + S (Z.to_nat (maxRetries - retryCount)))%nat.
Proof.
  remember (Z.to_nat (maxRetries - retryCount)) as m eqn:Hm.
  revert retryCount t Hm.
  induction m as [m IH] using lt_wf_ind. intros retryCount t Hm.
  rewrite (getNowPlaying_equation_1 up retryCount t). cbv zeta.
  pose proof (getAccessToken_calls 0 t) as (Hp & _). cbv zeta in Hp.
  destruct (getAccessToken up 0 t) as [token t1]. cbn [snd] in Hp.
  destruct (token ≫= _) as [access_token | e]; [| cbn; lia].
  destruct (playbackEndpoint up (playbackCalls t1)) as [? | response];
    [cbn; lia |].
  destruct (status response =? 204); [cbn; lia |].
  destruct ((400 <=? status response) && (status response <? 500)).
  { destruct (status response =? 401); [cbn; lia |].
    destruct (status response =? 403); [cbn; lia |].
    destruct (status response =? 429); cbn; lia. }
  destruct (500 <=? status response).
  2: { destruct (negb (ok response)); cbn; lia. }
  destruct (Z_lt_dec retryCount maxRetries); [| cbn; lia].
  specialize (IH (Z.to_nat (maxRetries - (retryCount + 1))) ltac:(lia)
                 (retryCount + 1)
                 (slept (1000 * 2 ^ retryCount) (playbackCalled t1)) eq_refl).
  cbn in IH. lia.
Qed.

Lemma getNowPlaying_retried (retryCount : Z) (t : Trace) :
  (S (playbackCalls t) < playbackCalls (snd (getNowPlaying up retryCount t)))%nat →
  ∃ response,
    playbackEndpoint up (playbackCalls t) = Resolves response ∧
    ok response = false ∧ 500 <= status response ∧ retryCount < maxRetries.
Proof.
  rewrite (getNowPlaying_equation_1 up retryCount t). cbv zeta.
  pose proof (getAccessToken_calls 0 t) as (Hp & _). cbv zeta in Hp.
  destruct (getAccessToken up 0 t) as [token t1]. cbn [snd] in Hp.
  rewrite <- Hp.
  destruct (token ≫= _) as [access_token | e]; [| cbn; lia].
  destruct (playbackEndpoint up (playbackCalls t1)) as [? | response];
    [cbn; lia |].
  destruct (status response =? 204); [cbn; lia |].
  destruct ((400 <=? status response) && (status response <? 500)).
  { destruct (status response =? 401); [cbn; lia |].
    destruct (status response =? 403); [cbn; lia |].
    destruct (status response =? 429); cbn; lia. }
  destruct (500 <=? status response) eqn:Hs.
  2: { destruct (negb (ok response)); cbn; lia. }
  destruct (Z_lt_dec retryCount maxRetries); [| cbn; lia].
  intros _. exists response. unfold ok. repeat split; first [lia | assumption].
Qed.

Lemma getNowPlaying_terminal (retryCount : Z) (t : Trace)
    (access_token : value) (c : Classification) :
  (tokenData ← fst (getAccessToken up 0 t); prop tokenData "access_token")
    = Ok access_token →
  classify PlaybackFetch (playbackEndpoint up (playbackCalls t)) = Some c →
  retryable c = false →
  snd (getNowPlaying up retryCount t)
    = playbackCalled (snd (getAccessToken up 0 t)) ∧
  ∃ e, fst (getNowPlaying up retryCount t) = Throw e.
Proof.
  rewrite (getNowPlaying_equation_1 up retryCount t). cbv zeta.
  pose proof (getAccessToken_calls 0 t) as (Hp & _). cbv zeta in Hp.
  destruct (getAccessToken up 0 t) as [token t1]. cbn [fst snd] in *.
  rewrite <- Hp. intros ->. unfold classify.
  destruct (playbackEndpoint up (playbackCalls t1)) as [? | response].
  { intros [= <-]. discriminate. }
  unfold ok.
  destruct (status response =? 204) eqn:H204.
  { replace ((200 <=? status response) && (status response <=? 299))
      with true by lia. discriminate. }
  destruct ((200 <=? status response) && (status response <=? 299)) eqn:Hok;
    [discriminate |].
  destruct (status response =? 429) eqn:H429; [intros [= <-]; discriminate |].
  destruct (500 <=? status response) eqn:H500; [intros [= <-]; discriminate |].
  intros _ _.
  destruct ((400 <=? status response) && (status response <? 500)).
  { destruct (status response =? 401); [cbn; eauto |].
    destruct (status response =? 403); cbn; eauto. }
  cbn. eauto.
Qed.

Lemma getNowPlaying_token_failed (retryCount : Z) (t : Trace) (e : Js.error) :
  fst (getAccessToken up 0 t) = Throw e →
  getNowPlaying up retryCount t =
  (Throw (rethrow e), snd (getAccessToken up 0 t)).
Proof.
  rewrite (getNowPlaying_equation_1 up retryCount t). cbv zeta.
  destruct (getAccessToken up 0 t) as [token t1]. cbn [fst snd].
  intros ->. reflexivity.
Qed.



(** C3: in [getAccessToken] and in [getNowPlaying] a failed upstream call is
    followed by another try only when its classification is retryable
    (RateLimited, UpstreamUnavailable or NetworkError) and fewer than 2
    retries were made, so each makes at most 3 tries; a failure classified
    AuthError, PermissionError or Unexpected ends the call at once with a
    thrown error, after that one try and with no delay; and the two counts are
    separate: every playback try runs its own credential refresh from count
    0, whose failure ends the playback call whatever its retry count. *)
Theorem retry_only_transient (retryCount : Z) (t : Trace) :
  let refreshed := getAccessToken up retryCount t in
  let played := getNowPlaying up retryCount t in
  (tokenCalls (snd refreshed) ≠ S (tokenCalls t) →
   ∃ c, classify CredentialRefresh (tokenEndpoint up (tokenCalls t)) = Some c ∧
        retryable c = true ∧ retryCount < 2) ∧
  (∀ c, classify CredentialRefresh (tokenEndpoint up (tokenCalls t)) = Some c →
        c ∈ [AuthError; PermissionError; Unexpected] →
        snd refreshed = tokenCalled t ∧ ∃ e, fst refreshed = Throw e) ∧
  (0 <= retryCount → (tokenCalls (snd refreshed) ≤ tokenCalls t + 3)%nat) ∧
  ((S (playbackCalls t) < playbackCalls (snd played))%nat →
   ∃ c, classify PlaybackFetch (playbackEndpoint up (playbackCalls t)) = Some c ∧
        retryable c = true ∧ retryCount < 2) ∧
  (∀ c access_token,
     (tokenData ← fst (getAccessToken up 0 t); prop tokenData "access_token")
       = Ok access_token →
     classify PlaybackFetch (playbackEndpoint up (playbackCalls t)) = Some c →
     c ∈ [AuthError; PermissionError; Unexpected] →
     snd played = playbackCalled (snd (getAccessToken up 0 t)) ∧
     ∃ e, fst played = Throw e) ∧
  (0 <= retryCount → (playbackCalls (snd played) ≤ playbackCalls t + 3)%nat) ∧
  (∀ e, fst (getAccessToken up 0 t) = Throw e →
        played = (Throw (rethrow e), snd (getAccessToken up 0 t))).
Proof.
  intros refreshed played. subst refreshed played.
  assert (∀ c, c ∈ [AuthError; PermissionError; Unexpected] →
               retryable c = false) as Hterminal.
  { intros c Hc. rewrite !elem_of_cons, elem_of_nil in Hc.
    destruct Hc as [Hc | [Hc | [Hc | []]]]; rewrite Hc; reflexivity. }
  split; [| split; [| split; [| split; [| split; [| split]]]]].
  - intros Hretried.
    destruct (getAccessToken_retried retryCount t Hretried)
      as (response & Hfirst & Hok & Hs & Hcount).
    exists UpstreamUnavailable. rewrite Hfirst. unfold classify.
    rewrite Hok. replace (status response =? 429) with false by lia.
    replace (500 <=? status response) with true by lia.
    repeat split. exact Hcount.
  - intros c Hc Hin. apply (getAccessToken_terminal retryCount t c Hc).
    apply Hterminal. exact Hin.
  - intros Hcount.
    pose proof (getAccessToken_calls retryCount t) as (_ & _ & Hhi).
    cbv zeta in Hhi. unfold maxRetries in Hhi. lia.
  - intros Hretried.
    destruct (getNowPlaying_retried retryCount t Hretried)
      as (response & Hfirst & Hok & Hs & Hcount).
    exists UpstreamUnavailable. rewrite Hfirst. unfold classify.
    rewrite Hok. replace (status response =? 429) with false by lia.
    replace (500 <=? status response) with true by lia.
    repeat split. exact Hcount.
  - intros c access_token Htoken Hc Hin.
    apply (getNowPlaying_terminal retryCount t access_token c Htoken Hc).
    apply Hterminal. exact Hin.
  - intros Hcount.
    pose proof (getNowPlaying_calls retryCount t) as (_ & Hhi).
    cbv zeta in Hhi. unfold maxRetries in Hhi. lia.
  - apply getNowPlaying_token_failed.
Qed.

End Retry.

Lemma retry_only_transient_witness :
  let unavailable :=
    Resolves {| status := 503; retryAfter := None; json := Ok VNull |} in
  let up :=
    {| Server.Retrying.tokenEndpoint := λ _, unavailable;
       Server.Retrying.playbackEndpoint := λ _, unavailable |} in
  0 <= 0 ∧
  (Server.Retrying.tokenCalls
     (snd (Server.Retrying.getAccessToken up 0 Server.Retrying.start)) ≤ 0 + 3)%nat.
Proof.
  intros unavailable up. split; [lia |].
  apply (retry_only_transient up 0 Server.Retrying.start). lia.
Defined.

(** ** Rounding to a double *)

Section Rounding.

Import Double.
Local Open Scope Q_scope.

Lemma rne_spec (q : Q) :
  inject_Z (rne q) - (1 # 2) <= q ∧ q <= inject_Z (rne q) + (1 # 2).
Proof.
  unfold rne. cbv zeta.
  pose proof (Qfloor_le q) as Hlo. pose proof (Qlt_floor q) as Hhi.
  rewrite inject_Z_plus in Hhi. change (inject_Z 1) with 1 in Hhi.
  set (f := Qfloor q) in *.
  destruct (Qcompare_spec (q - inject_Z f) (1 # 2)) as [Heq | Hlt | Hgt].
  - destruct (Z.even f); [| rewrite inject_Z_plus; change (inject_Z 1) with 1];
      split; lra.
  - split; lra.
  - rewrite inject_Z_plus. change (inject_Z 1) with 1. split; lra.
Qed.

Lemma rne_Z (z : Z) : rne (inject_Z z) = z.
Proof.
  unfold rne. cbv zeta. rewrite Qfloor_Z.
  destruct (Qcompare_spec (inject_Z z - inject_Z z) (1 # 2)) as [H | H | H];
    [lra | reflexivity | lra].
Qed.

Lemma Z_lt_Q (a b : Z) : inject_Z a < inject_Z b + 1 → (a <= b)%Z.
Proof.
  intros H. change 1 with (inject_Z 1) in H. rewrite <- inject_Z_plus in H.
  rewrite <- Zlt_Qlt in H. lia.
Qed.

Lemma rne_le_Z (q : Q) (N : Z) : q <= inject_Z N → (rne q <= N)%Z.
Proof.
  intros Hq. unfold rne. cbv zeta.
  pose proof (Qfloor_le q) as Hlo. pose proof (Qlt_floor q) as Hhi.
  rewrite inject_Z_plus in Hhi. change (inject_Z 1) with 1 in Hhi.
  set (f := Qfloor q) in *.
  assert (f <= N)%Z as Hf by (rewrite Zle_Qle; lra).
  destruct (Z.eq_dec f N) as [-> | Hne].
  - destruct (Qcompare_spec (q - inject_Z N) (1 # 2)) as [H | H | H];
      [lra | lia | lra].
  - destruct (Qcompare_spec (q - inject_Z f) (1 # 2)) as [H | H | H];
      try destruct (Z.even f); lia.
Qed.

Lemma Z_le_rne (q : Q) (N : Z) : inject_Z N <= q → (N <= rne q)%Z.
Proof.
  intros Hq. unfold rne. cbv zeta.
  pose proof (Qlt_floor q) as Hhi.
  rewrite inject_Z_plus in Hhi. change (inject_Z 1) with 1 in Hhi.
  set (f := Qfloor q) in *.
  assert (N <= f)%Z as Hf by (apply Z_lt_Q; lra).
  destruct (Qcompare_spec (q - inject_Z f) (1 # 2)) as [H | H | H];
    try destruct (Z.even f); lia.
Qed.

Lemma rne_below_half (q : Q) (N : Z) :
  q < inject_Z N - (1 # 2) → (rne q <= N - 1)%Z.
Proof.
  intros Hq. pose proof (rne_spec q) as [Hlo _].
  assert (inject_Z (rne q) < inject_Z (N - 1) + 1) as H.
  { replace (N - 1)%Z with (N + -1)%Z by lia. rewrite inject_Z_plus.
    change (inject_Z (-1)) with (-1). lra. }
  apply Z_lt_Q in H. exact H.
Qed.

Lemma two_pow_pos (e : Z) : 0 < 2 ^ e.
Proof. apply Qpower_0_lt. reflexivity. Qed.

Lemma two_pow_Z (k : Z) : (0 <= k)%Z → 2 ^ k == inject_Z (2 ^ k).
Proof. intros Hk. rewrite Zpower_Qpower by exact Hk. reflexivity. Qed.

Lemma ilog2_le (q : Q) : 0 < q → 2 ^ ilog2 q <= q.
Proof.
  intros Hq. unfold ilog2. cbv zeta.
  set (ln := Z.log2 (Qnum q)). set (ld := Z.log2 (Zpos (Qden q))).
  destruct (Qle_bool (2 ^ (ln - ld)) q) eqn:Hk;
    [apply Qle_bool_iff; exact Hk |].
  destruct q as [n d]. cbn [Qnum Qden] in *.
  assert (0 < n)%Z as Hn by (unfold Qlt in Hq; cbn in Hq; lia).
  destruct (Z.log2_spec n Hn) as [Hnlo _]. fold ln in Hnlo.
  destruct (Z.log2_spec (Zpos d) ltac:(lia)) as [_ Hdhi]. fold ld in Hdhi.
  assert (0 <= ln)%Z as Hln by apply Z.log2_nonneg.
  assert (0 <= ld)%Z as Hld by apply Z.log2_nonneg.
  replace (ln - ld - 1)%Z with (ln - Z.succ ld)%Z by lia.
  rewrite Qpower_minus by discriminate.
  rewrite (two_pow_Z ln Hln), (two_pow_Z (Z.succ ld)) by lia.
  set (A := (2 ^ ln)%Z) in *. set (B := (2 ^ Z.succ ld)%Z) in *.
  assert (0 < A)%Z as HA by (apply Z.pow_pos_nonneg; lia).
  assert (inject_Z A / inject_Z B == A # Z.to_pos B) as ->.
  { rewrite (Qmake_Qdiv A (Z.to_pos B)), Z2Pos.id by lia. reflexivity. }
  unfold Qle. cbn [Qnum Qden]. rewrite Z2Pos.id by lia. nia.
Qed.

Lemma ilog2_lt (q : Q) (k : Z) : 0 < q → q < 2 ^ k → (ilog2 q < k)%Z.
Proof.
  intros Hq Hk. apply (Qpower_lt_compat_l_inv 2); [| reflexivity].
  apply Qle_lt_trans with q; [apply ilog2_le; exact Hq | exact Hk].
Qed.

Lemma Qabs_of_pos (q : Q) : 0 < q → Qabs q = q.
Proof.
  destruct q as [n d]. unfold Qlt, Qabs. cbn. intros Hn.
  rewrite Z.abs_eq by lia. reflexivity.
Qed.

Lemma exponent_le (q : Q) (k : Z) :
  0 < q → q < 2 ^ k → (-1074 <= k - 53)%Z → (exponent q <= k - 53)%Z.
Proof.
  intros Hq Hk Hmin. unfold exponent.
  rewrite (Qabs_of_pos q Hq).
  pose proof (ilog2_lt q k Hq Hk). lia.
Qed.

Lemma round_pos (q : Q) :
  0 < q → round q == inject_Z (rne (q / 2 ^ exponent q)) * 2 ^ exponent q.
Proof.
  intros Hq. unfold round.
  destruct (Qeq_bool q 0) eqn:H0; [| reflexivity].
  apply Qeq_bool_iff in H0. lra.
Qed.

Lemma round_0 : round 0 == 0.
Proof. reflexivity. Qed.

(** The facts about a non-positive exponent the proofs below use *)
Lemma scale_neg (e : Z) :
  (e <= 0)%Z →
  ∃ s : Z, (2 ^ (- e) = s)%Z ∧ (0 < s)%Z ∧ inject_Z s * 2 ^ e == 1.
Proof.
  intros He. exists (2 ^ (- e))%Z. split; [reflexivity |].
  split; [apply Z.pow_pos_nonneg; lia |].
  rewrite <- two_pow_Z by lia. rewrite <- Qpower_plus by discriminate.
  replace (- e + e)%Z with 0%Z by lia. reflexivity.
Qed.

(** Rounding a positive value below 2^53 does not cross an integer. *)
Lemma round_between (q : Q) (N M : Z) :
  0 < q → q < 2 ^ 53 → inject_Z N <= q → q <= inject_Z M →
  inject_Z N <= round q ∧ round q <= inject_Z M.
Proof.
  intros Hq H53 HN HM.
  pose proof (exponent_le q 53 Hq H53 ltac:(lia)) as He.
  rewrite (round_pos q Hq).
  destruct (scale_neg _ He) as (s & _ & Hs & Hinv).
  pose proof (two_pow_pos (exponent q)) as HP.
  set (P := 2 ^ exponent q) in *.
  assert (q / P == q * inject_Z s) as Hy by (field_simplify_eq; [nra | lra]).
  assert (0 < inject_Z s) as HsQ by (change 0 with (inject_Z 0); rewrite <- Zlt_Qlt; exact Hs).
  assert (N * s <= rne (q / P))%Z as Hlo.
  { apply Z_le_rne. rewrite Hy, inject_Z_mult. nra. }
  assert (rne (q / P) <= M * s)%Z as Hhi.
  { apply rne_le_Z. rewrite Hy, inject_Z_mult. nra. }
  rewrite Zle_Qle, inject_Z_mult in Hlo, Hhi.
  set (R := inject_Z (rne (q / P))) in *.
  split; nra.
Qed.

Lemma round_between0 (q : Q) (N M : Z) :
  0 <= q → q < 2 ^ 53 → inject_Z N <= q → q <= inject_Z M →
  inject_Z N <= round q ∧ round q <= inject_Z M.
Proof.
  intros Hq H53 HN HM.
  destruct (Qlt_le_dec 0 q) as [Hpos | Hzero];
    [apply round_between; assumption |].
  assert (q == 0) as H0 by lra.
  unfold round. apply Qeq_bool_iff in H0 as Hb. rewrite Hb. split; lra.
Qed.

(** The rounding error is at most half a unit in the last place. *)
Lemma round_error (q : Q) (k : Z) :
  0 <= q → q < 2 ^ k → (-1074 <= k - 53)%Z →
  q - 2 ^ (k - 54) <= round q ∧ round q <= q + 2 ^ (k - 54).
Proof.
  intros Hq Hk Hmin.
  pose proof (two_pow_pos (k - 54)) as Hulp.
  destruct (Qlt_le_dec 0 q) as [Hpos | Hzero].
  2: { assert (q == 0) as H0 by lra.
       unfold round. apply Qeq_bool_iff in H0 as Hb. rewrite Hb. split; lra. }
  pose proof (exponent_le q k Hpos Hk Hmin) as He.
  rewrite (round_pos q Hpos).
  pose proof (two_pow_pos (exponent q)) as HP.
  assert (2 ^ exponent q <= 2 * 2 ^ (k - 54)) as Hle.
  { change 2 with (2 ^ 1) at 2. rewrite <- Qpower_plus by discriminate.
    apply Qpower_le_compat_l; [lia | discriminate]. }
  set (P := 2 ^ exponent q) in *.
  destruct (rne_spec (q / P)) as [Hlo Hhi].
  set (R := inject_Z (rne (q / P))) in *.
  assert (q / P * P == q) as Hy by (field; lra).
  set (y := q / P) in *.
  split; nra.
Qed.

(** Below an integer by more than half a unit in the last place, the
    rounded value stays below the integer. *)
Lemma round_lt_Z (q : Q) (M k : Z) :
  0 <= q → q < 2 ^ k → (-1074 <= k - 53)%Z → (k <= 53)%Z →
  q < inject_Z M - 2 ^ (k - 54) → round q < inject_Z M.
Proof.
  intros Hq Hk Hmin Hmax HM.
  pose proof (two_pow_pos (k - 54)) as Hulp.
  destruct (Qlt_le_dec 0 q) as [Hpos | Hzero].
  2: { assert (q == 0) as H0 by lra.
       unfold round. apply Qeq_bool_iff in H0 as Hb. rewrite Hb. lra. }
  pose proof (exponent_le q k Hpos Hk Hmin) as He.
  rewrite (round_pos q Hpos).
  destruct (scale_neg (exponent q) ltac:(lia)) as (s & _ & Hs & Hinv).
  pose proof (two_pow_pos (exponent q)) as HP.
  assert (2 ^ exponent q <= 2 * 2 ^ (k - 54)) as Hle.
  { change 2 with (2 ^ 1) at 2. rewrite <- Qpower_plus by discriminate.
    apply Qpower_le_compat_l; [lia | discriminate]. }
  set (P := 2 ^ exponent q) in *. set (U := 2 ^ (k - 54)) in *.
  assert (0 < inject_Z s) as HsQ
    by (change 0 with (inject_Z 0); rewrite <- Zlt_Qlt; exact Hs).
  set (Sc := inject_Z s) in *.
  assert (q / P == q * Sc) as Hy by (field_simplify_eq; [nra | lra]).
  assert (rne (q / P) <= M * s - 1)%Z as Hhi.
  { apply rne_below_half. rewrite Hy, inject_Z_mult. fold Sc.
    assert ((1 # 2) <= U * Sc) by nra. nra. }
  rewrite Zle_Qle in Hhi. unfold Z.sub in Hhi.
  rewrite inject_Z_plus, inject_Z_mult in Hhi. fold Sc in Hhi.
  change (inject_Z (- (1))) with (-1) in Hhi.
  set (R := inject_Z (rne (q / P))) in *.
  assert (R * P <= (inject_Z M * Sc + -1) * P) as Hmul
    by (apply Qmult_le_compat_r; lra).
  assert ((inject_Z M * Sc + -1) * P == inject_Z M - P) as Heq.
  { transitivity (inject_Z M * (Sc * P) - P); [ring |].
    rewrite Hinv. ring. }
  lra.
Qed.

End Rounding.

(** ** The retry delays *)

Section Delays.

Local Open Scope Q_scope.

(** The jitter [Math.random() * 1000] as a double: within rounding of the
    scaled draw, in [0, 1000], and below 1000 for a draw that is a double. *)
Lemma jitter_range (rnd : Q) :
  0 <= rnd → rnd < 1 →
  let jitter := Double.round (rnd * 1000) in
  0 <= jitter ∧ jitter <= 1000 ∧
  (rnd <= 1 - 2 ^ (-53) → jitter < 1000) ∧
  rnd * 1000 - 2 ^ (-44) <= jitter ∧ jitter <= rnd * 1000 + 2 ^ (-44).
Proof.
  intros Hlo Hhi jitter. subst jitter.
  assert (rnd * 1000 < 2 ^ 10) as H10
    by (change (2 ^ 10) with 1024; lra).
  assert (rnd * 1000 < 2 ^ 53) as H53
    by (change (2 ^ 53) with 9007199254740992; lra).
  destruct (round_between0 (rnd * 1000) 0 1000) as [Hge Hle];
    [lra | exact H53 | change (inject_Z 0) with 0; lra
     | change (inject_Z 1000) with 1000; lra |].
  change (inject_Z 0) with 0 in Hge. change (inject_Z 1000) with 1000 in Hle.
  destruct (round_error (rnd * 1000) 10) as [Helo Hehi];
    [lra | exact H10 | lia |].
  change (10 - 54)%Z with (-44)%Z in Helo, Hehi.
  split; [exact Hge |]. split; [exact Hle |].
  split; [| split; assumption].
  intros Hdouble.
  change (inject_Z 1000) with 1000.
  apply (round_lt_Z (rnd * 1000) 1000 10); [lra | exact H10 | lia | lia |].
  change (10 - 54)%Z with (-44)%Z.
  change (2 ^ (-53)) with (1 # 9007199254740992) in Hdouble.
  change (2 ^ (-44)) with (1 # 17592186044416).
  change (inject_Z 1000) with 1000. lra.
Qed.

(** The delay lies between the capped backoff and 1000 ms more, within
    rounding of the sum. *)
Lemma getRetryDelay_range (attempt : Z) (rnd : Q) :
  (0 <= attempt)%Z → 0 <= rnd → rnd < 1 →
  let exact := inject_Z (backoff attempt) + Double.round (rnd * 1000) in
  exact - 2 ^ (-39) <= getRetryDelay attempt rnd ∧
  getRetryDelay attempt rnd <= exact + 2 ^ (-39) ∧
  inject_Z (backoff attempt) <= getRetryDelay attempt rnd ∧
  getRetryDelay attempt rnd <= inject_Z (backoff attempt) + 1000.
Proof.
  intros Hn Hlo Hhi exact. subst exact. unfold getRetryDelay.
  destruct (jitter_range rnd Hlo Hhi) as (Hj0 & Hj1 & _).
  cbv zeta in Hj0, Hj1.
  set (jitter := Double.round (rnd * 1000)) in *.
  pose proof (backoff_bounds attempt Hn) as [Hb0 Hb1].
  rewrite Zle_Qle in Hb0, Hb1.
  change (inject_Z 1000) with 1000 in Hb0.
  change (inject_Z 30000) with 30000 in Hb1.
  set (b := inject_Z (backoff attempt)) in *.
  assert (b + jitter < 2 ^ 15) as H15
    by (change (2 ^ 15) with 32768; lra).
  assert (b + jitter < 2 ^ 53) as H53
    by (change (2 ^ 53) with 9007199254740992; lra).
  destruct (round_error (b + jitter) 15) as [Helo Hehi];
    [lra | exact H15 | lia |].
  change (15 - 54)%Z with (-39)%Z in Helo, Hehi.
  destruct (round_between0 (b + jitter) (backoff attempt)
              (backoff attempt + 1000)) as [Hge Hle];
    [lra | exact H53 | fold b; lra
     | rewrite inject_Z_plus; fold b; change (inject_Z 1000) with 1000; lra |].
  rewrite inject_Z_plus in Hle. fold b in Hge, Hle.
  change (inject_Z 1000) with 1000 in Hle.
  repeat split; assumption.
Qed.

End Delays.







(** ** The playback fetch of the retrying handler *)

Section Playback.

Import Server Server.Retrying.

Context (up : Upstream).

(** C5, as amended: once the credential refresh has succeeded,
    [getNowPlaying] returns { is_playing: false } for an upstream 204; it
    throws for every status from 400 to 499 and for a status >= 500 received
    when the retries are used up; a status >= 500 received with a retry left
    is not returned either, the call is made again after the delay. The
    thrown error names the raw status only for a 4xx other than 401, 403 and
    429; for those and for >= 500 its message is fixed. *)
Theorem getNowPlaying_statuses (retryCount : Z) (t t1 : Trace)
    (tokenData access_token : value) (response : Response) :
  getAccessToken up 0 t = (Ok tokenData, t1) →
  prop tokenData "access_token" = Ok access_token →
  playbackEndpoint up (playbackCalls t1) = Resolves response →
  let t2 := playbackCalled t1 in
  let thrown (msg : string) := (Throw (Error "Error" msg), t2) in
  (status response = 204 →
   getNowPlaying up retryCount t = (Ok notPlaying, t2)) ∧
  (400 <= status response < 500 →
   getNowPlaying up retryCount t =
   if status response =? 401 then
     thrown "Spotify access token expired - authentication issue"
   else if status response =? 403 then
     thrown "Insufficient Spotify permissions - check app scopes"
   else if status response =? 429 then
     thrown ("Spotify rate limit exceeded - retry after " +:+
             retryAfterOr response "1" +:+ "s")
   else
     thrown ("Spotify API client error: " +:+ showZ (status response))) ∧
  (500 <= status response → 2 <= retryCount →
   getNowPlaying up retryCount t =
   thrown "Spotify API temporarily unavailable") ∧
  (500 <= status response → retryCount < 2 →
   getNowPlaying up retryCount t =
   getNowPlaying up (retryCount + 1) (slept (1000 * 2 ^ retryCount) t2)).
Proof.
  intros Htoken Haccess Hfirst t2 thrown. subst t2 thrown.
  rewrite (getNowPlaying_equation_1 up retryCount t). cbv zeta.
  rewrite Htoken. cbn [mbind result_bind Js.bind]. rewrite Haccess, Hfirst.
  split; [| split; [| split]].
  - intros ->. reflexivity.
  - intros Hs.
    replace (status response =? 204) with false by lia.
    replace ((400 <=? status response) && (status response <? 500))
      with true by lia.
    reflexivity.
  - intros Hs Hcount.
    replace (status response =? 204) with false by lia.
    replace ((400 <=? status response) && (status response <? 500))
      with false by lia.
    replace (500 <=? status response) with true by lia.
    destruct (Z_lt_dec retryCount maxRetries) as [Hlt | _];
      [unfold maxRetries in Hlt; lia | reflexivity].
  - intros Hs Hcount.
    replace (status response =? 204) with false by lia.
    replace ((400 <=? status response) && (status response <? 500))
      with false by lia.
    replace (500 <=? status response) with true by lia.
    destruct (Z_lt_dec retryCount maxRetries) as [_ | Hge];
      [reflexivity | unfold maxRetries in Hge; lia].
Qed.

End Playback.

Lemma getNowPlaying_statuses_witness :
  let token :=
    Resolves {| status := 200; retryAfter := None;
                json := Ok (VObj [("access_token", VStr "BQD")]) |} in
  let nothing := {| status := 204; retryAfter := None; json := Ok VNull |} in
  let up :=
    {| Server.Retrying.tokenEndpoint := λ _, token;
       Server.Retrying.playbackEndpoint := λ _, Resolves nothing |} in
  Server.Retrying.getNowPlaying up 0 Server.Retrying.start =
  (Ok Server.notPlaying,
   {| Server.Retrying.tokenCalls := 1; Server.Retrying.playbackCalls := 1;
      Server.Retrying.sleeps := [] |}).
Proof.
  intros token nothing up.
  apply (getNowPlaying_statuses up 0 Server.Retrying.start
           (Server.Retrying.tokenCalled Server.Retrying.start)
           (VObj [("access_token", VStr "BQD")]) (VStr "BQD") nothing);
    reflexivity.
Defined.

(** C5, as stated, at an expired token: the playback endpoint answers 401;
    [getNowPlaying] throws, but the error does not carry the raw status. *)
Lemma getNowPlaying_401_hides_status :
  let token :=
    Resolves {| status := 200; retryAfter := None;
                json := Ok (VObj [("access_token", VStr "BQD")]) |} in
  let expired := {| status := 401; retryAfter := None; json := Ok VNull |} in
  let up :=
    {| Server.Retrying.tokenEndpoint := λ _, token;
       Server.Retrying.playbackEndpoint := λ _, Resolves expired |} in
  ¬ (∃ e, fst (Server.Retrying.getNowPlaying up 0 Server.Retrying.start)
            = Throw e ∧
          includes (showZ 401) (message e) = true).
Proof.
  intros token expired up (e & He & Hcarried).
  vm_compute in He. injection He as <-.
  vm_compute in Hcarried. discriminate Hcarried.
Qed.

(** The first handler's [getNowPlaying] goes further: every status above
    400 is returned as { is_playing: false }. *)
Lemma legacy_getNowPlaying_above_400 (tokenResponse response : Response)
    (tokenData access_token : value) :
  ok tokenResponse = true →
  json tokenResponse = Ok tokenData →
  prop tokenData "access_token" = Ok access_token →
  400 < status response →
  Server.Legacy.getNowPlaying (Resolves tokenResponse) (Resolves response)
  = Ok Server.notPlaying.
Proof.
  intros Hok Hjson Haccess Hs.
  unfold Server.Legacy.getNowPlaying, Server.Legacy.getAccessToken.
  cbn. rewrite Hok. cbn. rewrite Hjson. cbn. rewrite Haccess. cbn.
  replace ((status response =? 204) || (status response >? 400)) with true
    by lia.
  reflexivity.
Qed.

(** ** What the handlers send *)

Section Handlers.

Import Server.

Lemma prop_truthy (v : value) (k : string) :
  truthy v = true → prop v k = Ok (optprop v k).
Proof. destruct v; cbn; intros H; try discriminate H; reflexivity. Qed.

Lemma prop_of_truthy_field (v : value) (k k' : string) :
  truthy (optprop v k) = true → prop v k' = Ok (optprop v k').
Proof. destruct v; cbn; intros H; try discriminate H; reflexivity. Qed.

(** The steps after the parsed playback body, for a body that plays
    something other than a track (or names no item at all). *)
Lemma shapePlayback_not_track (hs : list (string * string)) (apiData : value) :
  truthy (optprop apiData "is_playing") = true →
  is_str (optprop (optprop apiData "item") "type") "track" = false →
  shapePlayback hs apiData =
  Ok (sendJson 200
        (setHeader "Cache-Control" "s-maxage=60, stale-while-revalidate" hs)
        notPlaying).
Proof.
  intros Hplaying Htype. unfold shapePlayback.
  rewrite (prop_of_truthy_field apiData "is_playing" "is_playing" Hplaying).
  cbn [mbind result_bind Js.bind]. rewrite Hplaying. cbn [negb].
  rewrite (prop_of_truthy_field apiData "is_playing" "item" Hplaying).
  cbn [mbind result_bind Js.bind].
  destruct (truthy (optprop apiData "item")) eqn:Hitem; cbn [negb];
    [| reflexivity].
  rewrite (prop_truthy _ "type" Hitem). cbn [mbind result_bind Js.bind].
  rewrite Htype. reflexivity.
Qed.

(** The widget shows "No music playing" for the body { is_playing: false }
    it is sent with status 200, whatever it showed before. *)
Lemma widget_renders_notPlaying (hs : list (string * string))
    (apiUrl : string) (isRetry : bool) (now1 now2 : Z) (rnd : Q) (st : State) :
  truthy (fst (getCachedData apiUrl (isPlayingRef st) now1 (globalCache st)))
    && negb isRetry = false →
  render (fetchData apiUrl isRetry now1
            (delivered (sendJson 200 hs notPlaying)) now2 rnd st)
  = NotPlayingView.
Proof.
  intros Hmiss.
  destruct (fetchData_succeeded apiUrl isRetry now1 now2
              (delivered (sendJson 200 hs notPlaying)) rnd st
              notPlaying (VBool false) Hmiss eq_refl eq_refl)
    as (Htrack & Herror & _ & Hloading & _).
  cbv zeta in Htrack, Herror, Hloading.
  unfold render. rewrite Hloading, Herror, Htrack. reflexivity.
Qed.

(** A body that still names an episode is shown as not playing by the
    widget's own [isPodcast] check. *)
Lemma render_episode (st : State) :
  loading st = false →
  truthy (error st) = false →
  is_str (optprop (track st) "currently_playing_type") "episode" = true
  ∨ is_str (optprop (optprop (track st) "item") "type") "episode" = true →
  render st = NotPlayingView.
Proof.
  intros Hloading Herror Hepisode. unfold render.
  rewrite Hloading, Herror.
  destruct (truthy (optprop (track st) "is_playing")); [| reflexivity].
  cbn [negb orb]. unfold isPodcast.
  assert (truthy (track st) = true) as ->.
  { destruct (track st); try reflexivity;
      destruct Hepisode as [H | H]; discriminate H. }
  destruct Hepisode as [-> | ->]; cbn [andb orb]; [reflexivity |].
  rewrite orb_true_r. reflexivity.
Qed.

(** C6: when the upstream answers 200 with is_playing=true and an item whose
    type is not "track" (or no item), the production handler replies 200
    with body { is_playing: false }, and the widget that receives this reply
    renders its not-playing state; so it does for a body that still names an
    episode. *)
Theorem production_normalizes_non_track (env : Env)
    (tokenResponse apiResponse : Response)
    (tokenData access_token apiData : value) :
  isSet (SPOTIFY_CLIENT_ID env) = true →
  isSet (SPOTIFY_CLIENT_SECRET env) = true →
  isSet (SPOTIFY_REFRESH_TOKEN env) = true →
  ok tokenResponse = true →
  json tokenResponse = Ok tokenData →
  prop tokenData "access_token" = Ok access_token →
  truthy access_token = true →
  status apiResponse = 200 →
  json apiResponse = Ok apiData →
  truthy (optprop apiData "is_playing") = true →
  is_str (optprop (optprop apiData "item") "type") "track" = false →
  let reply :=
    productionHandler "GET" env (Resolves tokenResponse) (Resolves apiResponse) in
  code reply = 200 ∧
  body reply = Some notPlaying ∧
  ∀ apiUrl isRetry now1 now2 rnd st,
    truthy (fst (getCachedData apiUrl (isPlayingRef st) now1 (globalCache st)))
      && negb isRetry = false →
    let st' := fetchData apiUrl isRetry now1 (delivered reply) now2 rnd st in
    render st' = NotPlayingView ∧
    ∀ shown,
      loading shown = false → truthy (error shown) = false →
      is_str (optprop (track shown) "currently_playing_type") "episode" = true
      ∨ is_str (optprop (optprop (track shown) "item") "type") "episode" = true →
      render shown = NotPlayingView.
Proof.
  intros Hid Hsecret Hrefresh Hok Hjson Haccess Htoken Hstatus Hbody
         Hplaying Htype reply.
  assert (reply =
          sendJson 200
            (setHeader "Cache-Control" "s-maxage=60, stale-while-revalidate"
               (hardened (openCors "Content-Type, Authorization")))
            notPlaying) as ->.
  { subst reply. unfold productionHandler. cbn [String.eqb Ascii.eqb].
    cbn -[hardened openCors setHeader sendJson shapePlayback].
    rewrite Hid, Hsecret, Hrefresh, Hok.
    cbn -[hardened openCors setHeader sendJson shapePlayback].
    rewrite Hjson. cbn -[hardened openCors setHeader sendJson shapePlayback].
    rewrite Haccess. cbn -[hardened openCors setHeader sendJson shapePlayback].
    rewrite Htoken, Hstatus.
    cbn -[hardened openCors setHeader sendJson shapePlayback].
    unfold ok. rewrite Hstatus.
    cbn -[hardened openCors setHeader sendJson shapePlayback].
    rewrite Hbody. cbn -[hardened openCors setHeader sendJson shapePlayback].
    rewrite (shapePlayback_not_track _ apiData Hplaying Htype). reflexivity. }
  split; [reflexivity | split; [reflexivity |]].
  intros apiUrl isRetry now1 now2 rnd st Hmiss. split.
  - apply widget_renders_notPlaying. exact Hmiss.
  - apply render_episode.
Qed.

Lemma production_normalizes_non_track_witness :
  let env :=
    {| SPOTIFY_CLIENT_ID := Some "id"; SPOTIFY_CLIENT_SECRET := Some "secret";
       SPOTIFY_REFRESH_TOKEN := Some "refresh" |} in
  let tokenResponse :=
    {| status := 200; retryAfter := None;
       json := Ok (VObj [("access_token", VStr "BQD")]) |} in
  let episode :=
    VObj [("is_playing", VBool true);
          ("currently_playing_type", VStr "episode");
          ("item", VObj [("type", VStr "episode"); ("name", VStr "A show")])] in
  let apiResponse :=
    {| status := 200; retryAfter := None; json := Ok episode |} in
  let reply :=
    productionHandler "GET" env (Resolves tokenResponse) (Resolves apiResponse) in
  code reply = 200 ∧ body reply = Some notPlaying.
Proof.
  intros env tokenResponse episode apiResponse reply.
  destruct (production_normalizes_non_track env tokenResponse apiResponse
              (VObj [("access_token", VStr "BQD")]) (VStr "BQD") episode
              eq_refl eq_refl eq_refl eq_refl eq_refl eq_refl eq_refl
              eq_refl eq_refl eq_refl eq_refl)
    as (Hcode & Hbody & _).
  split; assumption.
Defined.

(** C10: when the upstream answers 200 with is_playing=true and no item
    (absent or null), the production handler, the validated handler and the
    simplified TypeScript handler all reply 200 with body
    { is_playing: false }. *)
Theorem missing_item_is_not_playing (production : bool) (env : Env)
    (tokenResponse apiResponse : Response)
    (tokenData access_token apiData : value) :
  isSet (SPOTIFY_CLIENT_ID env) = true →
  isSet (SPOTIFY_CLIENT_SECRET env) = true →
  isSet (SPOTIFY_REFRESH_TOKEN env) = true →
  ok tokenResponse = true →
  json tokenResponse = Ok tokenData →
  prop tokenData "access_token" = Ok access_token →
  truthy access_token = true →
  status apiResponse = 200 →
  json apiResponse = Ok apiData →
  truthy (optprop apiData "is_playing") = true →
  truthy (optprop apiData "item") = false →
  let tokenFetch := Resolves tokenResponse in
  let apiFetch := Resolves apiResponse in
  ∀ reply,
    reply ∈ [productionHandler "GET" env tokenFetch apiFetch;
             nowPlayingHandler production "GET" env tokenFetch apiFetch;
             Simple.handler "GET" tokenFetch apiFetch] →
    code reply = 200 ∧ body reply = Some notPlaying.
Proof.
  intros Hid Hsecret Hrefresh Hok Hjson Haccess Htoken Hstatus Hbody
         Hplaying Hitem tokenFetch apiFetch reply Hreply.
  assert (is_str (optprop (optprop apiData "item") "type") "track" = false)
    as Htype.
  { destruct (optprop apiData "item"); try reflexivity; discriminate Hitem. }
  pose proof (shapePlayback_not_track
                (hardened (openCors "Content-Type, Authorization"))
                apiData Hplaying Htype) as Hshape.
  pose proof (prop_of_truthy_field apiData "is_playing" "is_playing" Hplaying)
    as Hread.
  pose proof (prop_of_truthy_field apiData "is_playing" "item" Hplaying)
    as Hreaditem.
  rewrite !elem_of_cons, elem_of_nil in Hreply.
  destruct Hreply as [-> | [-> | [-> | []]]].
  - unfold productionHandler.
    cbn -[hardened openCors setHeader sendJson shapePlayback].
    rewrite Hid, Hsecret, Hrefresh, Hok.
    cbn -[hardened openCors setHeader sendJson shapePlayback].
    rewrite Hjson. cbn -[hardened openCors setHeader sendJson shapePlayback].
    rewrite Haccess. cbn -[hardened openCors setHeader sendJson shapePlayback].
    rewrite Htoken, Hstatus.
    cbn -[hardened openCors setHeader sendJson shapePlayback].
    unfold ok. rewrite Hstatus.
    cbn -[hardened openCors setHeader sendJson shapePlayback].
    rewrite Hbody. cbn -[hardened openCors setHeader sendJson shapePlayback].
    rewrite Hshape. split; reflexivity.
  - unfold nowPlayingHandler.
    cbn -[hardened openCors setHeader sendJson shapePlayback].
    rewrite Hok. cbn -[hardened openCors setHeader sendJson shapePlayback].
    rewrite Hjson. cbn -[hardened openCors setHeader sendJson shapePlayback].
    rewrite Haccess. cbn -[hardened openCors setHeader sendJson shapePlayback].
    rewrite Htoken, Hstatus.
    cbn -[hardened openCors setHeader sendJson shapePlayback].
    unfold ok. rewrite Hstatus.
    cbn -[hardened openCors setHeader sendJson shapePlayback].
    rewrite Hbody. cbn -[hardened openCors setHeader sendJson shapePlayback].
    rewrite Hshape. split; reflexivity.
  - unfold Simple.handler, Simple.getNowPlaying, Simple.getAccessToken.
    cbn -[hardened openCors setHeader sendJson].
    rewrite Hok. cbn -[hardened openCors setHeader sendJson].
    rewrite Hjson. cbn -[hardened openCors setHeader sendJson].
    rewrite Haccess. cbn -[hardened openCors setHeader sendJson].
    rewrite Hstatus. cbn -[hardened openCors setHeader sendJson].
    unfold ok. rewrite Hstatus. cbn -[hardened openCors setHeader sendJson].
    rewrite Hbody. cbn -[hardened openCors setHeader sendJson].
    rewrite Hread. cbn -[hardened openCors setHeader sendJson].
    rewrite Hplaying. cbn -[hardened openCors setHeader sendJson].
    rewrite Hreaditem. cbn -[hardened openCors setHeader sendJson].
    rewrite Hitem. split; reflexivity.
Qed.

Lemma missing_item_is_not_playing_witness :
  let env :=
    {| SPOTIFY_CLIENT_ID := Some "id"; SPOTIFY_CLIENT_SECRET := Some "secret";
       SPOTIFY_REFRESH_TOKEN := Some "refresh" |} in
  let tokenFetch :=
    Resolves {| status := 200; retryAfter := None;
                json := Ok (VObj [("access_token", VStr "BQD")]) |} in
  let apiFetch :=
    Resolves {| status := 200; retryAfter := None;
                json := Ok (VObj [("is_playing", VBool true);
                                  ("progress_ms", VNum 1000)]) |} in
  body (productionHandler "GET" env tokenFetch apiFetch) = Some notPlaying ∧
  body (nowPlayingHandler true "GET" env tokenFetch apiFetch) = Some notPlaying ∧
  body (Simple.handler "GET" tokenFetch apiFetch) = Some notPlaying.
Proof.
  intros env tokenFetch apiFetch.
  pose proof (missing_item_is_not_playing true env
                {| status := 200; retryAfter := None;
                   json := Ok (VObj [("access_token", VStr "BQD")]) |}
                {| status := 200; retryAfter := None;
                   json := Ok (VObj [("is_playing", VBool true);
                                     ("progress_ms", VNum 1000)]) |}
                (VObj [("access_token", VStr "BQD")]) (VStr "BQD")
                (VObj [("is_playing", VBool true); ("progress_ms", VNum 1000)])
                eq_refl eq_refl eq_refl eq_refl eq_refl eq_refl eq_refl
                eq_refl eq_refl eq_refl eq_refl) as H.
  cbv zeta in H.
  split; [| split]; apply H; rewrite !elem_of_cons; auto.
Defined.

(** The cache-header logic of the validation script gives the values the
    documentation promises. *)
Lemma getCacheHeaders_values :
  Validation.getCacheHeaders (VBool true) =
    [("Cache-Control", "s-maxage=5, stale-while-revalidate=10");
     ("X-Playing-State", "playing")] ∧
  Validation.getCacheHeaders (VBool false) =
    [("Cache-Control", "s-maxage=60, stale-while-revalidate=120");
     ("X-Playing-State", "paused")].
Proof. split; reflexivity. Qed.

(** C8 on the production handler, for a playing track and for a 204: the
    replies are 200, their Cache-Control is "s-maxage=5,
    stale-while-revalidate" and "s-maxage=60, stale-while-revalidate", with
    no duration after stale-while-revalidate, and no X-Playing-State header
    is set. *)
Lemma production_cache_headers :
  let env :=
    {| SPOTIFY_CLIENT_ID := Some "id"; SPOTIFY_CLIENT_SECRET := Some "secret";
       SPOTIFY_REFRESH_TOKEN := Some "refresh" |} in
  let tokenFetch :=
    Resolves {| status := 200; retryAfter := None;
                json := Ok (VObj [("access_token", VStr "BQD")]) |} in
  let song :=
    VObj [("is_playing", VBool true);
          ("progress_ms", VNum 1000);
          ("item",
           VObj [("type", VStr "track"); ("name", VStr "Song A");
                 ("artists", VArr [VObj [("name", VStr "Artist A")]]);
                 ("duration_ms", VNum 200000)])] in
  let playing :=
    productionHandler "GET" env tokenFetch
      (Resolves {| status := 200; retryAfter := None; json := Ok song |}) in
  let paused :=
    productionHandler "GET" env tokenFetch
      (Resolves {| status := 204; retryAfter := None;
                   json := Throw (Error "SyntaxError" "Unexpected end of JSON input") |}) in
  (code playing = 200 ∧
   (b ← body playing; Some (optprop b "is_playing")) = Some (VBool true) ∧
   getHeader "Cache-Control" (headers playing)
     = Some "s-maxage=5, stale-while-revalidate" ∧
   getHeader "X-Playing-State" (headers playing) = None) ∧
  (code paused = 200 ∧
   body paused = Some notPlaying ∧
   getHeader "Cache-Control" (headers paused)
     = Some "s-maxage=60, stale-while-revalidate" ∧
   getHeader "X-Playing-State" (headers paused) = None).
Proof. repeat split; reflexivity. Qed.

(** When [getNowPlaying] throws, the retrying handler sends the fixed body
    { error: "Failed to fetch now playing", is_playing: false } with status
    500; the settings are not among its inputs. *)
Lemma retrying_handler_failure (hs : list (string * string))
    (up : Retrying.Upstream) (e : Js.error) :
  fst (Retrying.getNowPlaying up 0 Retrying.start) = Throw e →
  Retrying.handler hs "GET" up =
  sendJson 500 hs (failure "Failed to fetch now playing").
Proof. intros He. unfold Retrying.handler. cbn. rewrite He. reflexivity. Qed.

(** C9 on the first handler (src/api/spotify/now-playing.js): the token
    endpoint refuses the refresh with 400 under two settings that differ
    only in the length of the client id; both replies are 500, and their
    bodies differ, in the [debug] object that reports the lengths. *)
Lemma legacy_handler_reveals_settings :
  let refused :=
    Resolves {| status := 400; retryAfter := None; json := Ok VNull |} in
  let env1 :=
    {| SPOTIFY_CLIENT_ID := Some "id"; SPOTIFY_CLIENT_SECRET := Some "secret";
       SPOTIFY_REFRESH_TOKEN := Some "refresh" |} in
  let env2 :=
    {| SPOTIFY_CLIENT_ID := Some "another-id";
       SPOTIFY_CLIENT_SECRET := Some "secret";
       SPOTIFY_REFRESH_TOKEN := Some "refresh" |} in
  let reply1 := Legacy.handler env1 "GET" refused refused in
  let reply2 := Legacy.handler env2 "GET" refused refused in
  code reply1 = 500 ∧ code reply2 = 500 ∧
  body reply1 ≠ body reply2 ∧
  body reply1 =
    Some (VObj [("error", VStr "Failed to fetch now playing");
                ("is_playing", VBool false);
                ("debug",
                 VObj [("message", VStr "Token refresh failed: 400");
                       ("has_client_id", VBool true);
                       ("has_client_secret", VBool true);
                       ("has_refresh_token", VBool true);
                       ("client_id_length", VNum 2);
                       ("client_secret_length", VNum 6);
                       ("refresh_token_length", VNum 7)])]).
Proof.
  repeat split; try reflexivity.
  intros Heq. vm_compute in Heq. discriminate Heq.
Qed.

(** Every failure reply of the production handler is 500 with a body of the
    shape { error: summary, is_playing: false }. *)
Lemma shapePlayback_code (hs : list (string * string)) (apiData : value)
    (reply : Reply) :
  shapePlayback hs apiData = Ok reply → code reply = 200.
Proof.
  unfold shapePlayback. intros H.
  repeat (match type of H with
          | context [mbind _ ?m] => destruct m eqn:?; cbn in H
          | context [if ?c then _ else _] => destruct c eqn:?; cbn in H
          end; try discriminate H);
    injection H as <-; reflexivity.
Qed.

Lemma catchNetwork_shape (hs : list (string * string)) (e : Js.error) :
  ∃ summary, body (catchNetwork hs e) = Some (failure summary).
Proof. unfold catchNetwork. destruct (_ && _); eauto. Qed.

Lemma productionHandler_failure_shape (method : string) (env : Env)
    (tokenFetch apiFetch : FetchOutcome) :
  code (productionHandler method env tokenFetch apiFetch) = 500 →
  ∃ summary,
    body (productionHandler method env tokenFetch apiFetch)
    = Some (failure summary).
Proof.
  unfold productionHandler.
  destruct (String.eqb method "OPTIONS"); [discriminate |].
  destruct (negb (String.eqb method "GET")); [discriminate |].
  destruct (_ || _); [cbn; eauto |].
  destruct tokenFetch as [e | tokenResponse]; cbn -[catchNetwork shapePlayback];
    [intros _; apply catchNetwork_shape |].
  destruct (negb (ok tokenResponse)); [cbn; eauto |].
  destruct (json tokenResponse) as [tokenData | e];
    cbn -[catchNetwork shapePlayback]; [| intros _; apply catchNetwork_shape].
  destruct (prop tokenData "access_token") as [access_token | e];
    cbn -[catchNetwork shapePlayback]; [| intros _; apply catchNetwork_shape].
  destruct (negb (truthy access_token)); [cbn; eauto |].
  destruct apiFetch as [e | apiResponse]; cbn -[catchNetwork shapePlayback];
    [intros _; apply catchNetwork_shape |].
  destruct (status apiResponse =? 204); [discriminate |].
  destruct (_ && _); [cbn; eauto |].
  destruct (500 <=? status apiResponse); [cbn; eauto |].
  destruct (negb (ok apiResponse)); [cbn; eauto |].
  destruct (json apiResponse) as [apiData | e];
    cbn -[catchNetwork shapePlayback]; [| intros _; apply catchNetwork_shape].
  destruct (shapePlayback _ apiData) as [reply | e] eqn:Hshape;
    [| intros _; apply catchNetwork_shape].
  rewrite (shapePlayback_code _ _ _ Hshape). discriminate.
Qed.

(** The settings reach the production handler's reply only through the
    test that all three are present. *)
Lemma productionHandler_settings (method : string) (env1 env2 : Env)
    (tokenFetch apiFetch : FetchOutcome) :
  isSet (SPOTIFY_CLIENT_ID env1) = isSet (SPOTIFY_CLIENT_ID env2) →
  isSet (SPOTIFY_CLIENT_SECRET env1) = isSet (SPOTIFY_CLIENT_SECRET env2) →
  isSet (SPOTIFY_REFRESH_TOKEN env1) = isSet (SPOTIFY_REFRESH_TOKEN env2) →
  productionHandler method env1 tokenFetch apiFetch =
  productionHandler method env2 tokenFetch apiFetch.
Proof.
  intros Hid Hsecret Hrefresh. unfold productionHandler.
  rewrite Hid, Hsecret, Hrefresh. reflexivity.
Qed.

End Handlers.

(** * Further properties of the code *)

(** ** The cache of the widget *)

Section CacheKeys.

Lemma list_ascii_of_string_app (s1 s2 : string) :
  Strings.String.list_ascii_of_string (s1 +:+ s2) =
  (Strings.String.list_ascii_of_string s1 ++ Strings.String.list_ascii_of_string s2)%list.
Proof.
  induction s1 as [| c s1 IH]; simpl; [reflexivity | f_equal; exact IH].
Qed.

Lemma list_ascii_of_string_inj (s1 s2 : string) :
  Strings.String.list_ascii_of_string s1 = Strings.String.list_ascii_of_string s2 → s1 = s2.
Proof.
  intros H. rewrite <- (Strings.String.string_of_list_ascii_of_string s1),
    <- (Strings.String.string_of_list_ascii_of_string s2), H. reflexivity.
Qed.

Lemma cacheKey_inj (url1 url2 : string) (b1 b2 : bool) :
  cacheKey url1 (VBool b1) = cacheKey url2 (VBool b2) → url1 = url2 ∧ b1 = b2.
Proof.
  unfold cacheKey. intros H.
  apply (f_equal Strings.String.list_ascii_of_string) in H.
  rewrite !list_ascii_of_string_app in H.
  destruct b1, b2; cbn in H.
  - apply app_inj_2 in H; [| reflexivity].
    split; [apply list_ascii_of_string_inj, H | reflexivity].
  - apply (f_equal reverse) in H. rewrite !reverse_app in H. discriminate H.
  - apply (f_equal reverse) in H. rewrite !reverse_app in H. discriminate H.
  - apply app_inj_2 in H; [| reflexivity].
    split; [apply list_ascii_of_string_inj, H | reflexivity].
Qed.

(** X1: what is written for one URL and one boolean flag is never seen, nor
    touched, by a read for another URL or the other flag: the read returns
    what it would have returned without the write, and the write is still in
    the cache after it. *)
Theorem cache_entries_isolated (url url' : string) (b b' : bool) (d : value)
    (written now : Z) (cache : gmap string CacheEntry) :
  (url, b) ≠ (url', b') →
  let unwritten := getCachedData url' (VBool b') now cache in
  getCachedData url' (VBool b') now
    (setCachedData url (VBool b) d written cache)
  = (fst unwritten, setCachedData url (VBool b) d written (snd unwritten)).
Proof.
  intros Hne unwritten. subst unwritten.
  assert (cacheKey url (VBool b) ≠ cacheKey url' (VBool b')) as Hkeys.
  { intros Heq. apply cacheKey_inj in Heq as [-> ->]. apply Hne. reflexivity. }
  unfold getCachedData, setCachedData.
  rewrite lookup_insert_ne by exact Hkeys.
  destruct (cache !! cacheKey url' (VBool b')) as [cached |]; [| reflexivity].
  destruct (_ >? _); [| reflexivity].
  cbn [fst snd]. rewrite delete_insert_ne by congruence. reflexivity.
Qed.

Lemma cache_entries_isolated_witness :
  let song := VObj [("is_playing", VBool true)] in
  getCachedData "https://api.example.com/now-playing" (VBool false) 10
    (setCachedData "https://api.example.com/now-playing" (VBool true) song 0 ∅)
  = (VNull,
     setCachedData "https://api.example.com/now-playing" (VBool true) song 0 ∅).
Proof.
  intros song.
  rewrite (cache_entries_isolated "https://api.example.com/now-playing"
             "https://api.example.com/now-playing" true false song 0 10 ∅)
    by (intros [=]).
  reflexivity.
Defined.

(** X2: a read returns only what is stored under its key and never adds or
    alters an entry: every other key keeps its entry, and the key read keeps
    its entry or loses it; what is returned other than [null] is the data of
    the entry, which then stays. *)
Theorem getCachedData_only_evicts (url : string) (isPlaying : value) (now : Z)
    (cache : gmap string CacheEntry) :
  let result := fst (getCachedData url isPlaying now cache) in
  let cache' := snd (getCachedData url isPlaying now cache) in
  (∀ k, k ≠ cacheKey url isPlaying → cache' !! k = cache !! k) ∧
  (cache' !! cacheKey url isPlaying = cache !! cacheKey url isPlaying
   ∨ cache' !! cacheKey url isPlaying = None) ∧
  (result ≠ VNull →
   cache' = cache ∧
   ∃ cached, cache !! cacheKey url isPlaying = Some cached ∧
             data cached = result ∧
             now - timestamp cached <=
               (if truthy isPlaying then 5000 else 60000)).
Proof.
  intros result cache'. subst result cache'. unfold getCachedData.
  destruct (cache !! cacheKey url isPlaying) as [cached |] eqn:Hk; cbn.
  2: { split; [reflexivity |]. split; [right; exact Hk |].
       intros H. contradiction H. reflexivity. }
  destruct (Z.gtb_spec (now - timestamp cached)
              (if truthy isPlaying then CACHE_TTL_PLAYING else CACHE_TTL_PAUSED))
    as [Hexpired | Hfresh]; cbn.
  - split; [intros k Hne; apply lookup_delete_ne; congruence |].
    split; [right; apply lookup_delete_eq |].
    intros H. contradiction H. reflexivity.
  - split; [reflexivity |]. split; [left; congruence |].
    intros _. split; [reflexivity |].
    exists cached. split; [reflexivity |]. split; [reflexivity |].
    unfold CACHE_TTL_PLAYING, CACHE_TTL_PAUSED in Hfresh.
    destruct (truthy isPlaying); lia.
Qed.

Lemma getCachedData_only_evicts_witness :
  let song := VObj [("is_playing", VBool true)] in
  let cache := setCachedData "u" (VBool true) song 0 ∅ in
  snd (getCachedData "u" (VBool true) 3000 cache) = cache.
Proof.
  intros song cache.
  apply (getCachedData_only_evicts "u" (VBool true) 3000 cache).
  discriminate.
Defined.

End CacheKeys.

(** ** The runs of [fetchData] *)

Section FetchData.

Lemma getCachedData_hit (url : string) (isPlaying : value) (now : Z)
    (cache : gmap string CacheEntry) :
  truthy (fst (getCachedData url isPlaying now cache)) = true →
  snd (getCachedData url isPlaying now cache) = cache.
Proof.
  unfold getCachedData.
  destruct (cache !! cacheKey url isPlaying) as [cached |]; [| discriminate].
  destruct (_ >? _); [discriminate | reflexivity].
Qed.

Lemma fetchData_hit (apiUrl : string) (now1 now2 : Z)
    (net : FetchOutcome) (rnd : Q) (st : State) :
  truthy (fst (getCachedData apiUrl (isPlayingRef st) now1 (globalCache st)))
    = true →
  fetchData apiUrl false now1 net now2 rnd st =
  {| track := fst (getCachedData apiUrl (isPlayingRef st) now1 (globalCache st));
     loading := false; error := VNull; retryCountRef := 0;
     isPlayingRef := isPlayingRef st; globalCache := globalCache st;
     retryTimer := None |}.
Proof.
  intros Hhit. pose proof (getCachedData_hit _ _ _ _ Hhit) as Hcache.
  unfold fetchData.
  destruct (getCachedData apiUrl (isPlayingRef st) now1 (globalCache st))
    as [cachedData cache1].
  cbn [fst snd] in *. rewrite Hhit. cbn. rewrite Hcache. reflexivity.
Qed.

(** X3: a poll that finds a truthy value in the cache does not use the
    network: whatever the fetch would have given, the component shows the
    cached value, clears the error and the retry count, arms no retry and
    leaves the cache and the playing flag as they were. *)
Theorem fetchData_cache_hit (apiUrl : string) (now1 now2 : Z)
    (net : FetchOutcome) (rnd : Q) (st : State) :
  truthy (fst (getCachedData apiUrl (isPlayingRef st) now1 (globalCache st)))
    = true →
  fetchData apiUrl false now1 net now2 rnd st =
  {| track := fst (getCachedData apiUrl (isPlayingRef st) now1 (globalCache st));
     loading := false; error := VNull; retryCountRef := 0;
     isPlayingRef := isPlayingRef st; globalCache := globalCache st;
     retryTimer := None |}.
Proof. apply fetchData_hit. Qed.

Lemma fetchData_cache_hit_witness :
  let song := VObj [("is_playing", VBool true)] in
  let st :=
    {| track := VNull; loading := true; error := VStr "Failed to fetch";
       retryCountRef := 2; isPlayingRef := VBool true;
       globalCache := setCachedData "u" (VBool true) song 0 ∅;
       retryTimer := None |} in
  track (fetchData "u" false 4000 (Rejects (Error "TypeError" "Failed to fetch"))
           0 0%Q st) = song.
Proof.
  intros song st.
  rewrite (fetchData_cache_hit "u" 4000 0
             (Rejects (Error "TypeError" "Failed to fetch")) 0%Q st eq_refl).
  reflexivity.
Defined.

(** A retry run always goes to the network: its cache lookup is not used. *)
Lemma retry_misses (cachedData : value) : truthy cachedData && negb true = false.
Proof. apply andb_false_r. Qed.

(** X4: what a run stores after an accepted body is what the next poll
    finds: for a truthy body, a poll made no later than the TTL of the body's
    flag after the store (5000 ms when is_playing is truthy, 60000 ms
    otherwise) leaves the component exactly as it is, whatever the network
    would have answered. *)
Theorem fetchData_then_poll (apiUrl : string) (isRetry : bool)
    (now1 now2 now3 now4 : Z) (net net' : FetchOutcome) (rnd rnd' : Q)
    (st : State) (jsonData flag : value) :
  truthy (fst (getCachedData apiUrl (isPlayingRef st) now1 (globalCache st)))
    && negb isRetry = false →
  readResponse net = Ok jsonData →
  prop jsonData "is_playing" = Ok flag →
  truthy jsonData = true →
  now3 - now2 <= (if truthy flag then 5000 else 60000) →
  let st' := fetchData apiUrl isRetry now1 net now2 rnd st in
  track st' = jsonData ∧
  fetchData apiUrl false now3 net' now4 rnd' st' = st'.
Proof.
  intros Hmiss Hok Hflag Htruthy Hage st'.
  assert (st' =
          {| track := jsonData; loading := false; error := VNull;
             retryCountRef := 0; isPlayingRef := Js.or flag (VBool false);
             globalCache :=
               setCachedData apiUrl (Js.or flag (VBool false)) jsonData now2
                 (snd (getCachedData apiUrl (isPlayingRef st) now1
                         (globalCache st)));
             retryTimer := None |}) as Hst'.
  { subst st'. unfold fetchData.
    destruct (getCachedData apiUrl (isPlayingRef st) now1 (globalCache st))
      as [cachedData cache1].
    cbn [fst snd] in *. rewrite Hmiss, Hok. cbn. rewrite Hflag. reflexivity. }
  split; [rewrite Hst'; reflexivity |].
  assert (getCachedData apiUrl (isPlayingRef st') now3 (globalCache st')
          = (jsonData, globalCache st')) as Hread.
  { rewrite Hst'. cbn [isPlayingRef globalCache].
    rewrite getCachedData_written. cbv zeta.
    rewrite truthy_or_false.
    unfold CACHE_TTL_PLAYING, CACHE_TTL_PAUSED.
    destruct (Z.gtb_spec (now3 - now2)
                (if truthy flag then 5 * 1000 else 60 * 1000));
      [destruct (truthy flag); lia | reflexivity]. }
  rewrite (fetchData_hit apiUrl now3 now4 net' rnd' st')
    by (rewrite Hread; exact Htruthy).
  rewrite Hread. cbn [fst]. rewrite Hst'. reflexivity.
Qed.

Lemma fetchData_then_poll_witness :
  let song := VObj [("is_playing", VBool true)] in
  let net :=
    Resolves {| status := 200; retryAfter := None; json := Ok song |} in
  let down := Rejects (Error "TypeError" "Failed to fetch") in
  let st' := fetchData "u" false 0 net 10 0%Q initialState in
  track st' = song ∧ fetchData "u" false 5010 down 5020 0%Q st' = st'.
Proof.
  intros song net down st'.
  apply (fetchData_then_poll "u" false 0 10 5010 5020 net down 0%Q 0%Q
           initialState song (VBool true));
    first [reflexivity | cbn; lia].
Defined.

End FetchData.

(** ** The retries of the widget *)

Section RetryChain.

Import Timers.

Context (apiUrl : string).

(** A retry run ends in one of two ways: accepted, with the count back at 0
    and no timer, or refused, with the count kept and the timer armed while
    the count is below 3. *)
Lemma fetchData_retry_outcome (now1 now2 : Z) (net : FetchOutcome) (rnd : Q)
    (st : State) :
  let st' := fetchData apiUrl true now1 net now2 rnd st in
  (retryTimer st' = None ∧ retryCountRef st' = 0) ∨
  (retryCountRef st' = retryCountRef st ∧
   retryTimer st' =
     if retryCountRef st <? 3
     then Some (getRetryDelay (retryCountRef st) rnd) else None).
Proof.
  unfold fetchData.
  destruct (getCachedData apiUrl (isPlayingRef st) now1 (globalCache st))
    as [cachedData cache1].
  rewrite andb_false_r.
  destruct (readResponse net ≫= _) as [[jsonData playing] | err]; cbn.
  - left. split; reflexivity.
  - right. split; reflexivity.
Qed.

Lemma chain_unarmed (runs : list Run) (st : State) :
  retryTimer st = None → snd (chain apiUrl runs st) = [].
Proof. intros H. destruct runs; cbn; [| rewrite H]; reflexivity. Qed.

Lemma chain_delays (runs : list Run) :
  ∀ (st : State) (n : Z),
    retryCountRef st = n → 0 <= n →
    (∀ d, retryTimer st = Some d →
          n < 3 ∧ ∃ r, in_unit r ∧ d = getRetryDelay n r) →
    Forall (λ run, in_unit (rnd run)) runs →
    ∀ (i : nat) (d : Q),
      snd (chain apiUrl runs st) !! i = Some d →
      n + Z.of_nat i < 3 ∧
      ∃ r, in_unit r ∧ d = getRetryDelay (n + Z.of_nat i) r.
Proof.
  induction runs as [| run rest IH]; intros st n Hn Hpos Harmed Hrnds i d Hd.
  { cbn in Hd. discriminate Hd. }
  cbn [chain] in Hd.
  destruct (retryTimer st) as [d0 |] eqn:Htimer; [| discriminate Hd].
  destruct (chain apiUrl rest _) as [st' delays] eqn:Hrest.
  cbn [snd] in Hd.
  destruct i as [| j]; cbn in Hd.
  - injection Hd as <-. rewrite Z.add_0_r. apply Harmed. reflexivity.
  - destruct (Harmed d0 eq_refl) as (Hlt & _).
    apply Forall_cons in Hrnds as [Hrun Hrnds].
    assert (delays = snd (chain apiUrl rest
              (retryFire apiUrl (now1 run) (net run) (now2 run) (rnd run) st)))
      as Hdelays by (rewrite Hrest; reflexivity).
    unfold retryFire in Hdelays.
    pose proof (fetchData_retry_outcome (now1 run) (now2 run) (net run)
                  (rnd run)
                  {| track := track st; loading := loading st;
                     error := error st; retryCountRef := retryCountRef st + 1;
                     isPlayingRef := isPlayingRef st;
                     globalCache := globalCache st;
                     retryTimer := retryTimer st |}) as Hout.
    cbv zeta in Hout. cbn [retryCountRef] in Hout.
    destruct Hout as [(Hnone & _) | (Hcount & Hnext)].
    + rewrite chain_unarmed in Hdelays by exact Hnone.
      subst delays. discriminate Hd.
    + rewrite Hdelays in Hd.
      destruct (IH _ (n + 1) ltac:(rewrite Hcount; lia) ltac:(lia)) with
        (i := j) (d := d) as (Hbound & r & Hr & Heq).
      * intros d1 Hd1. rewrite Hnext, Hn in Hd1.
        destruct (Z.ltb_spec (n + 1) 3); [| discriminate Hd1].
        injection Hd1 as <-. split; [assumption |].
        exists (rnd run). split; [exact Hrun | reflexivity].
      * exact Hrnds.
      * exact Hd.
      * split; [lia |]. exists r. split; [exact Hr |].
        rewrite Heq. f_equal. lia.
Qed.

(** X5: after a poll that fails with the retry count at 0, at most three
    retries follow one another; the i-th is armed with [getRetryDelay(i)] for
    a draw of [Math.random()], which lies between min(1000 * 2^i, 30000) ms
    and 1000 ms more, and the delays together do not exceed 10000 ms. *)
Theorem retry_chain_bounded (isRetry : bool) (now1 now2 : Z)
    (net : FetchOutcome) (rnd : Q) (err : Js.error) (st : State)
    (runs : list Run) :
  truthy (fst (getCachedData apiUrl (isPlayingRef st) now1 (globalCache st)))
    && negb isRetry = false →
  readResponse net = Throw err →
  retryCountRef st = 0 →
  in_unit rnd →
  Forall (λ run, in_unit (Timers.rnd run)) runs →
  let failed := fetchData apiUrl isRetry now1 net now2 rnd st in
  let delays := snd (chain apiUrl runs failed) in
  (length delays ≤ 3)%nat ∧
  (∀ i d, delays !! i = Some d →
          ∃ r, in_unit r ∧ d = getRetryDelay (Z.of_nat i) r ∧
               (inject_Z (backoff (Z.of_nat i)) <= d)%Q ∧
               (d <= inject_Z (backoff (Z.of_nat i)) + 1000)%Q) ∧
  (total delays <= 10000)%Q.
Proof.
  intros Hmiss Hthrow Hcount Hrnd Hrnds failed delays.
  destruct (fetchData_failed apiUrl isRetry now1 now2 net rnd st err Hmiss
              Hthrow) as (_ & _ & _ & Htimer).
  cbv zeta in Htimer. fold failed in Htimer. rewrite Hcount in Htimer.
  cbn in Htimer.
  assert (retryCountRef failed = 0) as Hcount'.
  { subst failed. unfold fetchData.
    destruct (getCachedData _ _ _ _) as [cachedData cache1].
    cbn [fst] in Hmiss. rewrite Hmiss, Hthrow. cbn. exact Hcount. }
  assert (∀ i d, delays !! i = Some d →
                 0 + Z.of_nat i < 3 ∧
                 ∃ r, in_unit r ∧ d = getRetryDelay (0 + Z.of_nat i) r)
    as Hdelays.
  { apply (chain_delays runs failed 0 Hcount' ltac:(lia)); [| exact Hrnds].
    intros d Hd. rewrite Htimer in Hd. injection Hd as <-.
    split; [lia |]. exists rnd. split; [exact Hrnd | reflexivity]. }
  assert (length delays ≤ 3)%nat as Hlen.
  { destruct (decide (length delays ≤ 3)%nat) as [| Hlong]; [assumption |].
    destruct (lookup_lt_is_Some_2 delays 3 ltac:(lia)) as [d Hd].
    destruct (Hdelays 3%nat d Hd) as (Hbound & _). lia. }
  assert (∀ i d, delays !! i = Some d →
                 (i < 3)%nat ∧
                 ∃ r, in_unit r ∧ d = getRetryDelay (Z.of_nat i) r ∧
                      (inject_Z (backoff (Z.of_nat i)) <= d)%Q ∧
                      (d <= inject_Z (backoff (Z.of_nat i)) + 1000)%Q)
    as Hranges.
  { intros i d Hd. destruct (Hdelays i d Hd) as (Hi & r & [Hlo Hhi] & ->).
    split; [lia |]. exists r. rewrite Z.add_0_l.
    destruct (getRetryDelay_range (Z.of_nat i) r ltac:(lia) Hlo Hhi)
      as (_ & _ & Hd0 & Hd1).
    split; [split; assumption |]. split; [reflexivity |].
    split; assumption. }
  split; [exact Hlen |]. split.
  { intros i d Hd. apply (Hranges i d Hd). }
  assert (∀ i d, delays !! i = Some d →
                 (d <= inject_Z (backoff (Z.of_nat i)) + 1000)%Q ∧ (i < 3)%nat)
    as Hsmall.
  { intros i d Hd. destruct (Hranges i d Hd) as (Hi & r & _ & _ & _ & Hd1).
    split; assumption. }
  clear Hranges.
  clearbody delays. clear Hdelays.
  destruct delays as [| d0 [| d1 [| d2 [| d3 rest]]]]; cbn in Hlen; try lia;
    unfold total; cbn [foldr].
  - lra.
  - destruct (Hsmall 0%nat d0 eq_refl) as [H0 _].
    change (inject_Z (backoff (Z.of_nat 0))) with 1000%Q in H0. lra.
  - destruct (Hsmall 0%nat d0 eq_refl) as [H0 _].
    destruct (Hsmall 1%nat d1 eq_refl) as [H1 _].
    change (inject_Z (backoff (Z.of_nat 0))) with 1000%Q in H0.
    change (inject_Z (backoff (Z.of_nat 1))) with 2000%Q in H1. lra.
  - destruct (Hsmall 0%nat d0 eq_refl) as [H0 _].
    destruct (Hsmall 1%nat d1 eq_refl) as [H1 _].
    destruct (Hsmall 2%nat d2 eq_refl) as [H2 _].
    change (inject_Z (backoff (Z.of_nat 0))) with 1000%Q in H0.
    change (inject_Z (backoff (Z.of_nat 1))) with 2000%Q in H1.
    change (inject_Z (backoff (Z.of_nat 2))) with 4000%Q in H2. lra.
Qed.

End RetryChain.

Lemma retry_chain_bounded_witness :
  let down := Rejects (Error "TypeError" "Failed to fetch") in
  let runs :=
    [{| Timers.now1 := 1500; Timers.net := down; Timers.now2 := 1500;
        Timers.rnd := 0%Q |};
     {| Timers.now1 := 4000; Timers.net := down; Timers.now2 := 4000;
        Timers.rnd := 0%Q |}] in
  let failed := fetchData "u" false 0 down 0 (1 # 2) initialState in
  length (snd (Timers.chain "u" runs failed)) = 2%nat ∧
  (Timers.total (snd (Timers.chain "u" runs failed)) <= 10000)%Q.
Proof.
  intros down runs failed. split; [reflexivity |].
  assert (Timers.in_unit 0%Q) as Hzero
    by (split; [unfold Qle | unfold Qlt]; simpl; lia).
  assert (Timers.in_unit (1 # 2)) as Hhalf
    by (split; [unfold Qle | unfold Qlt]; simpl; lia).
  apply (retry_chain_bounded "u" false 0 0 down (1 # 2)
           (Error "TypeError" "Failed to fetch") initialState runs
           eq_refl eq_refl eq_refl Hhalf).
  constructor; [exact Hzero | constructor; [exact Hzero | constructor]].
Defined.

(** ** From the upstream track to what the widget shows *)

Section TrackShown.

Import Server.

Lemma or_defined (a b : value) : b ≠ VUndef → Js.or a b ≠ VUndef.
Proof.
  intros Hb. unfold Js.or. destruct (truthy a) eqn:Ha; [| exact Hb].
  intros ->. discriminate Ha.
Qed.

Lemma truthy_or (a b : value) : truthy b = true → truthy (Js.or a b) = true.
Proof. intros Hb. unfold Js.or. destruct (truthy a) eqn:Ha; assumption. Qed.

Lemma truthy_serialize (v : value) : truthy (serialize v) = truthy v.
Proof. destruct v; reflexivity. Qed.

Lemma is_str_serialize (v : value) (s : string) :
  is_str (serialize v) s = is_str v s.
Proof. destruct v; reflexivity. Qed.

(** [JSON.stringify] on an object none of whose values is [undefined]
    serializes the values and keeps every property. *)
Lemma serialize_defined (fields : list (string * value)) :
  Forall (λ kv, snd kv ≠ VUndef) fields →
  serialize (VObj fields) = VObj ((λ kv, (fst kv, serialize (snd kv))) <$> fields).
Proof.
  intros Hdef. cbn [serialize]. f_equal.
  induction Hdef as [| [k v] rest Hv _ IH]; [reflexivity |].
  cbn [fst snd] in Hv. cbn [fmap list_fmap fst snd]. rewrite <- IH.
  destruct v; try reflexivity. contradiction Hv. reflexivity.
Qed.

Lemma assoc_serialized (k : string) (fields : list (string * value)) :
  assoc k ((λ kv, (fst kv, serialize (snd kv))) <$> fields)
  = serialize (assoc k fields).
Proof.
  induction fields as [| [k' v] rest IH]; [reflexivity |].
  cbn. destruct (String.eqb k k'); [reflexivity | exact IH].
Qed.

Lemma itemFields_ok (item names : value) :
  truthy item = true →
  optArtistNames (optprop item "artists") = Ok names →
  itemFields item =
  Ok [("name", Js.or (optprop item "name") (VStr "Unknown Track"));
      ("artists", Js.or names (VArr [VStr "Unknown Artist"]));
      ("duration_ms", Js.or (optprop item "duration_ms") (VNum 0));
      ("album",
       VObj [("name", Js.or (optprop (optprop item "album") "name")
                        (VStr "Unknown Album"));
             ("images", Js.or (optprop (optprop item "album") "images")
                          (VArr []))]);
      ("external_urls", Js.or (optprop item "external_urls") (VObj []))].
Proof.
  intros Hitem Hnames. unfold itemFields.
  rewrite !(prop_truthy item _ Hitem). cbn [mbind result_bind Js.bind].
  rewrite Hnames. reflexivity.
Qed.

(** The body the production handler sends for a playing track. *)
Lemma shapePlayback_track (hs : list (string * string))
    (apiData names : value) :
  truthy (optprop apiData "is_playing") = true →
  is_str (optprop (optprop apiData "item") "type") "track" = true →
  optArtistNames (optprop (optprop apiData "item") "artists") = Ok names →
  let item := optprop apiData "item" in
  shapePlayback hs apiData =
  Ok (sendJson 200
        (setHeader "Cache-Control" "s-maxage=5, stale-while-revalidate" hs)
        (VObj [("is_playing", VBool true);
               ("progress_ms", Js.or (optprop apiData "progress_ms") (VNum 0));
               ("currently_playing_type",
                Js.or (optprop apiData "currently_playing_type") (VStr "track"));
               ("item",
                VObj [("name", Js.or (optprop item "name") (VStr "Unknown Track"));
                      ("artists", Js.or names (VArr [VStr "Unknown Artist"]));
                      ("duration_ms", Js.or (optprop item "duration_ms") (VNum 0));
                      ("album",
                       VObj [("name",
                              Js.or (optprop (optprop item "album") "name")
                                (VStr "Unknown Album"));
                             ("images",
                              Js.or (optprop (optprop item "album") "images")
                                (VArr []))]);
                      ("external_urls",
                       Js.or (optprop item "external_urls") (VObj []));
                      ("id", Js.or (optprop item "id") VNull);
                      ("type", Js.or (optprop item "type") (VStr "track"))])])).
Proof.
  intros Hplaying Htype Hnames item. subst item.
  assert (truthy (optprop apiData "item") = true) as Hitem.
  { destruct (optprop apiData "item"); try reflexivity; discriminate Htype. }
  unfold shapePlayback.
  rewrite !(prop_of_truthy_field apiData "is_playing" _ Hplaying).
  cbn [mbind result_bind Js.bind]. rewrite Hplaying. cbn [negb].
  rewrite Hitem. cbn [negb].
  rewrite !(prop_truthy _ _ Hitem). cbn [mbind result_bind Js.bind].
  rewrite Htype. cbn [negb].
  rewrite (itemFields_ok _ names Hitem Hnames).
  reflexivity.
Qed.

(** X6: for an upstream 200 body that plays a track (item type "track", the
    artists readable, not marked as an episode), the production handler
    replies 200 with s-maxage=5, and the widget that receives the reply shows
    the track view with the upstream's track and album names, or "Unknown
    Track" and "Unknown Album" where the upstream gives none. *)
Theorem production_track_shown (env : Env)
    (tokenResponse apiResponse : Response)
    (tokenData access_token apiData names : value) :
  isSet (SPOTIFY_CLIENT_ID env) = true →
  isSet (SPOTIFY_CLIENT_SECRET env) = true →
  isSet (SPOTIFY_REFRESH_TOKEN env) = true →
  ok tokenResponse = true →
  json tokenResponse = Ok tokenData →
  prop tokenData "access_token" = Ok access_token →
  truthy access_token = true →
  status apiResponse = 200 →
  json apiResponse = Ok apiData →
  truthy (optprop apiData "is_playing") = true →
  is_str (optprop (optprop apiData "item") "type") "track" = true →
  optArtistNames (optprop (optprop apiData "item") "artists") = Ok names →
  is_str (optprop apiData "currently_playing_type") "episode" = false →
  let item := optprop apiData "item" in
  let reply :=
    productionHandler "GET" env (Resolves tokenResponse) (Resolves apiResponse) in
  code reply = 200 ∧
  getHeader "Cache-Control" (headers reply)
    = Some "s-maxage=5, stale-while-revalidate" ∧
  ∀ apiUrl isRetry now1 now2 rnd st,
    truthy (fst (getCachedData apiUrl (isPlayingRef st) now1 (globalCache st)))
      && negb isRetry = false →
    render (fetchData apiUrl isRetry now1 (delivered reply) now2 rnd st)
    = TrackView
        (serialize (Js.or (optprop item "name") (VStr "Unknown Track")))
        (serialize (Js.or (optprop (optprop item "album") "name")
                      (VStr "Unknown Album"))).
Proof.
  intros Hid Hsecret Hrefresh Hok Hjson Haccess Htoken Hstatus Hbody
         Hplaying Htype Hnames Hepisode item reply.
  pose proof (shapePlayback_track
                (hardened (openCors "Content-Type, Authorization"))
                apiData names Hplaying Htype Hnames) as Hshape.
  cbv zeta in Hshape. fold item in Hshape.
  set (nowPlaying := VObj _) in Hshape.
  assert (reply =
          sendJson 200
            (setHeader "Cache-Control" "s-maxage=5, stale-while-revalidate"
               (hardened (openCors "Content-Type, Authorization")))
            nowPlaying) as ->.
  { subst reply. unfold productionHandler.
    cbn -[hardened openCors setHeader sendJson shapePlayback].
    rewrite Hid, Hsecret, Hrefresh, Hok.
    cbn -[hardened openCors setHeader sendJson shapePlayback].
    rewrite Hjson. cbn -[hardened openCors setHeader sendJson shapePlayback].
    rewrite Haccess. cbn -[hardened openCors setHeader sendJson shapePlayback].
    rewrite Htoken, Hstatus.
    cbn -[hardened openCors setHeader sendJson shapePlayback].
    unfold ok. rewrite Hstatus.
    cbn -[hardened openCors setHeader sendJson shapePlayback].
    rewrite Hbody. cbn -[hardened openCors setHeader sendJson shapePlayback].
    rewrite Hshape. reflexivity. }
  split; [reflexivity |]. split; [reflexivity |].
  intros apiUrl isRetry now1 now2 rnd st Hmiss.
  (* the body as the widget parses it *)
  set (names' := Js.or names (VArr [VStr "Unknown Artist"])) in *.
  set (shown :=
         [("name", Js.or (optprop item "name") (VStr "Unknown Track"));
          ("artists", names');
          ("duration_ms", Js.or (optprop item "duration_ms") (VNum 0));
          ("album",
           VObj [("name",
                  Js.or (optprop (optprop item "album") "name")
                    (VStr "Unknown Album"));
                 ("images",
                  Js.or (optprop (optprop item "album") "images") (VArr []))]);
          ("external_urls", Js.or (optprop item "external_urls") (VObj []));
          ("id", Js.or (optprop item "id") VNull);
          ("type", Js.or (optprop item "type") (VStr "track"))]) in *.
  assert (Forall (λ kv, snd kv ≠ VUndef) shown) as Hshown.
  { subst shown names'.
    repeat (constructor; [cbn [snd]; first [apply or_defined | idtac]; discriminate |]).
    constructor. }
  assert (Forall (λ kv, snd kv ≠ VUndef)
            [("name",
              Js.or (optprop (optprop item "album") "name") (VStr "Unknown Album"));
             ("images",
              Js.or (optprop (optprop item "album") "images") (VArr []))])
    as Halbum.
  { repeat (constructor; [cbn [snd]; apply or_defined; discriminate |]).
    constructor. }
  assert (Forall (λ kv, snd kv ≠ VUndef)
            [("is_playing", VBool true);
             ("progress_ms", Js.or (optprop apiData "progress_ms") (VNum 0));
             ("currently_playing_type",
              Js.or (optprop apiData "currently_playing_type") (VStr "track"));
             ("item", VObj shown)]) as Htop.
  { repeat (constructor; [cbn [snd]; first [apply or_defined | idtac]; discriminate |]).
    constructor. }
  set (jsonData := serialize nowPlaying).
  assert (optprop jsonData "is_playing" = VBool true) as Hflag.
  { subst jsonData nowPlaying. rewrite (serialize_defined _ Htop).
    cbn [optprop]. rewrite assoc_serialized. reflexivity. }
  assert (optprop jsonData "currently_playing_type" =
          serialize (Js.or (optprop apiData "currently_playing_type")
                       (VStr "track"))) as Hcpt.
  { subst jsonData nowPlaying. rewrite (serialize_defined _ Htop).
    cbn [optprop]. rewrite assoc_serialized. reflexivity. }
  assert (optprop jsonData "item" = serialize (VObj shown)) as Hitem'.
  { subst jsonData nowPlaying. rewrite (serialize_defined _ Htop).
    cbn [optprop]. rewrite assoc_serialized. reflexivity. }
  assert (∀ k, optprop (serialize (VObj shown)) k = serialize (assoc k shown))
    as Hread.
  { intros k. rewrite (serialize_defined _ Hshown). cbn [optprop].
    apply assoc_serialized. }
  destruct (fetchData_succeeded apiUrl isRetry now1 now2
              (delivered
                 (sendJson 200
                    (setHeader "Cache-Control"
                       "s-maxage=5, stale-while-revalidate"
                       (hardened (openCors "Content-Type, Authorization")))
                    nowPlaying))
              rnd st jsonData (VBool true) Hmiss eq_refl)
    as (Htrack & Herror & _ & Hloading & _).
  { rewrite (prop_of_truthy_field jsonData "is_playing" "is_playing")
      by (rewrite Hflag; reflexivity).
    rewrite Hflag. reflexivity. }
  cbv zeta in Htrack, Herror, Hloading.
  unfold render. rewrite Hloading, Herror, Htrack. cbn [truthy].
  rewrite Hflag. cbn [truthy negb orb].
  assert (isPodcast jsonData = false) as ->.
  { unfold isPodcast. rewrite Hcpt, Hitem', !Hread.
    rewrite !is_str_serialize, !truthy_serialize.
    assert (is_str (Js.or (optprop apiData "currently_playing_type")
                      (VStr "track")) "episode" = false) as ->.
    { unfold Js.or.
      destruct (truthy (optprop apiData "currently_playing_type"));
        [exact Hepisode | reflexivity]. }
    assert (is_str (assoc "type" shown) "episode" = false) as ->.
    { subst shown. cbn. fold item in Htype.
      destruct (optprop item "type") as [| | | | ty | |];
        try discriminate Htype.
      cbn in Htype. apply String.eqb_eq in Htype as ->. reflexivity. }
    assert (truthy (assoc "artists" shown) = true) as ->.
    { subst shown names'. cbn. apply truthy_or. reflexivity. }
    rewrite !andb_false_r. reflexivity. }
  rewrite Hitem', !Hread.
  assert (assoc "name" shown = Js.or (optprop item "name") (VStr "Unknown Track"))
    as -> by reflexivity.
  assert (assoc "album" shown =
          VObj [("name",
                 Js.or (optprop (optprop item "album") "name")
                   (VStr "Unknown Album"));
                ("images",
                 Js.or (optprop (optprop item "album") "images") (VArr []))])
    as -> by reflexivity.
  rewrite (serialize_defined _ Halbum). cbn [optprop].
  rewrite assoc_serialized.
  cbn [assoc String.eqb Ascii.eqb Bool.eqb fst snd fmap list_fmap].
  f_equal.
  - unfold Js.or at 1. rewrite truthy_serialize, truthy_or by reflexivity.
    reflexivity.
  - cbn. unfold Js.or at 1.
    rewrite truthy_serialize, truthy_or by reflexivity. reflexivity.
Qed.

End TrackShown.

Lemma production_track_shown_witness :
  let env :=
    {| Server.SPOTIFY_CLIENT_ID := Some "id";
       Server.SPOTIFY_CLIENT_SECRET := Some "secret";
       Server.SPOTIFY_REFRESH_TOKEN := Some "refresh" |} in
  let tokenResponse :=
    {| status := 200; retryAfter := None;
       json := Ok (VObj [("access_token", VStr "BQD")]) |} in
  let song :=
    VObj [("is_playing", VBool true);
          ("item", VObj [("type", VStr "track"); ("name", VStr "A song");
                         ("artists", VArr [VObj [("name", VStr "A band")]])])] in
  let apiResponse := {| status := 200; retryAfter := None; json := Ok song |} in
  let reply :=
    Server.productionHandler "GET" env (Resolves tokenResponse)
      (Resolves apiResponse) in
  render (fetchData "/api" false 0 (delivered reply) 0 0%Q initialState)
  = TrackView (VStr "A song") (VStr "Unknown Album").
Proof.
  intros env tokenResponse song apiResponse reply.
  destruct (production_track_shown env tokenResponse apiResponse
              (VObj [("access_token", VStr "BQD")]) (VStr "BQD") song
              (VArr [VStr "A band"])
              eq_refl eq_refl eq_refl eq_refl eq_refl eq_refl eq_refl
              eq_refl eq_refl eq_refl eq_refl eq_refl eq_refl)
    as (_ & _ & Hshown).
  exact (Hshown "/api" false 0 0 0%Q initialState eq_refl).
Defined.

(** ** The deduplication map over every interleaving *)

Section Interleavings.

Import Coalescer Interleaving.
Local Open Scope nat_scope.

Lemma invariant_emptyRuntime : invariant emptyRuntime.
Proof.
  split; [exact wf_emptyRuntime |]. split.
  - intros r k Hr. unfold pending in Hr. cbn in Hr. discriminate.
  - intros c cl Hc. cbn in Hc. discriminate.
Qed.

Lemma deduplicatedFetch_invariant (k : string) (rt : Runtime) :
  invariant rt → invariant (snd (deduplicatedFetch k rt)).
Proof.
  intros (Hwf & Hpending & Hcallers).
  split; [apply deduplicatedFetch_wf; exact Hwf |].
  unfold deduplicatedFetch, pending in *.
  destruct (pendingRequests rt !! k) as [r0 |] eqn:Hk; cbn; split.
  - exact Hpending.
  - intros c cl Hc. apply lookup_app_Some in Hc as [Hc | [_ Hc]].
    + apply (Hcallers c cl Hc).
    + apply list_lookup_singleton_Some in Hc as [_ <-]. cbn.
      rewrite (Hwf _ _ Hk). eexists. split; reflexivity.
  - intros r k' Hr. apply lookup_app_Some in Hr as [Hr | [Hge Hr]].
    + pose proof (Hpending _ _ Hr) as Hreg.
      rewrite lookup_insert_ne; [exact Hreg | congruence].
    + apply list_lookup_singleton_Some in Hr as [Hlen [= <-]].
      rewrite lookup_insert_eq. f_equal. lia.
  - intros c cl Hc. apply lookup_app_Some in Hc as [Hc | [_ Hc]].
    + destruct (Hcallers c cl Hc) as (req & Hreq & Hres).
      exists req. split; [| exact Hres].
      apply lookup_app_l_Some. exact Hreq.
    + apply list_lookup_singleton_Some in Hc as [_ <-]. cbn.
      eexists. split; [apply list_lookup_middle; reflexivity | reflexivity].
Qed.

Lemma settle_invariant (r : nat) (o : FetchOutcome) (rt : Runtime) :
  invariant rt → invariant (settle r o rt).
Proof.
  intros (Hwf & Hpending & Hcallers).
  split; [apply settle_wf; exact Hwf |].
  unfold settle, pending in *.
  destruct (requests rt !! r) as [[k [o' |]] |] eqn:Hr;
    try (split; assumption).
  cbn. split.
  - intros r' k' Hr'.
    destruct (decide (r' = r)) as [-> | Hne].
    + rewrite list_lookup_insert_eq in Hr'
        by (apply lookup_lt_is_Some; eauto).
      discriminate Hr'.
    + rewrite list_lookup_insert_ne in Hr' by congruence.
      pose proof (Hpending _ _ Hr') as Hreg.
      rewrite lookup_delete_ne; [exact Hreg |].
      intros <-. pose proof (Hpending _ _ Hr) as Hreg'. congruence.
  - intros c cl Hc. rewrite list_lookup_fmap in Hc.
    destruct (callers rt !! c) as [cl0 |] eqn:Hc0; [| discriminate].
    cbn in Hc. injection Hc as <-.
    destruct (Hcallers c cl0 Hc0) as (req & Hreq & Hres).
    destruct (Nat.eqb_spec (awaits cl0) r) as [Heq | Hne]; cbn.
    + exists {| key := k; outcome := Some o |}. split; [| reflexivity].
      apply list_lookup_insert_eq. apply lookup_lt_is_Some. eauto.
    + exists req. split; [| exact Hres].
      rewrite list_lookup_insert_ne by congruence. exact Hreq.
Qed.

Lemma run_invariant (ops : list Op) (rt : Runtime) :
  invariant rt → invariant (run ops rt).
Proof.
  revert rt. induction ops as [| op ops IH]; intros rt Hinv; [exact Hinv |].
  cbn. apply IH. destruct op as [k | r o]; cbn.
  - apply deduplicatedFetch_invariant. exact Hinv.
  - apply settle_invariant. exact Hinv.
Qed.

(** X7: whatever calls and settlements took place, in whatever order, at
    most one fetch per key is in flight: two requests made for the same key
    that have both not settled are the same request, the one the map
    registers for the key. *)
Theorem one_fetch_in_flight (ops : list Op) (k : string) (r1 r2 : nat) :
  let rt := run ops emptyRuntime in
  pending r1 k rt → pending r2 k rt →
  r1 = r2 ∧ pendingRequests rt !! k = Some r1.
Proof.
  intros rt H1 H2.
  destruct (run_invariant ops emptyRuntime invariant_emptyRuntime)
    as (_ & Hpending & _).
  pose proof (Hpending _ _ H1) as Hreg1.
  pose proof (Hpending _ _ H2) as Hreg2.
  fold rt in Hreg1, Hreg2. split; [congruence | exact Hreg1].
Qed.

Lemma one_fetch_in_flight_witness :
  let ops := [Call "a-{}"; Call "b-{}"; Call "a-{}";
              Settle 0 (Rejects (Error "TypeError" "Failed to fetch"));
              Call "a-{}"; Call "a-{}"] in
  let rt := run ops emptyRuntime in
  pending 2 "a-{}" rt ∧ fetchCount rt = 3 ∧
  pendingRequests rt !! "a-{}" = Some 2.
Proof.
  intros ops rt.
  split; [reflexivity |]. split; [reflexivity |].
  exact (proj2 (one_fetch_in_flight ops "a-{}" 2 2 eq_refl eq_refl)).
Defined.

(** X8: whatever calls and settlements took place before, a call of
    [deduplicatedFetch] hands its caller a promise that awaits a request made
    for the caller's own key which has not settled yet, and the call starts a
    fetch only if no request for the key is in flight. *)
Theorem deduplicatedFetch_own_key (ops : list Op) (k : string) :
  let rt := run ops emptyRuntime in
  let c := fst (deduplicatedFetch k rt) in
  let rt' := snd (deduplicatedFetch k rt) in
  (∃ r, callers rt' !! c = Some {| awaits := r; resolved := None |} ∧
        pending r k rt' ∧
        pendingRequests rt' !! k = Some r) ∧
  ((∃ r, pending r k rt) ∧ fetchCount rt' = fetchCount rt ∨
   (∀ r, ¬ pending r k rt) ∧ fetchCount rt' = S (fetchCount rt)).
Proof.
  intros rt c rt'.
  destruct (run_invariant ops emptyRuntime invariant_emptyRuntime)
    as (Hwf & Hpending & _).
  fold rt in Hwf, Hpending.
  subst c rt'. unfold deduplicatedFetch, pending in *.
  destruct (pendingRequests rt !! k) as [r |] eqn:Hk;
    cbn [fst snd callers requests pendingRequests]; unfold fetchCount; cbn.
  - pose proof (Hwf _ _ Hk) as Hr. split.
    + exists r. rewrite Hr. cbn.
      split; [apply list_lookup_middle; reflexivity |].
      split; [reflexivity | exact Hk].
    + left. split; [exists r; exact Hr | reflexivity].
  - split.
    + exists (length (requests rt)).
      split; [apply list_lookup_middle; reflexivity |].
      split; [apply list_lookup_middle; reflexivity |].
      apply lookup_insert_eq.
    + right. split.
      * intros r Hr. rewrite (Hpending _ _ Hr) in Hk. discriminate.
      * rewrite length_app. cbn. lia.
Qed.

(** X9: whatever calls and settlements took place, every promise handed to
    a caller is pending exactly as long as the request it awaits is, and once
    that request settled it carries the request's outcome, fulfilled or
    rejected. *)
Theorem caller_follows_request (ops : list Op) (c : nat) (cl : Caller) :
  let rt := run ops emptyRuntime in
  callers rt !! c = Some cl →
  ∃ req, requests rt !! awaits cl = Some req ∧ resolved cl = outcome req.
Proof.
  intros rt Hc.
  destruct (run_invariant ops emptyRuntime invariant_emptyRuntime)
    as (_ & _ & Hcallers).
  exact (Hcallers c cl Hc).
Qed.

Lemma caller_follows_request_witness :
  let failed := Rejects (Error "TypeError" "Failed to fetch") in
  let ops := [Call "a-{}"; Call "a-{}"; Settle 0 failed; Call "a-{}"] in
  let rt := run ops emptyRuntime in
  callers rt !! 1 = Some {| awaits := 0; resolved := Some failed |} ∧
  ∃ req, requests rt !! 0 = Some req ∧ Some failed = outcome req.
Proof.
  intros failed ops rt.
  split; [reflexivity |].
  exact (caller_follows_request ops 1
           {| awaits := 0; resolved := Some failed |} eq_refl).
Defined.

End Interleavings.

(** ** The replies of the production handler *)

Section Replies.

Import Server.

(** What the steps after the parsed playback body can send. *)
Lemma shapePlayback_reply (hs : list (string * string)) (apiData : value)
    (reply : Reply) :
  shapePlayback hs apiData = Ok reply →
  reply =
    sendJson 200
      (setHeader "Cache-Control" "s-maxage=60, stale-while-revalidate" hs)
      notPlaying ∨
  ∃ nowPlaying,
    reply =
      sendJson 200
        (setHeader "Cache-Control" "s-maxage=5, stale-while-revalidate" hs)
        nowPlaying ∧
    optprop nowPlaying "is_playing" = VBool true.
Proof.
  unfold shapePlayback. intros H.
  repeat (match type of H with
          | context [mbind _ ?m] => destruct m eqn:?; cbn in H
          | context [if ?c then _ else _] => destruct c eqn:?; cbn in H
          end; try discriminate H);
    injection H as <-; first [left; reflexivity | right; eexists; split; reflexivity].
Qed.

Lemma catchNetwork_reply (hs : list (string * string)) (e : Js.error) :
  ∃ summary,
    summary ∈ ["Network error connecting to Spotify";
               "Failed to fetch now playing"] ∧
    catchNetwork hs e = sendJson 500 hs (failure summary).
Proof.
  unfold catchNetwork. destruct (_ && _); eexists;
    (split; [| reflexivity]); rewrite !elem_of_cons; auto.
Qed.

(** X10: every reply of the production handler is one of: 200 without a
    body (OPTIONS); 405 "Method not allowed" (any other method but GET); for
    GET, 500 with the body { error: summary, is_playing: false } where the
    summary is one of six fixed strings and no Cache-Control is set, or 200
    with { is_playing: false } and s-maxage=60, or 200 with a body whose
    is_playing is true and s-maxage=5. No reply carries the text of an error
    or a setting. *)
Theorem productionHandler_replies (method : string) (env : Env)
    (tokenFetch apiFetch : FetchOutcome) :
  let hs := hardened (openCors "Content-Type, Authorization") in
  let reply := productionHandler method env tokenFetch apiFetch in
  (method = "OPTIONS" ∧ reply = sendEnd 200 hs) ∨
  (method ≠ "OPTIONS" ∧ method ≠ "GET" ∧
   reply = sendJson 405 hs methodNotAllowed) ∨
  (method = "GET" ∧
   ((∃ summary,
       summary ∈ ["Server configuration error"; "Authentication failed";
                  "Spotify API error"; "Spotify API temporarily unavailable";
                  "Network error connecting to Spotify";
                  "Failed to fetch now playing"] ∧
       reply = sendJson 500 hs (failure summary)) ∨
    reply =
      sendJson 200
        (setHeader "Cache-Control" "s-maxage=60, stale-while-revalidate" hs)
        notPlaying ∨
    ∃ nowPlaying,
      reply =
        sendJson 200
          (setHeader "Cache-Control" "s-maxage=5, stale-while-revalidate" hs)
          nowPlaying ∧
      optprop nowPlaying "is_playing" = VBool true)).
Proof.
  intros hs reply. subst reply. unfold productionHandler. cbv zeta.
  fold hs. clearbody hs.
  destruct (String.eqb_spec method "OPTIONS") as [-> | Hoptions];
    [left; split; reflexivity |].
  right.
  destruct (String.eqb_spec method "GET") as [-> | Hget]; cbn [negb];
    [right; split; [reflexivity |] | left; repeat split; assumption].
  assert (∀ summary,
            summary ∈ ["Server configuration error"; "Authentication failed";
                       "Spotify API error";
                       "Spotify API temporarily unavailable";
                       "Network error connecting to Spotify";
                       "Failed to fetch now playing"] →
            ∃ summary',
              summary' ∈ ["Server configuration error";
                          "Authentication failed"; "Spotify API error";
                          "Spotify API temporarily unavailable";
                          "Network error connecting to Spotify";
                          "Failed to fetch now playing"] ∧
              sendJson 500 hs (failure summary)
              = sendJson 500 hs (failure summary')) as Hfixed
    by (intros summary Hin; exists summary; split; [exact Hin | reflexivity]).
  assert (∀ e,
            ∃ summary,
              summary ∈ ["Server configuration error";
                         "Authentication failed"; "Spotify API error";
                         "Spotify API temporarily unavailable";
                         "Network error connecting to Spotify";
                         "Failed to fetch now playing"] ∧
              catchNetwork hs e = sendJson 500 hs (failure summary)) as Hcatch.
  { intros e. destruct (catchNetwork_reply hs e) as (summary & Hin & ->).
    apply Hfixed. rewrite !elem_of_cons, elem_of_nil in Hin.
    destruct Hin as [-> | [-> | []]]; rewrite !elem_of_cons; auto 10. }
  destruct (_ || _);
    [left; apply Hfixed; rewrite !elem_of_cons; auto |].
  destruct tokenFetch as [e | tokenResponse]; cbn -[catchNetwork shapePlayback];
    [left; apply Hcatch |].
  destruct (negb (ok tokenResponse));
    [left; apply Hfixed; rewrite !elem_of_cons; auto |].
  destruct (json tokenResponse) as [tokenData | e];
    cbn -[catchNetwork shapePlayback]; [| left; apply Hcatch].
  destruct (prop tokenData "access_token") as [access_token | e];
    cbn -[catchNetwork shapePlayback]; [| left; apply Hcatch].
  destruct (negb (truthy access_token));
    [left; apply Hfixed; rewrite !elem_of_cons; auto |].
  destruct apiFetch as [e | apiResponse]; cbn -[catchNetwork shapePlayback];
    [left; apply Hcatch |].
  destruct (status apiResponse =? 204); [right; left; reflexivity |].
  destruct (_ && _); [left; apply Hfixed; rewrite !elem_of_cons; auto |].
  destruct (500 <=? status apiResponse);
    [left; apply Hfixed; rewrite !elem_of_cons; auto 10 |].
  destruct (negb (ok apiResponse));
    [left; apply Hfixed; rewrite !elem_of_cons; auto |].
  destruct (json apiResponse) as [apiData | e];
    cbn -[catchNetwork shapePlayback]; [| left; apply Hcatch].
  destruct (shapePlayback hs apiData) as [reply | e] eqn:Hshape;
    [| left; apply Hcatch].
  right. exact (shapePlayback_reply hs apiData reply Hshape).
Qed.

End Replies.

(** ** From the upstream's answer to what the widget shows *)

Section Shown.

Import Server.

Lemma retryAfterOr_given (r : Response) (dflt : string) :
  dflt ≠ "" → retryAfterOr r dflt ≠ "".
Proof.
  intros Hdflt. unfold retryAfterOr.
  destruct (retryAfter r) as [h |]; [| exact Hdflt].
  destruct (String.eqb_spec h ""); assumption.
Qed.

(** X11: when the upstream answers the playback request with 429, the
    validated handler passes it on: status 429, the upstream's Retry-After
    value (60 when it gave none) as header, which it does not expose to
    scripts of other origins, and a body with error "Rate limited",
    is_playing false and a retryAfter that is a number or null. A widget on
    the endpoint's origin shows "Spotify rate limit exceeded - retry after
    <value>s"; a widget on another origin, whose preflight the handler
    answers, cannot read the header and shows 60 in its place; both arm the
    retry timer with the widget's own backoff delay. *)
Theorem validated_rate_limit_shown (production : bool) (env : Env)
    (tokenResponse apiResponse : Response) (tokenData access_token : value) :
  ok tokenResponse = true →
  json tokenResponse = Ok tokenData →
  prop tokenData "access_token" = Ok access_token →
  truthy access_token = true →
  status apiResponse = 429 →
  let after := retryAfterOr apiResponse "60" in
  let reply :=
    nowPlayingHandler production "GET" env
      (Resolves tokenResponse) (Resolves apiResponse) in
  let preflight :=
    nowPlayingHandler production "OPTIONS" env
      (Resolves tokenResponse) (Resolves apiResponse) in
  code reply = 429 ∧
  getHeader "Retry-After" (headers reply) = Some after ∧
  getHeader "Access-Control-Expose-Headers" (headers reply) = None ∧
  (∃ b, body reply = Some b ∧
        optprop b "error" = VStr "Rate limited" ∧
        optprop b "is_playing" = VBool false ∧
        (optprop b "retryAfter" = VNull ∨ ∃ n, optprop b "retryAfter" = VNum n)) ∧
  ∀ page apiUrl isRetry now1 now2 rnd st,
    truthy (fst (getCachedData apiUrl (isPlayingRef st) now1 (globalCache st)))
      && negb isRetry = false →
    let st' :=
      fetchData apiUrl isRetry now1 (Cross.received page preflight reply)
        now2 rnd st in
    let shown :=
      match page with
      | Cross.SameOrigin => after
      | Cross.CrossOrigin _ => "60"
      end in
    render st' =
      ErrorView
        (VStr ("Spotify rate limit exceeded - retry after " +:+ shown +:+ "s")) ∧
    retryTimer st' =
      if retryCountRef st <? 3 then Some (getRetryDelay (retryCountRef st) rnd)
      else None.
Proof.
  intros Hok Hjson Haccess Htoken Hstatus after reply preflight.
  assert (preflight =
          sendEnd 200 (hardened (openCors "Content-Type, Authorization")))
    as -> by reflexivity.
  assert (reply =
          sendJson 429
            (setHeader "Retry-After" after
               (hardened (openCors "Content-Type, Authorization")))
            (VObj [("error", VStr "Rate limited");
                   ("retryAfter", from_option VNum VNull (parseInt after));
                   ("is_playing", VBool false)])) as ->.
  { subst reply. unfold nowPlayingHandler.
    cbn -[hardened openCors setHeader sendJson shapePlayback retryAfterOr
          parseInt].
    rewrite Hok. cbn -[hardened openCors setHeader sendJson shapePlayback
                       retryAfterOr parseInt].
    rewrite Hjson. cbn -[hardened openCors setHeader sendJson shapePlayback
                         retryAfterOr parseInt].
    rewrite Haccess. cbn -[hardened openCors setHeader sendJson shapePlayback
                           retryAfterOr parseInt].
    rewrite Htoken, Hstatus. reflexivity. }
  split; [reflexivity |]. split; [reflexivity |]. split; [reflexivity |].
  split.
  { eexists. split; [reflexivity |]. cbn -[parseInt].
    destruct (parseInt after) as [n |]; cbn;
      (split; [reflexivity |]); (split; [reflexivity |]); eauto. }
  intros page apiUrl isRetry now1 now2 rnd st Hmiss st' shown.
  assert (after ≠ "") as Hafter by (apply retryAfterOr_given; discriminate).
  assert (readResponse
            (Cross.received page
               (sendEnd 200 (hardened (openCors "Content-Type, Authorization")))
               (sendJson 429
                  (setHeader "Retry-After" after
                     (hardened (openCors "Content-Type, Authorization")))
                  (VObj [("error", VStr "Rate limited");
                         ("retryAfter",
                          from_option VNum VNull (parseInt after));
                         ("is_playing", VBool false)])))
          = Throw (Error "Error"
                     ("Spotify rate limit exceeded - retry after " +:+ shown
                      +:+ "s"))) as Hread.
  { subst shown. destruct page as [| origin].
    - unfold readResponse, Cross.received, delivered.
      cbn -[parseInt serialize].
      destruct (String.eqb_spec after "") as [Hempty | _];
        [contradiction | reflexivity].
    - unfold readResponse, Cross.received. cbn -[parseInt serialize].
      reflexivity. }
  destruct (fetchData_failed apiUrl isRetry now1 now2 _ rnd st _ Hmiss Hread)
    as (Herror & _ & Hloading & Htimer).
  fold st' in Herror, Hloading, Htimer.
  split; [| exact Htimer].
  unfold render. rewrite Hloading, Herror. reflexivity.
Qed.

Lemma validated_rate_limit_shown_witness :
  let env :=
    {| SPOTIFY_CLIENT_ID := Some "id"; SPOTIFY_CLIENT_SECRET := Some "secret";
       SPOTIFY_REFRESH_TOKEN := Some "refresh" |} in
  let tokenResponse :=
    {| status := 200; retryAfter := None;
       json := Ok (VObj [("access_token", VStr "BQD")]) |} in
  let apiResponse :=
    {| status := 429; retryAfter := Some "7"; json := Ok VNull |} in
  let reply :=
    nowPlayingHandler true "GET" env
      (Resolves tokenResponse) (Resolves apiResponse) in
  let preflight :=
    nowPlayingHandler true "OPTIONS" env
      (Resolves tokenResponse) (Resolves apiResponse) in
  render (fetchData "/api" false 0
            (Cross.received Cross.SameOrigin preflight reply) 0 0%Q
            initialState) =
    ErrorView (VStr "Spotify rate limit exceeded - retry after 7s") ∧
  render (fetchData "https://api.example/now-playing" false 0
            (Cross.received (Cross.CrossOrigin "https://site.example")
               preflight reply) 0 0%Q initialState) =
    ErrorView (VStr "Spotify rate limit exceeded - retry after 60s").
Proof.
  intros env tokenResponse apiResponse reply preflight.
  destruct (validated_rate_limit_shown true env tokenResponse apiResponse
              (VObj [("access_token", VStr "BQD")]) (VStr "BQD")
              eq_refl eq_refl eq_refl eq_refl eq_refl)
    as (_ & _ & _ & _ & Hshown).
  split.
  - exact (proj1 (Hshown Cross.SameOrigin "/api" false 0 0 0%Q initialState
                    eq_refl)).
  - exact (proj1 (Hshown (Cross.CrossOrigin "https://site.example")
                    "https://api.example/now-playing" false 0 0 0%Q
                    initialState eq_refl)).
Defined.

(** The values a refused run leaves alone. *)
Lemma fetchData_failed_frame (apiUrl : string) (isRetry : bool)
    (now1 now2 : Z) (net : FetchOutcome) (rnd : Q) (st : State)
    (err : Js.error) :
  truthy (fst (getCachedData apiUrl (isPlayingRef st) now1 (globalCache st)))
    && negb isRetry = false →
  readResponse net = Throw err →
  let st' := fetchData apiUrl isRetry now1 net now2 rnd st in
  track st' = track st ∧ retryCountRef st' = retryCountRef st.
Proof.
  intros Hmiss Hthrow. unfold fetchData.
  destruct (getCachedData _ _ _ _) as [cachedData cache1].
  cbn [fst] in Hmiss. rewrite Hmiss, Hthrow. cbn. auto.
Qed.

(** X12: a response with status 500 makes the widget show "Spotify API
    temporarily unavailable - please try again later", whatever its body
    says; the interval [scheduleNextPoll] picks in that state is 30000 ms;
    the retry timer is armed while fewer than three retries were made; once
    three were made it is not armed, and the run leaves the track, the retry
    count and the playing flag as they were and, in a widget that already
    shows this message, also the error and the loading flag: none of the
    values the effect that calls [scheduleNextPoll] depends on has
    changed. *)
Theorem failure_reply_shown (response : Response) (apiUrl : string)
    (isRetry : bool) (now1 now2 : Z) (rnd : Q) (st : State) :
  status response = 500 →
  truthy (fst (getCachedData apiUrl (isPlayingRef st) now1 (globalCache st)))
    && negb isRetry = false →
  let st' := fetchData apiUrl isRetry now1 (Resolves response) now2 rnd st in
  let shown :=
    VStr "Spotify API temporarily unavailable - please try again later" in
  render st' = ErrorView shown ∧
  scheduleNextPoll st' = 30000 ∧
  (retryCountRef st < 3 → ∃ delay, retryTimer st' = Some delay) ∧
  (3 <= retryCountRef st →
   retryTimer st' = None ∧
   track st' = track st ∧
   retryCountRef st' = retryCountRef st ∧
   isPlayingRef st' = isPlayingRef st ∧
   (error st = shown → loading st = false →
    error st' = error st ∧ loading st' = loading st)).
Proof.
  intros Hcode Hmiss st' shown.
  assert (readResponse (Resolves response)
          = Throw (Error "Error"
                     "Spotify API temporarily unavailable - please try again later"))
    as Hread.
  { unfold readResponse. cbn. unfold ok. rewrite Hcode. reflexivity. }
  destruct (fetchData_failed apiUrl isRetry now1 now2 _ rnd st _ Hmiss Hread)
    as (Herror & Hplaying & Hloading & Htimer).
  destruct (fetchData_failed_frame apiUrl isRetry now1 now2 _ rnd st _ Hmiss
              Hread) as (Htrack & Hcount).
  fold st' in Herror, Hplaying, Hloading, Htimer, Htrack, Hcount.
  cbn [message] in Herror.
  split; [| split; [| split]].
  - unfold render. rewrite Hloading, Herror. reflexivity.
  - unfold scheduleNextPoll. rewrite Herror. reflexivity.
  - intros Hfew. rewrite Htimer.
    replace (retryCountRef st <? 3) with true by lia. eauto.
  - intros Hused. rewrite Htimer.
    replace (retryCountRef st <? 3) with false by lia.
    split; [reflexivity |]. split; [exact Htrack |].
    split; [exact Hcount |]. split; [exact Hplaying |].
    intros Hshown Hloaded. rewrite Herror, Hloading, Hshown, Hloaded.
    split; reflexivity.
Qed.

Lemma failure_reply_shown_witness :
  let failed :=
    {| status := 500; retryAfter := None;
       json := Ok (failure "Server configuration error") |} in
  let st := fetchData "/api" false 0 (Resolves failed) 0 0%Q initialState in
  render st =
    ErrorView
      (VStr "Spotify API temporarily unavailable - please try again later") ∧
  scheduleNextPoll st = 30000.
Proof.
  intros failed st.
  destruct (failure_reply_shown failed "/api" false 0 0 0%Q initialState
              eq_refl eq_refl) as (Hshown & Hpoll & _).
  split; [exact Hshown | exact Hpoll].
Defined.

(** X13: the first handler does not guard the item: when the upstream
    answers 200 with is_playing true and no item (absent or null), it replies
    500, and the message in its debug object is the TypeError of reading
    [name] from the missing item. *)
Theorem legacy_missing_item_fails (env : Env)
    (tokenResponse apiResponse : Response)
    (tokenData access_token data : value) :
  ok tokenResponse = true →
  json tokenResponse = Ok tokenData →
  prop tokenData "access_token" = Ok access_token →
  status apiResponse = 200 →
  json apiResponse = Ok data →
  truthy (optprop data "is_playing") = true →
  optprop data "item" = VUndef ∨ optprop data "item" = VNull →
  let reply :=
    Legacy.handler env "GET" (Resolves tokenResponse) (Resolves apiResponse) in
  code reply = 500 ∧
  ∃ b, body reply = Some b ∧
       optprop (optprop b "debug") "message" =
       VStr ("Cannot read properties of " +:+ toStr (optprop data "item") +:+
             " (reading 'name')").
Proof.
  intros Hok Hjson Haccess Hstatus Hbody Hplaying Hitem reply.
  subst reply. unfold Legacy.handler, Legacy.getNowPlaying, Legacy.getAccessToken.
  cbn -[openCors sendJson setHeader]. rewrite Hok. cbn -[openCors sendJson setHeader].
  rewrite Hjson. cbn -[openCors sendJson setHeader].
  rewrite Haccess. cbn -[openCors sendJson setHeader].
  rewrite Hstatus. cbn -[openCors sendJson setHeader].
  unfold ok. rewrite Hstatus. cbn -[openCors sendJson setHeader].
  rewrite Hbody. cbn -[openCors sendJson setHeader].
  rewrite !(prop_of_truthy_field data "is_playing" _ Hplaying).
  cbn -[openCors sendJson setHeader]. rewrite Hplaying.
  cbn -[openCors sendJson setHeader].
  destruct Hitem as [-> | ->]; cbn -[openCors];
    (split; [reflexivity |]); eexists; (split; [reflexivity |]);
    destruct (Legacy.lengthOf (SPOTIFY_CLIENT_ID env)),
             (Legacy.lengthOf (SPOTIFY_CLIENT_SECRET env)),
             (Legacy.lengthOf (SPOTIFY_REFRESH_TOKEN env)); reflexivity.
Qed.

Lemma legacy_missing_item_fails_witness :
  let env :=
    {| SPOTIFY_CLIENT_ID := Some "id"; SPOTIFY_CLIENT_SECRET := Some "secret";
       SPOTIFY_REFRESH_TOKEN := Some "refresh" |} in
  let tokenResponse :=
    {| status := 200; retryAfter := None;
       json := Ok (VObj [("access_token", VStr "BQD")]) |} in
  let apiResponse :=
    {| status := 200; retryAfter := None;
       json := Ok (VObj [("is_playing", VBool true); ("item", VNull)]) |} in
  code (Legacy.handler env "GET" (Resolves tokenResponse)
          (Resolves apiResponse)) = 500.
Proof.
  intros env tokenResponse apiResponse.
  exact (proj1 (legacy_missing_item_fails env tokenResponse apiResponse
                  (VObj [("access_token", VStr "BQD")]) (VStr "BQD")
                  (VObj [("is_playing", VBool true); ("item", VNull)])
                  eq_refl eq_refl eq_refl eq_refl eq_refl eq_refl
                  (or_intror eq_refl))).
Defined.

End Shown.

(** ** The retrying handler *)

Section RetryingHandler.

Import Server Server.Retrying.
Context (up : Upstream).

Lemma getAccessToken_first (t : Trace) (tokenResponse : Response) :
  tokenEndpoint up (tokenCalls t) = Resolves tokenResponse →
  ok tokenResponse = true →
  getAccessToken up 0 t = (json tokenResponse, tokenCalled t).
Proof.
  intros Hfirst Hok. rewrite (getAccessToken_equation_1 up 0 t). cbv zeta.
  rewrite Hfirst, Hok. reflexivity.
Qed.

Lemma shape_item (data names : value) :
  truthy (optprop data "is_playing") = true →
  truthy (optprop data "item") = true →
  optArtistNames (optprop (optprop data "item") "artists") = Ok names →
  let item := optprop data "item" in
  shape data =
  Ok (VObj [("is_playing", VBool true);
            ("progress_ms", Js.or (optprop data "progress_ms") (VNum 0));
            ("item",
             VObj [("name", Js.or (optprop item "name") (VStr "Unknown Track"));
                   ("artists", Js.or names (VArr [VStr "Unknown Artist"]));
                   ("duration_ms", Js.or (optprop item "duration_ms") (VNum 0));
                   ("album",
                    VObj [("name",
                           Js.or (optprop (optprop item "album") "name")
                             (VStr "Unknown Album"));
                          ("images",
                           Js.or (optprop (optprop item "album") "images")
                             (VArr []))]);
                   ("external_urls",
                    Js.or (optprop item "external_urls") (VObj []))])]).
Proof.
  intros Hplaying Hitem Hnames item. subst item. unfold shape.
  rewrite !(prop_of_truthy_field data "is_playing" _ Hplaying).
  cbn [mbind result_bind Js.bind]. rewrite Hplaying, Hitem. cbn [negb].
  rewrite (itemFields_ok _ names Hitem Hnames). reflexivity.
Qed.

(** X14: the retrying handler does not look at the type of the item: for an
    upstream 200 body with is_playing true and an item whose fields can be
    read, it replies 200 with is_playing true, and the widget that receives
    the reply shows the item as a track, because the reply names neither the
    item's type nor currently_playing_type and always carries artists. *)
Theorem retrying_forwards_any_item (hs : list (string * string))
    (tokenResponse apiResponse : Response)
    (tokenData access_token data names : value) :
  tokenEndpoint up 0%nat = Resolves tokenResponse →
  ok tokenResponse = true →
  json tokenResponse = Ok tokenData →
  prop tokenData "access_token" = Ok access_token →
  playbackEndpoint up 0%nat = Resolves apiResponse →
  status apiResponse = 200 →
  json apiResponse = Ok data →
  truthy (optprop data "is_playing") = true →
  truthy (optprop data "item") = true →
  optArtistNames (optprop (optprop data "item") "artists") = Ok names →
  let item := optprop data "item" in
  let reply := handler hs "GET" up in
  code reply = 200 ∧
  (∃ b, body reply = Some b ∧
        optprop b "is_playing" = VBool true ∧
        optprop b "currently_playing_type" = VUndef ∧
        optprop (optprop b "item") "type" = VUndef) ∧
  ∀ apiUrl isRetry now1 now2 rnd st,
    truthy (fst (getCachedData apiUrl (isPlayingRef st) now1 (globalCache st)))
      && negb isRetry = false →
    render (fetchData apiUrl isRetry now1 (delivered reply) now2 rnd st)
    = TrackView
        (serialize (Js.or (optprop item "name") (VStr "Unknown Track")))
        (serialize (Js.or (optprop (optprop item "album") "name")
                      (VStr "Unknown Album"))).
Proof.
  intros Hfirst Hok Hjson Haccess Hplayback Hstatus Hbody Hplaying Hitem
         Hnames item reply.
  pose proof (shape_item data names Hplaying Hitem Hnames) as Hshape.
  cbv zeta in Hshape. fold item in Hshape.
  set (names' := Js.or names (VArr [VStr "Unknown Artist"])) in *.
  set (album :=
         [("name",
           Js.or (optprop (optprop item "album") "name") (VStr "Unknown Album"));
          ("images",
           Js.or (optprop (optprop item "album") "images") (VArr []))]) in *.
  set (shown :=
         [("name", Js.or (optprop item "name") (VStr "Unknown Track"));
          ("artists", names');
          ("duration_ms", Js.or (optprop item "duration_ms") (VNum 0));
          ("album", VObj album);
          ("external_urls", Js.or (optprop item "external_urls") (VObj []))])
    in *.
  set (top :=
         [("is_playing", VBool true);
          ("progress_ms", Js.or (optprop data "progress_ms") (VNum 0));
          ("item", VObj shown)]) in *.
  assert (reply =
          sendJson 200
            (setHeader "Cache-Control" "s-maxage=10, stale-while-revalidate" hs)
            (VObj top)) as ->.
  { subst reply. unfold handler. cbn [String.eqb Ascii.eqb Bool.eqb negb].
    rewrite (getNowPlaying_equation_1 up 0 start). cbv zeta.
    rewrite (getAccessToken_first start tokenResponse Hfirst Hok).
    rewrite Hjson. cbn [mbind result_bind Js.bind]. rewrite Haccess.
    cbn [tokenCalled playbackCalls start]. rewrite Hplayback, Hstatus.
    cbn -[shape sendJson setHeader]. unfold ok. rewrite Hstatus.
    cbn -[shape sendJson setHeader]. rewrite Hbody.
    cbn -[shape sendJson setHeader]. rewrite Hshape. reflexivity. }
  assert (Forall (λ kv, snd kv ≠ VUndef) album) as Halbum.
  { repeat (constructor; [cbn [snd]; apply or_defined; discriminate |]).
    constructor. }
  assert (Forall (λ kv, snd kv ≠ VUndef) shown) as Hshown.
  { subst shown names'.
    repeat (constructor;
            [cbn [snd]; first [apply or_defined | idtac]; discriminate |]).
    constructor. }
  assert (Forall (λ kv, snd kv ≠ VUndef) top) as Htop.
  { repeat (constructor;
            [cbn [snd]; first [apply or_defined | idtac]; discriminate |]).
    constructor. }
  set (jsonData := serialize (VObj top)).
  assert (∀ k, optprop jsonData k = serialize (assoc k top)) as Hreadtop.
  { intros k. subst jsonData. rewrite (serialize_defined _ Htop).
    cbn [optprop]. apply assoc_serialized. }
  assert (∀ k, optprop (serialize (VObj shown)) k = serialize (assoc k shown))
    as Hread.
  { intros k. rewrite (serialize_defined _ Hshown). cbn [optprop].
    apply assoc_serialized. }
  assert (optprop jsonData "is_playing" = VBool true) as Hflag
    by (rewrite Hreadtop; reflexivity).
  assert (optprop jsonData "item" = serialize (VObj shown)) as Hitem'
    by (rewrite Hreadtop; reflexivity).
  split; [reflexivity |]. split.
  { exists jsonData. split; [reflexivity |]. split; [exact Hflag |].
    split; [rewrite Hreadtop; reflexivity |].
    rewrite Hitem', Hread. reflexivity. }
  intros apiUrl isRetry now1 now2 rnd st Hmiss.
  destruct (fetchData_succeeded apiUrl isRetry now1 now2
              (delivered
                 (sendJson 200
                    (setHeader "Cache-Control"
                       "s-maxage=10, stale-while-revalidate" hs)
                    (VObj top)))
              rnd st jsonData (VBool true) Hmiss eq_refl)
    as (Htrack & Herror & _ & Hloading & _).
  { rewrite (prop_of_truthy_field jsonData "is_playing" "is_playing")
      by (rewrite Hflag; reflexivity).
    rewrite Hflag. reflexivity. }
  cbv zeta in Htrack, Herror, Hloading.
  unfold render. rewrite Hloading, Herror, Htrack. cbn [truthy].
  rewrite Hflag. cbn [truthy negb orb].
  assert (isPodcast jsonData = false) as ->.
  { unfold isPodcast. rewrite Hitem', !Hread, (Hreadtop "currently_playing_type").
    rewrite !is_str_serialize, !truthy_serialize.
    assert (truthy (assoc "artists" shown) = true) as ->.
    { subst shown names'. cbn. apply truthy_or. reflexivity. }
    cbn. rewrite ?andb_false_r. reflexivity. }
  rewrite Hitem', !Hread.
  assert (assoc "name" shown = Js.or (optprop item "name") (VStr "Unknown Track"))
    as -> by reflexivity.
  assert (assoc "album" shown = VObj album) as -> by reflexivity.
  rewrite (serialize_defined _ Halbum). cbn [optprop].
  rewrite assoc_serialized.
  assert (assoc "name" album =
          Js.or (optprop (optprop item "album") "name") (VStr "Unknown Album"))
    as -> by reflexivity.
  f_equal.
  - unfold Js.or at 1. rewrite truthy_serialize, truthy_or by reflexivity.
    reflexivity.
  - unfold Js.or at 1. rewrite truthy_serialize, truthy_or by reflexivity.
    reflexivity.
Qed.

End RetryingHandler.

Lemma retrying_forwards_any_item_witness :
  let tokenResponse :=
    {| status := 200; retryAfter := None;
       json := Ok (VObj [("access_token", VStr "BQD")]) |} in
  let episode :=
    VObj [("is_playing", VBool true);
          ("currently_playing_type", VStr "episode");
          ("item", VObj [("type", VStr "episode"); ("name", VStr "A show")])] in
  let apiResponse :=
    {| status := 200; retryAfter := None; json := Ok episode |} in
  let up :=
    {| Server.Retrying.tokenEndpoint := λ _, Resolves tokenResponse;
       Server.Retrying.playbackEndpoint := λ _, Resolves apiResponse |} in
  render (fetchData "/api" false 0
            (delivered (Server.Retrying.handler [] "GET" up)) 0 0%Q
            initialState)
  = TrackView (VStr "A show") (VStr "Unknown Album").
Proof.
  intros tokenResponse episode apiResponse up.
  destruct (retrying_forwards_any_item up [] tokenResponse apiResponse
              (VObj [("access_token", VStr "BQD")]) (VStr "BQD") episode
              VUndef
              eq_refl eq_refl eq_refl eq_refl eq_refl eq_refl eq_refl
              eq_refl eq_refl eq_refl)
    as (_ & _ & Hshown).
  exact (Hshown "/api" false 0 0 0%Q initialState eq_refl).
Defined.

(** ** What one request to the retrying handler can cost *)

Section RetryBudget.

Import Server Server.Retrying.

Lemma sum_snoc (l : list Z) (x : Z) :
  foldr Z.add 0 (l ++ [x]) = foldr Z.add 0 l + x.
Proof. induction l as [| y l IH]; cbn in *; lia. Qed.

Lemma getAccessToken_budget (up : Upstream) (retryCount : Z) (t : Trace) :
  0 <= retryCount <= 2 →
  let t' := snd (getAccessToken up retryCount t) in
  foldr Z.add 0 (sleeps t') + 1000 * 2 ^ retryCount
    <= foldr Z.add 0 (sleeps t) + 4000 ∧
  (length (sleeps t') + Z.to_nat retryCount ≤ length (sleeps t) + 2)%nat.
Proof.
  remember (Z.to_nat (maxRetries - retryCount)) as m eqn:Hm.
  revert retryCount t Hm.
  induction m as [m IH] using lt_wf_ind. intros retryCount t Hm Hcount.
  assert (1000 * 2 ^ retryCount <= 4000) as Hpow.
  { assert (retryCount = 0 ∨ retryCount = 1 ∨ retryCount = 2) as [-> | [-> | ->]]
      by lia; cbn; lia. }
  rewrite (getAccessToken_equation_1 up retryCount t). cbv zeta.
  destruct (tokenEndpoint up (tokenCalls t)) as [? | response];
    [cbn [snd tokenCalled sleeps]; lia |].
  destruct (negb (ok response)); [| cbn [snd tokenCalled sleeps]; lia].
  destruct (status response =? 400); [cbn [snd tokenCalled sleeps]; lia |].
  destruct (status response =? 401); [cbn [snd tokenCalled sleeps]; lia |].
  destruct (500 <=? status response); [| cbn [snd tokenCalled sleeps]; lia].
  destruct (Z_lt_dec retryCount maxRetries) as [Hlt |];
    [| cbn [snd tokenCalled sleeps]; lia].
  unfold maxRetries in *.
  specialize (IH (Z.to_nat (2 - (retryCount + 1))) ltac:(lia)
                 (retryCount + 1)
                 (slept (1000 * 2 ^ retryCount) (tokenCalled t)) eq_refl
                 ltac:(lia)).
  cbv zeta in IH. cbn [slept tokenCalled sleeps] in IH.
  rewrite sum_snoc, length_app, Z.pow_add_r in IH by lia.
  cbn [length] in IH. change (2 ^ 1) with 2 in IH.
  destruct IH as [IHsum IHlen]. split; lia.
Qed.

Lemma getNowPlaying_budget (up : Upstream) (retryCount : Z) (t : Trace) :
  0 <= retryCount <= 2 →
  let t' := snd (getNowPlaying up retryCount t) in
  (tokenCalls t < tokenCalls t')%nat ∧
  (tokenCalls t' + 3 * Z.to_nat retryCount ≤ tokenCalls t + 9)%nat ∧
  foldr Z.add 0 (sleeps t') + 1000 * 2 ^ retryCount + 3000 * retryCount
    <= foldr Z.add 0 (sleeps t) + 13000 ∧
  (length (sleeps t') + 3 * Z.to_nat retryCount ≤ length (sleeps t) + 8)%nat.
Proof.
  remember (Z.to_nat (maxRetries - retryCount)) as m eqn:Hm.
  revert retryCount t Hm.
  induction m as [m IH] using lt_wf_ind. intros retryCount t Hm Hcount.
  assert (1000 * 2 ^ retryCount + 3000 * retryCount <= 10000) as Hpow.
  { assert (retryCount = 0 ∨ retryCount = 1 ∨ retryCount = 2) as [-> | [-> | ->]]
      by lia; cbn; lia. }
  rewrite (getNowPlaying_equation_1 up retryCount t). cbv zeta.
  pose proof (getAccessToken_calls up 0 t) as (_ & Hlo & Htok).
  pose proof (getAccessToken_budget up 0 t ltac:(lia)) as (Hsum & Hlen).
  cbv zeta in Hlo, Htok, Hsum, Hlen. unfold maxRetries in Htok.
  change (2 ^ 0) with 1 in Hsum.
  destruct (getAccessToken up 0 t) as [token t1].
  cbn [snd] in Hlo, Htok, Hsum, Hlen.
  assert (∀ r : result value,
            let t' := snd (r, playbackCalled t1) in
            (tokenCalls t < tokenCalls t')%nat ∧
            (tokenCalls t' + 3 * Z.to_nat retryCount ≤ tokenCalls t + 9)%nat ∧
            foldr Z.add 0 (sleeps t') + 1000 * 2 ^ retryCount
              + 3000 * retryCount
              <= foldr Z.add 0 (sleeps t) + 13000 ∧
            (length (sleeps t') + 3 * Z.to_nat retryCount
               ≤ length (sleeps t) + 8)%nat) as Hdone
    by (intros r; cbn [snd playbackCalled tokenCalls sleeps]; repeat split; lia).
  destruct (token ≫= _) as [access_token | e];
    [| cbn [snd]; repeat split; lia].
  destruct (playbackEndpoint up (playbackCalls t1)) as [? | response];
    [apply Hdone |].
  destruct (status response =? 204); [apply Hdone |].
  destruct ((400 <=? status response) && (status response <? 500)).
  { destruct (status response =? 401); [apply Hdone |].
    destruct (status response =? 403); [apply Hdone |].
    destruct (status response =? 429); apply Hdone. }
  destruct (500 <=? status response);
    [| destruct (negb (ok response)); apply Hdone].
  destruct (Z_lt_dec retryCount maxRetries) as [Hlt |]; [| apply Hdone].
  unfold maxRetries in *.
  specialize (IH (Z.to_nat (2 - (retryCount + 1))) ltac:(lia)
                 (retryCount + 1)
                 (slept (1000 * 2 ^ retryCount) (playbackCalled t1)) eq_refl
                 ltac:(lia)).
  cbv zeta in IH. cbn [slept playbackCalled tokenCalls sleeps] in IH.
  rewrite sum_snoc, length_app, Z.pow_add_r in IH by lia.
  cbn [length] in IH. change (2 ^ 1) with 2 in IH.
  destruct IH as (IHlo & IHtok & IHsum & IHlen). repeat split; lia.
Qed.


End RetryBudget.

(** ** The CORS utility *)

Section CorsHeaders.

Import Server Cors.

Lemma getHeader_setHeader_eq (k v : string) (hs : list (string * string)) :
  getHeader k (setHeader k v hs) = Some v.
Proof.
  induction hs as [| [k' v'] hs IH]; cbn.
  - rewrite String.eqb_refl. reflexivity.
  - destruct (String.eqb k k') eqn:Hk; cbn; rewrite ?String.eqb_refl, ?Hk;
      [reflexivity | exact IH].
Qed.

Lemma getHeader_setHeader_ne (k k' v : string) (hs : list (string * string)) :
  k ≠ k' → getHeader k (setHeader k' v hs) = getHeader k hs.
Proof.
  intros Hne. induction hs as [| [k0 v0] hs IH]; cbn.
  - destruct (String.eqb_spec k k'); [contradiction | reflexivity].
  - destruct (String.eqb_spec k' k0) as [<- | Hk0]; cbn.
    + destruct (String.eqb_spec k k'); [contradiction | reflexivity].
    + destruct (String.eqb_spec k k0); [reflexivity | exact IH].
Qed.

Lemma isOriginAllowed_listed (cfg : Config) (origin : option string) :
  development cfg = false →
  isOriginAllowed cfg origin = true →
  ∃ o, origin = Some o ∧ o ≠ "" ∧ o ∈ ALLOWED_ORIGINS cfg.
Proof.
  intros Hdev. unfold isOriginAllowed, getAllowedOrigins. rewrite Hdev.
  destruct origin as [o |]; [| discriminate].
  destruct (String.eqb_spec o "") as [| Hne]; [discriminate |].
  destruct (existsb _ _) eqn:Hlisted; [| discriminate].
  intros _. exists o. split; [reflexivity |]. split; [exact Hne |].
  apply existsb_exists in Hlisted as (o' & Hin & Heq).
  apply String.eqb_eq in Heq as <-. apply list_elem_of_In. exact Hin.
Qed.

(** X16: [setCorsHeaders] never answers with a wildcard of its own: when it
    lets a request in, Access-Control-Allow-Origin is the request's own
    Origin value; outside development it lets in only an origin that is an
    entry of the configured list, and then also allows credentials; when it
    refuses, it leaves Access-Control-Allow-Origin as it was. The methods
    header is set in every case. *)
Theorem setCorsHeaders_echoes_origin (cfg : Config) (origin : option string)
    (hs hs' : list (string * string)) (allowed : bool) :
  setCorsHeaders cfg origin hs = Ok (allowed, hs') →
  getHeader "Access-Control-Allow-Methods" hs' = Some "GET, OPTIONS" ∧
  (allowed = true →
   ∃ o, origin = Some o ∧
        getHeader "Access-Control-Allow-Origin" hs' = Some o ∧
        (development cfg = false →
         o ∈ ALLOWED_ORIGINS cfg ∧
         getHeader "Access-Control-Allow-Credentials" hs' = Some "true")) ∧
  (allowed = false →
   development cfg = false ∧
   getHeader "Access-Control-Allow-Origin" hs'
   = getHeader "Access-Control-Allow-Origin" hs).
Proof.
  unfold setCorsHeaders. cbv zeta.
  set (hs1 := setHeader "Access-Control-Max-Age" _ _).
  assert (getHeader "Access-Control-Allow-Methods" hs1 = Some "GET, OPTIONS")
    as Hmethods.
  { subst hs1. rewrite !getHeader_setHeader_ne by discriminate.
    apply getHeader_setHeader_eq. }
  assert (getHeader "Access-Control-Allow-Origin" hs1
          = getHeader "Access-Control-Allow-Origin" hs) as Hsame.
  { subst hs1. rewrite !getHeader_setHeader_ne by discriminate. reflexivity. }
  destruct (isOriginAllowed cfg origin) eqn:Hallowed.
  - intros [= <- <-]. split; [| split; [| discriminate]].
    + rewrite !getHeader_setHeader_ne by discriminate. exact Hmethods.
    + intros _. destruct origin as [o |]; [| discriminate Hallowed].
      exists o. split; [reflexivity |]. split.
      * rewrite getHeader_setHeader_ne by discriminate.
        apply getHeader_setHeader_eq.
      * intros Hdev.
        destruct (isOriginAllowed_listed cfg (Some o) Hdev Hallowed)
          as (o' & [= <-] & _ & Hin).
        split; [exact Hin | apply getHeader_setHeader_eq].
  - destruct (development cfg) eqn:Hdev.
    + destruct origin as [o |]; [| discriminate].
      intros [= <- <-]. split; [| split; [| discriminate]].
      * rewrite getHeader_setHeader_ne by discriminate. exact Hmethods.
      * intros _. exists o. split; [reflexivity |].
        split; [apply getHeader_setHeader_eq | discriminate].
    + intros [= <- <-]. split; [exact Hmethods |].
      split; [discriminate |]. intros _. split; [reflexivity | exact Hsame].
Qed.

Lemma setCorsHeaders_echoes_origin_witness :
  let cfg :=
    {| ALLOWED_ORIGINS_env := Some "https://a.example, https://b.example";
       NODE_ENV := Some "production" |} in
  ALLOWED_ORIGINS cfg = ["https://a.example"; "https://b.example"] ∧
  ∃ hs',
    setCorsHeaders cfg (Some "https://b.example") [] = Ok (true, hs') ∧
    getHeader "Access-Control-Allow-Origin" hs' = Some "https://b.example".
Proof.
  intros cfg. split; [reflexivity |].
  eexists. split; [reflexivity |].
  destruct (setCorsHeaders_echoes_origin cfg (Some "https://b.example") [] _
              true eq_refl) as (_ & Hallowed & _).
  destruct (Hallowed eq_refl) as (o & [= <-] & Horigin & _).
  exact Horigin.
Defined.

(** X17: in development the list decides nothing: every request that
    carries an Origin header is let in and its origin echoed, listed or
    not. *)
Theorem setCorsHeaders_development (cfg : Config) (o : string)
    (hs : list (string * string)) :
  development cfg = true →
  ∃ hs', setCorsHeaders cfg (Some o) hs = Ok (true, hs') ∧
         getHeader "Access-Control-Allow-Origin" hs' = Some o.
Proof.
  intros Hdev. unfold setCorsHeaders. cbv zeta. rewrite Hdev.
  destruct (isOriginAllowed cfg (Some o)); eexists; (split; [reflexivity |]).
  - rewrite getHeader_setHeader_ne by discriminate.
    apply getHeader_setHeader_eq.
  - apply getHeader_setHeader_eq.
Qed.

Lemma setCorsHeaders_development_witness :
  let cfg := {| ALLOWED_ORIGINS_env := None; NODE_ENV := Some "development" |} in
  ∃ hs',
    setCorsHeaders cfg (Some "https://elsewhere.example") [] = Ok (true, hs') ∧
    getHeader "Access-Control-Allow-Origin" hs'
    = Some "https://elsewhere.example".
Proof.
  intros cfg.
  exact (setCorsHeaders_development cfg "https://elsewhere.example" []
           eq_refl).
Defined.

(** X18: in production, for a GET from an origin the utility refuses, the
    middleware sends 403 "CORS policy violation", without
    Access-Control-Allow-Origin, as the one reply of the request; the exported
    handler, which does not look at what the middleware did, goes on to
    [getNowPlaying], so the upstream's token endpoint is still called, and
    ends by throwing when it tries to reply on the response already sent. *)
Theorem blocked_origin_still_fetches (cfg : Config) (origin : option string)
    (up : Retrying.Upstream) :
  production cfg = true →
  isOriginAllowed cfg origin = false →
  ∃ res hs t,
    corsMiddleware cfg "GET" origin newRes = Ok res ∧
    sent res = [sendJson 403 hs corsViolation] ∧
    getHeader "Access-Control-Allow-Origin" hs = None ∧
    Cors.handler cfg "GET" origin up = (Throw headersSent, t) ∧
    (1 ≤ Retrying.tokenCalls t)%nat.
Proof.
  intros Hprod Hblocked.
  assert (development cfg = false) as Hdev.
  { unfold production, development in *.
    destruct (NODE_ENV cfg) as [v |]; [| reflexivity].
    apply String.eqb_eq in Hprod as ->. reflexivity. }
  assert (∃ res hs,
            corsMiddleware cfg "GET" origin newRes = Ok res ∧
            sent res = [sendJson 403 hs corsViolation] ∧
            getHeader "Access-Control-Allow-Origin" hs = None)
    as (res & hs & Hmiddleware & Hsent & Hnone).
  { unfold corsMiddleware, handleCorsPreflight.
    cbn [String.eqb Ascii.eqb Bool.eqb mbind mret result_bind result_ret
         Js.bind newRes resHeaders].
    unfold setCorsHeaders. cbv zeta. rewrite Hblocked, Hdev, Hprod.
    cbn [mbind mret result_bind result_ret Js.bind negb andb].
    eexists _, _. split; [reflexivity |]. split; reflexivity. }
  exists res, hs. eexists. split; [exact Hmiddleware |].
  split; [exact Hsent |]. split; [exact Hnone |].
  unfold Cors.handler. rewrite Hmiddleware.
  cbn [String.eqb Ascii.eqb Bool.eqb].
  assert (send (Retrying.handler (resHeaders res) "GET" up) res
          = Throw headersSent) as ->.
  { unfold send. rewrite Hsent. unfold Retrying.handler.
    cbn [String.eqb Ascii.eqb Bool.eqb negb].
    destruct (fst (Retrying.getNowPlaying up 0 Retrying.start)); reflexivity. }
  split; [reflexivity |].
  pose proof (getNowPlaying_budget up 0 Retrying.start ltac:(lia))
    as (Hlo & _).
  cbv zeta in Hlo. cbn [Retrying.start Retrying.tokenCalls] in Hlo.
  exact Hlo.
Qed.

Lemma blocked_origin_still_fetches_witness :
  let cfg :=
    {| ALLOWED_ORIGINS_env := Some "https://a.example";
       NODE_ENV := Some "production" |} in
  let unavailable :=
    Resolves {| status := 503; retryAfter := None; json := Ok VNull |} in
  let up :=
    {| Retrying.tokenEndpoint := λ _, unavailable;
       Retrying.playbackEndpoint := λ _, unavailable |} in
  ∃ t,
    Cors.handler cfg "GET" (Some "https://elsewhere.example") up
    = (Throw headersSent, t) ∧
    (1 ≤ Retrying.tokenCalls t)%nat.
Proof.
  intros cfg unavailable up.
  destruct (blocked_origin_still_fetches cfg (Some "https://elsewhere.example")
              up eq_refl eq_refl) as (res & hs & t & _ & _ & _ & Hrun & Hcalls).
  exists t. split; [exact Hrun | exact Hcalls].
Defined.

End CorsHeaders.

(** ** Validation of the settings *)

Section Settings.

Import Text Server EnvValidation.

Lemma isSpace_not_alnum (a : ascii) : isAlnum a = true → isSpace a = false.
Proof. unfold isAlnum, isSpace. cbv zeta. lia. Qed.

Lemma isSpace2_not_alnum (a b : ascii) :
  isAlnum a = true → isSpace2 a b = false ∧ isSpace2 b a = false.
Proof. unfold isAlnum, isSpace2. cbv zeta. lia. Qed.

Lemma isSpace3_not_alnum (a b c : ascii) :
  isAlnum a = true → isSpace3 a b c = false ∧ isSpace3 c b a = false.
Proof. unfold isAlnum, isSpace3. cbv zeta. lia. Qed.

Lemma all_rev_app (p : ascii → bool) (s1 s2 : string) :
  all p (String.rev_app s1 s2) = all p s1 && all p s2.
Proof.
  revert s2. induction s1 as [| c s1 IH]; intros s2; cbn; [reflexivity |].
  rewrite IH. cbn. destruct (p c), (all p s1); reflexivity.
Qed.

Lemma rev_app_empty (s1 s2 : string) :
  String.rev_app s1 s2 = "" → s1 = "" ∧ s2 = "".
Proof.
  revert s2. induction s1 as [| c s1 IH]; intros s2; cbn; [auto |].
  intros H. apply IH in H as [_ [=]].
Qed.

(** A string that begins with a letter or digit has no white space to lose
    at that end. *)
Lemma strip_alnum (backwards : bool) (s : string) :
  all isAlnum s = true → strip backwards s = s.
Proof.
  destruct s as [| a s]; [reflexivity |]. cbn [all strip].
  intros H. apply andb_true_iff in H as [Ha _].
  rewrite (isSpace_not_alnum a Ha).
  destruct s as [| b s]; [reflexivity |].
  destruct (isSpace2_not_alnum a b Ha) as [-> ->].
  destruct s as [| c s]; [destruct backwards; reflexivity |].
  destruct (isSpace3_not_alnum a b c Ha) as [-> ->].
  destruct backwards; reflexivity.
Qed.

(** A value made of letters and digits is not touched by [trim]. *)
Lemma trim_alnum (s : string) : all isAlnum s = true → trim s ≠ "" ∨ s = "".
Proof.
  intros Hs. destruct s as [| c s]; [right; reflexivity |]. left.
  unfold trim, trimStart. rewrite (strip_alnum false _ Hs).
  rewrite strip_alnum
    by (unfold String.rev; rewrite all_rev_app, Hs; reflexivity).
  unfold String.rev. intros Hempty.
  apply rev_app_empty in Hempty as [Hempty _].
  apply rev_app_empty in Hempty as [[=] _].
Qed.

Lemma isAlnum32_given (env : gmap string string) (k v : string) :
  env !! k = Some v → isAlnum32 v = true → isMissing env k = false.
Proof.
  intros Hk Hv. unfold isMissing. rewrite Hk. unfold isAlnum32 in Hv.
  apply andb_true_iff in Hv as [Hlen Hall].
  destruct (trim_alnum v Hall) as [Htrim | ->]; [| discriminate Hlen].
  destruct (String.eqb_spec v "") as [-> | _]; [discriminate Hlen |].
  destruct (String.eqb_spec (trim v) ""); [contradiction | reflexivity].
Qed.

Lemma isMissing_false (env : gmap string string) (k : string) :
  isMissing env k = false →
  ∃ v, env !! k = Some v ∧ v ≠ "" ∧ trim v ≠ "".
Proof.
  unfold isMissing. destruct (env !! k) as [v |]; [| discriminate].
  intros H. apply orb_false_iff in H as [H1 H2].
  exists v. split; [reflexivity |].
  split; [apply String.eqb_neq; exact H1 | apply String.eqb_neq; exact H2].
Qed.

Lemma validateSpotifyEnvironment_given (env : gmap string string) :
  isMissing env "SPOTIFY_CLIENT_ID" = false →
  isMissing env "SPOTIFY_CLIENT_SECRET" = false →
  isMissing env "SPOTIFY_REFRESH_TOKEN" = false →
  validateSpotifyEnvironment env =
  let id := default "" (env !! "SPOTIFY_CLIENT_ID") in
  let secret := default "" (env !! "SPOTIFY_CLIENT_SECRET") in
  let refresh := default "" (env !! "SPOTIFY_REFRESH_TOKEN") in
  match validateSpotifyCredentialFormat id secret refresh with
  | Some e => Invalid e
  | None =>
      Valid {| SPOTIFY_CLIENT_ID := Some id; SPOTIFY_CLIENT_SECRET := Some secret;
               SPOTIFY_REFRESH_TOKEN := Some refresh |}
  end.
Proof.
  intros Hid Hsecret Hrefresh. unfold validateSpotifyEnvironment, required.
  rewrite !filter_cons. cbn [key].
  repeat (destruct (decide _) as [Hd | _];
          [rewrite ?Hid, ?Hsecret, ?Hrefresh in Hd; discriminate Hd |]).
  reflexivity.
Qed.

Lemma validateSpotifyEnvironment_missing (env : gmap string string) (k : string) :
  k ∈ ["SPOTIFY_CLIENT_ID"; "SPOTIFY_CLIENT_SECRET"; "SPOTIFY_REFRESH_TOKEN"] →
  isMissing env k = true →
  ∃ missing,
    validateSpotifyEnvironment env =
    Invalid {| cmessage := "Missing required environment variables";
               details := MissingDetails missing |} ∧
    k ∈ key <$> missing.
Proof.
  intros Hk Hmissing. unfold validateSpotifyEnvironment.
  set (missing := filter _ required).
  assert (k ∈ key <$> missing) as Hin.
  { subst missing. unfold required.
    rewrite !elem_of_cons, elem_of_nil in Hk.
    destruct Hk as [-> | [-> | [-> | []]]];
      rewrite !filter_cons; cbn [key]; rewrite Hmissing;
      repeat (destruct (decide _); cbn [fmap list_fmap key]);
      rewrite ?elem_of_cons; auto; congruence. }
  destruct missing as [| m rest]; [inversion Hin |].
  eexists. split; [reflexivity | exact Hin].
Qed.

(** X19: the settings pass [validateSpotifyEnvironment] exactly when the
    client id and the client secret are 32 ASCII letters and digits each and
    the refresh token is not blank, by the white space [trim] removes,
    Unicode's included, and at least 100 UTF-16 code units long; the values
    handed on are the ones of the environment, untrimmed. *)
Theorem validateSpotifyEnvironment_valid (env : gmap string string) (v : Env) :
  validateSpotifyEnvironment env = Valid v ↔
  ∃ id secret refresh,
    env !! "SPOTIFY_CLIENT_ID" = Some id ∧
    env !! "SPOTIFY_CLIENT_SECRET" = Some secret ∧
    env !! "SPOTIFY_REFRESH_TOKEN" = Some refresh ∧
    isAlnum32 id = true ∧ isAlnum32 secret = true ∧
    trim refresh ≠ "" ∧ (100 ≤ length16 refresh)%nat ∧
    v = {| SPOTIFY_CLIENT_ID := Some id; SPOTIFY_CLIENT_SECRET := Some secret;
           SPOTIFY_REFRESH_TOKEN := Some refresh |}.
Proof.
  split.
  - intros Hvalid.
    assert (∀ k,
              k ∈ ["SPOTIFY_CLIENT_ID"; "SPOTIFY_CLIENT_SECRET";
                   "SPOTIFY_REFRESH_TOKEN"] → isMissing env k = false)
      as Hgiven.
    { intros k Hk. destruct (isMissing env k) eqn:Hmissing; [| reflexivity].
      destruct (validateSpotifyEnvironment_missing env k Hk Hmissing)
        as (missing & Hinvalid & _).
      rewrite Hinvalid in Hvalid. discriminate Hvalid. }
    assert (isMissing env "SPOTIFY_CLIENT_ID" = false) as Hid
      by (apply Hgiven; rewrite !elem_of_cons; auto).
    assert (isMissing env "SPOTIFY_CLIENT_SECRET" = false) as Hsecret
      by (apply Hgiven; rewrite !elem_of_cons; auto).
    assert (isMissing env "SPOTIFY_REFRESH_TOKEN" = false) as Hrefresh
      by (apply Hgiven; rewrite !elem_of_cons; auto).
    rewrite (validateSpotifyEnvironment_given env Hid Hsecret Hrefresh)
      in Hvalid.
    cbv zeta in Hvalid.
    destruct (isMissing_false _ _ Hid) as (id & Hid' & _ & _).
    destruct (isMissing_false _ _ Hsecret) as (secret & Hsecret' & _ & _).
    destruct (isMissing_false _ _ Hrefresh) as (refresh & Hrefresh' & _ & Htrim).
    rewrite Hid', Hsecret', Hrefresh' in Hvalid.
    cbn [default from_option Datatypes.id] in Hvalid.
    unfold validateSpotifyCredentialFormat in Hvalid.
    destruct (isAlnum32 id) eqn:Hidf; cbn [negb] in Hvalid;
      [| discriminate Hvalid].
    destruct (isAlnum32 secret) eqn:Hsecretf; cbn [negb] in Hvalid;
      [| discriminate Hvalid].
    destruct (length16 refresh <? 100)%nat eqn:Hlen;
      [discriminate Hvalid |].
    injection Hvalid as <-.
    exists id, secret, refresh.
    repeat split; try assumption. apply Nat.ltb_ge. exact Hlen.
  - intros (id & secret & refresh & Hid & Hsecret & Hrefresh & Hidf & Hsecretf
            & Htrim & Hlen & ->).
    assert (isMissing env "SPOTIFY_REFRESH_TOKEN" = false) as Hgiven.
    { unfold isMissing. rewrite Hrefresh.
      destruct refresh as [| c rest]; [cbn in Hlen; lia |].
      cbn [String.eqb orb].
      destruct (String.eqb_spec (trim (String c rest)) "");
        [contradiction | reflexivity]. }
    rewrite (validateSpotifyEnvironment_given env
               (isAlnum32_given env _ id Hid Hidf)
               (isAlnum32_given env _ secret Hsecret Hsecretf) Hgiven).
    cbv zeta. rewrite Hid, Hsecret, Hrefresh.
    cbn [default from_option Datatypes.id].
    unfold validateSpotifyCredentialFormat. rewrite Hidf, Hsecretf.
    cbn [negb]. apply Nat.ltb_ge in Hlen. rewrite Hlen. reflexivity.
Qed.

(** X20: [performValidation] keeps its first answer: once it has run,
    every later run returns the same result and leaves the two variables as
    they are, whatever the environment has become meanwhile. *)
Theorem performValidation_first_answer (env env' : gmap string string)
    (c : Cache) :
  performValidation env' (snd (performValidation env c))
  = performValidation env c.
Proof.
  unfold performValidation.
  destruct (validatedEnv c) as [v |] eqn:Hv.
  - cbn. rewrite Hv. reflexivity.
  - destruct (validationError c) as [e |] eqn:He.
    + cbn. rewrite Hv, He. reflexivity.
    + destruct (validateEnvironment env) as [results | e]; reflexivity.
Qed.

(** X21: when a required setting is missing or blank, the validated
    endpoint answers every request, whatever its method and whatever the
    upstream would say, with status 500 and none of the CORS headers; the
    body names the missing settings unless NODE_ENV or VERCEL_ENV is
    "production", where it is the fixed "Server configuration error". *)
Theorem validatedHandler_unconfigured (env : gmap string string)
    (timestamp method : string) (tokenFetch apiFetch : FetchOutcome)
    (k : string) :
  k ∈ ["SPOTIFY_CLIENT_ID"; "SPOTIFY_CLIENT_SECRET"; "SPOTIFY_REFRESH_TOKEN"] →
  isMissing env k = true →
  let reply :=
    fst (validatedHandler env timestamp method tokenFetch apiFetch emptyCache) in
  code reply = 500 ∧ headers reply = [] ∧
  if isProduction env "NODE_ENV" || isProduction env "VERCEL_ENV" then
    body reply =
    Some (VObj [("error", VStr "Server configuration error");
                ("message", VStr "The server is not properly configured.");
                ("timestamp", VStr timestamp)])
  else
    ∃ missing b,
      body reply = Some b ∧
      optprop b "error" = VStr "Configuration Error" ∧
      optprop b "message" = VStr "Missing required environment variables" ∧
      optprop (optprop b "details") "missing" = VArr missing ∧
      VStr k ∈ (λ m, optprop m "key") <$> missing.
Proof.
  intros Hk Hmissing reply.
  destruct (validateSpotifyEnvironment_missing env k Hk Hmissing)
    as (missing & Hinvalid & Hin).
  subst reply.
  unfold validatedHandler, withEnvValidation, performValidation,
    validateEnvironment.
  cbn [validatedEnv validationError emptyCache]. rewrite Hinvalid.
  cbn [validationError fst].
  destruct (isProduction env "NODE_ENV"); cbn [negb andb orb];
    [repeat split; reflexivity |].
  destruct (isProduction env "VERCEL_ENV"); cbn [negb andb orb];
    [repeat split; reflexivity |].
  split; [reflexivity |]. split; [reflexivity |].
  exists ((λ m, serialize (variableJson m)) <$> missing). eexists.
  split; [| split; [| split; [| split]]].
  - cbn. rewrite <- list_fmap_compose. reflexivity.
  - reflexivity.
  - reflexivity.
  - reflexivity.
  - rewrite <- list_fmap_compose.
    apply list_elem_of_fmap in Hin as (m & -> & Hm).
    apply list_elem_of_fmap. exists m. split; [reflexivity | exact Hm].
Qed.

Lemma validatedHandler_unconfigured_witness :
  let env : gmap string string :=
    {[ "SPOTIFY_CLIENT_ID" := "   ";
       "SPOTIFY_CLIENT_SECRET" := "0123456789abcdef0123456789abcdef" ]} in
  let reply :=
    fst (validatedHandler env "2025-01-01T00:00:00.000Z" "OPTIONS"
           (Rejects (Error "TypeError" "fetch failed"))
           (Rejects (Error "TypeError" "fetch failed")) emptyCache) in
  isMissing env "SPOTIFY_CLIENT_ID" = true ∧
  code reply = 500 ∧ headers reply = [].
Proof.
  intros env reply.
  assert (isMissing env "SPOTIFY_CLIENT_ID" = true) as Hmissing
    by (vm_compute; reflexivity).
  split; [exact Hmissing |].
  destruct (validatedHandler_unconfigured env "2025-01-01T00:00:00.000Z"
              "OPTIONS" (Rejects (Error "TypeError" "fetch failed"))
              (Rejects (Error "TypeError" "fetch failed"))
              "SPOTIFY_CLIENT_ID"
              ltac:(rewrite !elem_of_cons; auto) Hmissing)
    as (Hcode & Hheaders & _).
  split; [exact Hcode | exact Hheaders].
Defined.

End Settings.
